(** * Codex MCP core: a shallow embedding of [src/mcp/codex-core.ts]

    The development follows the TypeScript module function by function:
    [CODEX_TIMEOUT], [parseCodexOutput], [executeCodex],
    [validateAndReadFile] and [handleAskCodex].  The JavaScript run time the
    module leans on (strings of UTF-16 code units, IEEE-754 doubles,
    [JSON.parse], string conversion, [parseInt], [toFixed]) is modelled
    first, as far as the module uses it. *)

From Stdlib Require Import ZArith NArith List String Ascii Bool Lia.
Import ListNotations.

Local Open Scope Z_scope.

(* ================================================================== *)
(** ** JavaScript strings *)
(* ================================================================== *)

Module JSString.

(** A JavaScript string is a sequence of UTF-16 code units. *)
Definition char := N.
Definition jsstring := list char.

(** String literals of the source are written [lit "..."]. *)
Definition lit (s : string) : jsstring :=
  List.map N_of_ascii (list_ascii_of_string s).

Definition nl : jsstring := [10%N].
Definition dquote : jsstring := [34%N].

(** [quoted "abc"] is the text ["abc"] between two double quotes. *)
Definition quoted (s : string) : jsstring := dquote ++ lit s ++ dquote.

Definition str_eqb (a b : jsstring) : bool :=
  if list_eq_dec N.eq_dec a b then true else false.

(** ECMAScript [WhiteSpace] and [LineTerminator] code points, the set that
    [String.prototype.trim] and [parseInt] strip. *)
Definition is_white_space (c : char) : bool :=
  (((9 <=? c) && (c <=? 13)) || (c =? 32) || (c =? 160) || (c =? 5760)
   || ((8192 <=? c) && (c <=? 8202)) || (c =? 8232) || (c =? 8233)
   || (c =? 8239) || (c =? 8287) || (c =? 12288) || (c =? 65279))%N.

Fixpoint trimStart (s : jsstring) : jsstring :=
  match s with
  | c :: r => if is_white_space c then trimStart r else s
  | [] => []
  end.

Definition trimEnd (s : jsstring) : jsstring := rev (trimStart (rev s)).

Definition trim (s : jsstring) : jsstring := trimEnd (trimStart s).

(** [s.split('\n')]: the pieces between line feeds; never empty. *)
Fixpoint split_nl (s : jsstring) : list jsstring :=
  match s with
  | [] => [[]]
  | c :: r =>
      if (c =? 10)%N then [] :: split_nl r
      else match split_nl r with
           | l :: ls => (c :: l) :: ls
           | [] => [[c]]
           end
  end.

(** [pieces.join(sep)] on strings. *)
Fixpoint join (sep : jsstring) (l : list jsstring) : jsstring :=
  match l with
  | [] => []
  | [x] => x
  | x :: r => x ++ sep ++ join sep r
  end.

(** JavaScript truthiness of a string: non-empty. *)
Definition nonempty (s : jsstring) : bool :=
  match s with [] => false | _ => true end.

(** Decimal digits of a non-negative integer, most significant first. *)
Fixpoint digits_fuel (fuel : nat) (z : Z) (acc : jsstring) : jsstring :=
  match fuel with
  | O => acc
  | S f =>
      let acc' := Z.to_N (48 + z mod 10) :: acc in
      if z <? 10 then acc' else digits_fuel f (z / 10) acc'
  end.

Definition dec_nat (z : Z) : jsstring :=
  digits_fuel (S (Z.to_nat (Z.log2 z))) z [].

(** Decimal rendering of an integer, as [String(n)] gives it for an
    integer-valued Number below 10^21. *)
Definition dec (z : Z) : jsstring :=
  if z <? 0 then lit "-" ++ dec_nat (- z) else dec_nat z.

Definition zeros (n : Z) : jsstring := repeat 48%N (Z.to_nat n).

End JSString.
Import JSString.

(* ================================================================== *)
(** ** JavaScript numbers *)
(* ================================================================== *)

Module Number.

(** A Number is an IEEE-754 binary64 value.  A finite one is kept as the
    dyadic rational [m * 2^e]; the sign of zero is not kept (nothing in the
    module tells [-0] from [0]). *)
Inductive number : Type :=
| NaN
| Inf (neg : bool)
| Fin (m e : Z).

(** An integer literal of the source (all of them are far below [2^53]). *)
Definition of_int (z : Z) : number := Fin z 0.

(** Order and equality of finite values, by bringing both to the smaller
    exponent. *)
Definition cmp_fin (m1 e1 m2 e2 : Z) : comparison :=
  let e := Z.min e1 e2 in
  (m1 * 2 ^ (e1 - e)) ?= (m2 * 2 ^ (e2 - e)).

Definition compare (a b : number) : option comparison :=
  match a, b with
  | NaN, _ | _, NaN => None
  | Inf true, Inf true | Inf false, Inf false => Some Eq
  | Inf true, _ | _, Inf false => Some Lt
  | Inf false, _ | _, Inf true => Some Gt
  | Fin m1 e1, Fin m2 e2 => Some (cmp_fin m1 e1 m2 e2)
  end.

(** [a < b], [a > b] and [a === b] on Numbers; all false on NaN. *)
Definition ltb (a b : number) : bool :=
  match compare a b with Some Lt => true | _ => false end.
Definition gtb (a b : number) : bool := ltb b a.
Definition eqb (a b : number) : bool :=
  match compare a b with Some Eq => true | _ => false end.

(** [Math.max(a, b)] and [Math.min(a, b)]. *)
Definition max (a b : number) : number :=
  match compare a b with
  | None => NaN
  | Some Lt => b
  | Some _ => a
  end.

Definition min (a b : number) : number :=
  match compare a b with
  | None => NaN
  | Some Gt => b
  | Some _ => a
  end.

(** Truthiness: every Number but zero and NaN. *)
Definition truthy (a : number) : bool :=
  match a with
  | NaN => false
  | Inf _ => true
  | Fin m _ => negb (m =? 0)
  end.

Definition neg (a : number) : number :=
  match a with
  | NaN => NaN
  | Inf b => Inf (negb b)
  | Fin m e => Fin (- m) e
  end.

(** Round the positive rational [n / d] to the nearest double, ties to
    even: the result has a 53-bit significand at the exponent of [n / d],
    or sits on the subnormal grid [2^-1074]; from [2^1024] on it is
    Infinity. *)
Definition ge_pow2 (n d k : Z) : bool :=
  if 0 <=? k then d * 2 ^ k <=? n else d <=? n * 2 ^ (- k).

Definition round_pos (n d : Z) : number :=
  let b0 := Z.log2 n - Z.log2 d in
  let b := if ge_pow2 n d b0 then b0 else b0 - 1 in
  let q := Z.max (b - 52) (-1074) in
  let n' := if q <? 0 then n * 2 ^ (- q) else n in
  let d' := if q <? 0 then d else d * 2 ^ q in
  let lo := n' / d' in
  let r := n' mod d' in
  let m := match 2 * r ?= d' with
           | Lt => lo
           | Gt => lo + 1
           | Eq => if Z.even lo then lo else lo + 1
           end in
  if (971 <? q) || ((q =? 971) && (m =? 2 ^ 53)) then Inf false
  else Fin m q.

(** The Number value of the rational [n / d], [0 < d]. *)
Definition of_ratio (n d : Z) : number :=
  if n =? 0 then Fin 0 0
  else if n <? 0 then neg (round_pos (- n) d)
  else round_pos n d.

(** The Number value of a mathematical integer; integers below [2^53] in
    magnitude are exact. *)
Definition of_Z (z : Z) : number :=
  if Z.abs z <? 2 ^ 53 then Fin z 0 else of_ratio z 1.

(** The Number value of [m * 10^e], the value of a decimal literal. *)
Definition of_decimal (m e : Z) : number :=
  if 0 <=? e then of_ratio (m * 10 ^ e) 1 else of_ratio m (10 ^ (- e)).

(** [x / 2^k] for a power of two (here [x / 1024]): the exponent drops by
    [k], exactly, unless the quotient falls below the normal range. *)
Definition div_pow2 (x : number) (k : Z) : number :=
  match x with
  | Fin m e =>
      let e' := e - k in
      if ge_pow2 (Z.abs m) 1 (-1022 - e') then Fin m e'   (* still normal: exact *)
      else if 0 <=? e' then of_ratio (m * 2 ^ e') 1
      else of_ratio m (2 ^ (- e'))
  | _ => x
  end.

(** *** Number::toString (radix 10) *)

(** A positive finite value as a fraction. *)
Definition num_of (m e : Z) : Z := if 0 <=? e then m * 2 ^ e else m.
Definition den_of (e : Z) : Z := if 0 <=? e then 1 else 2 ^ (- e).

(** The [n] with [10^(n-1) <= num/den < 10^n]. *)
Fixpoint scale_up (fuel : nat) (num den j : Z) : Z :=
  match fuel with
  | O => j
  | S f => if den <=? num * 10 ^ j then j else scale_up f num den (j + 1)
  end.

Definition exponent10 (num den : Z) : Z :=
  if den <=? num then Z.of_nat (List.length (dec_nat (num / den)))
  else 1 - scale_up (S (Z.to_nat (Z.log2 den))) num den 1.

(** [floor (num/den * 10^p)]. *)
Definition scaled_floor (num den p : Z) : Z :=
  if 0 <=? p then (num * 10 ^ p) / den else num / (den * 10 ^ (- p)).

(** Is [|s * 10^p - num/den| <= |t * 10^p - num/den|], for
    [s * 10^p <= num/den <= t * 10^p] ?  Compared after clearing the
    denominators. *)
Definition dist_cmp (num den s t p : Z) : comparison :=
  let (sn, sd) := if 0 <=? p then (10 ^ p, 1) else (1, 10 ^ (- p)) in
  (* x - s*10^p  versus  t*10^p - x, all times den*sd *)
  (num * sd - s * sn * den) ?= (t * sn * den - num * sd).

(** The shortest digit string [s] (with [k] digits) and exponent [n] for
    which [s * 10^(n-k)] reads back as the same double. *)
Fixpoint shortest (fuel : nat) (m e : Z) (n k : Z) : Z * Z * Z :=
  let num := num_of m e in
  let den := den_of e in
  let lo := scaled_floor num den (k - n) in
  let hi := lo + 1 in
  let ok s := eqb (of_decimal s (n - k)) (Fin m e) in
  let fix_hi := if hi =? 10 ^ k then (10 ^ (k - 1), k, n + 1) else (hi, k, n) in
  match fuel with
  | O => (lo, k, n)
  | S f =>
      match ok lo, ok hi with
      | true, true =>
          match dist_cmp num den lo hi (n - k) with
          | Lt => (lo, k, n)
          | Gt => fix_hi
          | Eq => if Z.even lo then (lo, k, n) else fix_hi
          end
      | true, false => (lo, k, n)
      | false, true => fix_hi
      | false, false => shortest f m e n (k + 1)
      end
  end.

Definition to_string_pos (m e : Z) : jsstring :=
  let n0 := exponent10 (num_of m e) (den_of e) in
  let '(s, k, n) := shortest 17 m e n0 1 in
  let ds := dec_nat s in
  if (k <=? n) && (n <=? 21) then ds ++ zeros (n - k)
  else if (0 <? n) && (n <=? 21) then
    firstn (Z.to_nat n) ds ++ lit "." ++ skipn (Z.to_nat n) ds
  else if (-6 <? n) && (n <=? 0) then lit "0." ++ zeros (- n) ++ ds
  else
    let ex := n - 1 in
    let sg := if ex <? 0 then lit "-" else lit "+" in
    let mant := if k =? 1 then ds
                else firstn 1 ds ++ lit "." ++ skipn 1 ds in
    mant ++ lit "e" ++ sg ++ dec_nat (Z.abs ex).

Definition to_string (x : number) : jsstring :=
  match x with
  | NaN => lit "NaN"
  | Inf false => lit "Infinity"
  | Inf true => lit "-Infinity"
  | Fin m e =>
      if m =? 0 then lit "0"
      else if m <? 0 then lit "-" ++ to_string_pos (- m) e
      else to_string_pos m e
  end.

(** *** Number.prototype.toFixed(1) *)

(** The integer [t] nearest to [10 * m * 2^e] (the larger one on a tie),
    for [0 <= m]. *)
Definition tenths (m e : Z) : Z :=
  let num := 10 * num_of m e in
  let den := den_of e in
  (2 * num + den) / (2 * den).

Definition toFixed1_pos (m e : Z) : jsstring :=
  if ge_pow2 (num_of m e) (den_of e * 5 ^ 21) 21 then to_string_pos m e
  else
    let t := tenths m e in
    dec_nat (t / 10) ++ lit "." ++ dec_nat (t mod 10).

Definition toFixed1 (x : number) : jsstring :=
  match x with
  | Fin m e =>
      if m <? 0 then lit "-" ++ toFixed1_pos (- m) e
      else toFixed1_pos m e
  | _ => to_string x
  end.

End Number.

(* ================================================================== *)
(** ** Exceptions *)
(* ================================================================== *)

(** What a JavaScript expression evaluates to: a value, or a thrown
    exception. *)
Inductive exn : Type :=
| SyntaxError          (* JSON.parse on malformed text *)
| TypeError            (* property read on null, failed string conversion *)
| SystemError (msg : jsstring).  (* a failing fs or path call *)

Inductive Exc (A : Type) : Type :=
| Ok (a : A)
| Throw (e : exn).
Arguments Ok {A} a.
Arguments Throw {A} e.

Definition exc_bind {A B} (m : Exc A) (f : A -> Exc B) : Exc B :=
  match m with
  | Ok a => f a
  | Throw e => Throw e
  end.

Definition exc_map {A B} (f : A -> B) (m : Exc A) : Exc B :=
  exc_bind m (fun a => Ok (f a)).

(* ================================================================== *)
(** ** JavaScript values and JSON.parse *)
(* ================================================================== *)

Module Json.
Import Number.

(** The values that reach this module: what [JSON.parse] builds, and
    [undefined] for a missing property. *)
#[warnings="-register-all"]
Inductive Value : Type :=
| VUndefined
| VNull
| VBool (b : bool)
| VNumber (n : number)
| VString (s : jsstring)
| VArray (items : list Value)
| VObject (props : list (jsstring * Value)).

(** Own property lookup on a parsed object; of two members with one key
    [JSON.parse] keeps the later one. *)
Fixpoint lookup (k : jsstring) (props : list (jsstring * Value))
  : option Value :=
  match props with
  | [] => None
  | (k', v) :: r =>
      match lookup k r with
      | Some v' => Some v'
      | None => if str_eqb k k' then Some v else None
      end
  end.

(** [v.k] for one of the keys this module reads ([type], [content],
    [text]): a TypeError on [null] and [undefined], the own property of an
    object, and [undefined] everywhere else (no prototype defines these
    keys). *)
Definition get (v : Value) (k : jsstring) : Exc Value :=
  match v with
  | VUndefined | VNull => Throw TypeError
  | VObject props =>
      match lookup k props with
      | Some x => Ok x
      | None => Ok VUndefined
      end
  | _ => Ok VUndefined
  end.

Definition truthy (v : Value) : bool :=
  match v with
  | VUndefined | VNull => false
  | VBool b => b
  | VNumber n => Number.truthy n
  | VString s => nonempty s
  | VArray _ | VObject _ => true
  end.

(** [typeof v === 'string'] and [v === 'lit'] for a string literal. *)
Definition is_string (v : Value) : bool :=
  match v with VString _ => true | _ => false end.

Definition strict_eq_str (v : Value) (s : jsstring) : bool :=
  match v with VString x => str_eqb x s | _ => false end.

(** ToString.  A parsed object converts through [Object.prototype.toString]
    unless it has an own [toString] member: that member is never callable,
    [valueOf] then yields no primitive either, and the conversion throws a
    TypeError.  An array converts through [join(',')], where [null] and
    [undefined] items count as empty.  This is the conversion as ECMAScript
    defines it.  An engine also gives up, with a RangeError, on arrays
    nested some thousand levels deep; that limit of its call stack is not
    modelled, and what is stated below about a conversion that returns is
    stated for values that are no arrays. *)
Fixpoint to_string (v : Value) : Exc jsstring :=
  match v with
  | VUndefined => Ok (lit "undefined")
  | VNull => Ok (lit "null")
  | VBool true => Ok (lit "true")
  | VBool false => Ok (lit "false")
  | VNumber n => Ok (Number.to_string n)
  | VString s => Ok s
  | VArray items =>
      exc_map (join (lit ","))
        ((fix items_to_string (l : list Value) : Exc (list jsstring) :=
            match l with
            | [] => Ok []
            | x :: r =>
                exc_bind
                  (match x with
                   | VUndefined | VNull => Ok []
                   | _ => to_string x
                   end)
                  (fun s => exc_map (cons s) (items_to_string r))
            end) items)
  | VObject props =>
      match lookup (lit "toString") props with
      | Some _ => Throw TypeError
      | None => Ok (lit "[object Object]")
      end
  end.

(** The string an item contributes to [Array.prototype.join]. *)
Definition item_to_string (v : Value) : Exc jsstring :=
  match v with
  | VUndefined | VNull => Ok []
  | _ => to_string v
  end.

Fixpoint items_to_strings (l : list Value) : Exc (list jsstring) :=
  match l with
  | [] => Ok []
  | x :: r =>
      exc_bind (item_to_string x)
        (fun s => exc_map (cons s) (items_to_strings r))
  end.

(** [items.join(sep)] on an array of values. *)
Definition join_values (sep : jsstring) (items : list Value) : Exc jsstring :=
  exc_map (join sep) (items_to_strings items).

(** *** The JSON grammar *)

Inductive presult (A : Type) : Type :=
| POk (a : A) (rest : jsstring)
| PErr
| PFuel.
Arguments POk {A} a rest.
Arguments PErr {A}.
Arguments PFuel {A}.

Definition is_json_ws (c : char) : bool :=
  ((c =? 9) || (c =? 10) || (c =? 13) || (c =? 32))%N.

Fixpoint skip_ws (s : jsstring) : jsstring :=
  match s with
  | c :: r => if is_json_ws c then skip_ws r else s
  | [] => []
  end.

Definition is_digit (c : char) : bool := ((48 <=? c) && (c <=? 57))%N.

Definition hex_val (c : char) : option N :=
  if is_digit c then Some (c - 48)%N
  else if ((65 <=? c) && (c <=? 70))%N then Some (c - 55)%N
  else if ((97 <=? c) && (c <=? 102))%N then Some (c - 87)%N
  else None.

Definition hex4 (a b c d : char) : option char :=
  match hex_val a, hex_val b, hex_val c, hex_val d with
  | Some x, Some y, Some z, Some w =>
      Some (((x * 16 + y) * 16 + z) * 16 + w)%N
  | _, _, _, _ => None
  end.

(** [eat c s] is what follows a leading [c] in [s]. *)
Definition uncons_if (p : char -> bool) (s : jsstring) : option jsstring :=
  match s with
  | c :: r => if p c then Some r else None
  | [] => None
  end.

Definition eat (c : char) (s : jsstring) : option jsstring :=
  uncons_if (N.eqb c) s.

Fixpoint strip_prefix (p s : jsstring) : option jsstring :=
  match p with
  | [] => Some s
  | c :: p' =>
      match eat c s with
      | Some r => strip_prefix p' r
      | None => None
      end
  end.

(** The character a two-character escape stands for. *)
Definition simple_escape (e : char) : option char :=
  (if e =? 34 then Some 34          (* quotation mark *)
   else if e =? 92 then Some 92     (* reverse solidus *)
   else if e =? 47 then Some 47     (* solidus *)
   else if e =? 98 then Some 8      (* b: backspace *)
   else if e =? 102 then Some 12    (* f: form feed *)
   else if e =? 110 then Some 10    (* n: line feed *)
   else if e =? 114 then Some 13    (* r: carriage return *)
   else if e =? 116 then Some 9     (* t: tab *)
   else None)%N.

Definition pcons (c : char) (k : presult jsstring) : presult jsstring :=
  match k with
  | POk cs r => POk (c :: cs) r
  | PErr => PErr
  | PFuel => PFuel
  end.

(** The characters of a string literal after its opening quote, up to and
    including the closing quote. *)
Fixpoint parse_chars (s : jsstring) : presult jsstring :=
  match s with
  | [] => PErr
  | c :: r =>
      if (c =? 34)%N then POk [] r
      else if (c =? 92)%N then
        match r with
        | [] => PErr
        | e :: r' =>
            if (e =? 117)%N then                        (* u and four hex digits *)
              match r' with
              | h1 :: h2 :: h3 :: h4 :: r'' =>
                  match hex4 h1 h2 h3 h4 with
                  | Some u => pcons u (parse_chars r'')
                  | None => PErr
                  end
              | _ => PErr
              end
            else
              match simple_escape e with
              | Some x => pcons x (parse_chars r')
              | None => PErr
              end
        end
      else if (c <? 32)%N then PErr
      else pcons c (parse_chars r)
  end.

(** Leading decimal digits and what follows them. *)
Fixpoint span_digits (s : jsstring) : jsstring * jsstring :=
  match s with
  | c :: r =>
      if is_digit c then let (ds, r') := span_digits r in (c :: ds, r')
      else ([], s)
  | [] => ([], [])
  end.

Definition digits_val (ds : jsstring) : Z :=
  fold_left (fun acc c => acc * 10 + (Z.of_N c - 48)) ds 0.

(** One or more digits. *)
Definition digits1 (s : jsstring) : option (jsstring * jsstring) :=
  match span_digits s with
  | ([], _) => None
  | (ds, r) => Some (ds, r)
  end.

(** The integer part: a single 0, or a non-zero digit and more digits. *)
Definition int_part (s : jsstring) : option (jsstring * jsstring) :=
  match eat 48%N s with
  | Some r => Some ([48%N], r)
  | None => digits1 s
  end.

(** The optional fraction: a point and one or more digits. *)
Definition frac_part (s : jsstring) : option (jsstring * jsstring) :=
  match eat 46%N s with
  | Some r => digits1 r
  | None => Some ([], s)
  end.

(** The optional exponent: e or E, an optional sign, one or more digits. *)
Definition exp_part (s : jsstring) : option (Z * jsstring) :=
  match uncons_if (fun c => (c =? 101) || (c =? 69))%N s with
  | Some r =>
      let (eneg, r1) :=
        match eat 45%N r with
        | Some r' => (true, r')
        | None => match eat 43%N r with
                  | Some r' => (false, r')
                  | None => (false, r)
                  end
        end in
      match digits1 r1 with
      | Some (eds, r') =>
          Some (if eneg then - digits_val eds else digits_val eds, r')
      | None => None
      end
  | None => Some (0, s)
  end.

(** A number literal: an optional minus sign, the integer part, the
    optional fraction and the optional exponent. *)
Definition parse_number (s : jsstring) : presult number :=
  let (negative, s1) :=
    match eat 45%N s with
    | Some r => (true, r)
    | None => (false, s)
    end in
  match int_part s1 with
  | None => PErr
  | Some (ids, s2) =>
      match frac_part s2 with
      | None => PErr
      | Some (fds, s3) =>
          match exp_part s3 with
          | None => PErr
          | Some (ex, s4) =>
              let m := digits_val (ids ++ fds) in
              let x := of_decimal m (ex - Z.of_nat (List.length fds)) in
              POk (if negative then neg x else x) s4
          end
      end
  end.

(** A value, after optional white space.  The three parsers recurse on
    [fuel]; [PFuel] reports that it ran out ([JSON_parse] below gives
    enough). *)
Fixpoint parse_value (fuel : nat) (s : jsstring) : presult Value :=
  match fuel with
  | O => PFuel
  | S f =>
      match skip_ws s with
      | [] => PErr
      | c :: r =>
          if (c =? 123)%N then                          (* object *)
            match eat 125%N (skip_ws r) with
            | Some r' => POk (VObject []) r'
            | None =>
                match parse_members f r with
                | POk ms r' => POk (VObject ms) r'
                | PErr => PErr
                | PFuel => PFuel
                end
            end
          else if (c =? 91)%N then                      (* array *)
            match eat 93%N (skip_ws r) with
            | Some r' => POk (VArray []) r'
            | None =>
                match parse_elements f r with
                | POk vs r' => POk (VArray vs) r'
                | PErr => PErr
                | PFuel => PFuel
                end
            end
          else if (c =? 34)%N then                      (* string *)
            match parse_chars r with
            | POk cs r' => POk (VString cs) r'
            | PErr => PErr
            | PFuel => PFuel
            end
          else
            match strip_prefix (lit "true") (c :: r) with
            | Some r' => POk (VBool true) r'
            | None =>
            match strip_prefix (lit "false") (c :: r) with
            | Some r' => POk (VBool false) r'
            | None =>
            match strip_prefix (lit "null") (c :: r) with
            | Some r' => POk VNull r'
            | None =>
                match parse_number (c :: r) with
                | POk n r' => POk (VNumber n) r'
                | PErr => PErr
                | PFuel => PFuel
                end
            end end end
      end
  end

(** The elements of a non-empty array, up to and including the closing
    bracket. *)
with parse_elements (fuel : nat) (s : jsstring) : presult (list Value) :=
  match fuel with
  | O => PFuel
  | S f =>
      match parse_value f s with
      | POk v r =>
          match eat 44%N (skip_ws r) with
          | Some r' =>
              match parse_elements f r' with
              | POk vs r'' => POk (v :: vs) r''
              | PErr => PErr
              | PFuel => PFuel
              end
          | None =>
              match eat 93%N (skip_ws r) with
              | Some r' => POk [v] r'
              | None => PErr
              end
          end
      | PErr => PErr
      | PFuel => PFuel
      end
  end

(** The members of a non-empty object, up to and including the closing
    brace. *)
with parse_members (fuel : nat) (s : jsstring)
  : presult (list (jsstring * Value)) :=
  match fuel with
  | O => PFuel
  | S f =>
      match eat 34%N (skip_ws s) with
      | None => PErr
      | Some r =>
          match parse_chars r with
          | POk k r1 =>
              match eat 58%N (skip_ws r1) with
              | None => PErr
              | Some r2 =>
                  match parse_value f r2 with
                  | POk v r3 =>
                      match eat 44%N (skip_ws r3) with
                      | Some r4 =>
                          match parse_members f r4 with
                          | POk ms r5 => POk ((k, v) :: ms) r5
                          | PErr => PErr
                          | PFuel => PFuel
                          end
                      | None =>
                          match eat 125%N (skip_ws r3) with
                          | Some r4 => POk [(k, v)] r4
                          | None => PErr
                          end
                      end
                  | PErr => PErr
                  | PFuel => PFuel
                  end
              end
          | PErr => PErr
          | PFuel => PFuel
          end
      end
  end.

Definition parse_fuel (s : jsstring) : nat := 2 * List.length s + 2.

(** [JSON.parse(text)]: one value with nothing but white space after it,
    or a SyntaxError. *)
Definition JSON_parse (text : jsstring) : Exc Value :=
  match parse_value (parse_fuel text) text with
  | POk v rest =>
      match skip_ws rest with
      | [] => Ok v
      | _ => Throw SyntaxError
      end
  | _ => Throw SyntaxError
  end.

End Json.

(* ================================================================== *)
(** ** State and exceptions *)
(* ================================================================== *)

(** Code that updates a store and may throw: the store survives a throw,
    as an array mutated inside [try] does. *)
Section StExc.
Context {S : Type}.

Definition StExc (A : Type) : Type := S -> Exc A * S.

Definition ret {A} (a : A) : StExc A := fun st => (Ok a, st).

Definition bind {A B} (m : StExc A) (f : A -> StExc B) : StExc B :=
  fun st =>
    match m st with
    | (Ok a, st') => f a st'
    | (Throw e, st') => (Throw e, st')
    end.

Definition lift {A} (m : Exc A) : StExc A := fun st => (m, st).

Definition update (f : S -> S) : StExc unit := fun st => (Ok tt, f st).

(** [try { m } catch { }] *)
Definition try_ignore (m : StExc unit) : StExc unit :=
  fun st =>
    match m st with
    | (Ok _, st') => (Ok tt, st')
    | (Throw _, st') => (Ok tt, st')
    end.

(** [try { m } catch { return h }] *)
Definition try_catch {A} (m : StExc A) (h : StExc A) : StExc A :=
  fun st =>
    match m st with
    | (Ok a, st') => (Ok a, st')
    | (Throw _, st') => h st'
    end.

(** [for (const x of l) { body x }] *)
Fixpoint for_of {A} (l : list A) (body : A -> StExc unit) : StExc unit :=
  match l with
  | [] => ret tt
  | x :: r => bind (body x) (fun _ => for_of r body)
  end.

(** [l.map(f)], left to right. *)
Fixpoint map_st {A B} (f : A -> StExc B) (l : list A) : StExc (list B) :=
  match l with
  | [] => ret []
  | x :: r => bind (f x) (fun y => bind (map_st f r) (fun ys => ret (y :: ys)))
  end.
End StExc.
Arguments StExc S A : clear implicits.

Declare Scope st_scope.
Delimit Scope st_scope with st.
Notation "x <- m ;; k" := (bind m (fun x => k))
  (at level 61, m at next level, right associativity) : st_scope.
Notation "m ;;; k" := (bind m (fun _ => k))
  (at level 61, right associativity) : st_scope.

(* ================================================================== *)
(** ** The module [codex-core.ts] *)
(* ================================================================== *)

Module Codex.
Import Number Json.
Local Open Scope st_scope.

(** *** Configuration read from the environment *)

Record Env : Type := {
  OMC_CODEX_DEFAULT_MODEL : option jsstring;
  OMC_CODEX_TIMEOUT : option jsstring
}.

(** [v || dflt] on an environment variable: unset and empty both fall
    through. *)
Definition env_or (v : option jsstring) (dflt : jsstring) : jsstring :=
  match v with
  | Some s => if nonempty s then s else dflt
  | None => dflt
  end.

(** [parseInt(s, 10)]: leading white space, an optional sign, then the
    longest run of decimal digits; NaN when there is none. *)
Definition parseInt10 (s : jsstring) : number :=
  let s0 := trimStart s in
  let (negative, s1) :=
    match eat 45%N s0 with
    | Some r => (true, r)
    | None => match eat 43%N s0 with
              | Some r => (false, r)
              | None => (false, s0)
              end
    end in
  match digits1 s1 with
  | None => NaN
  | Some (ds, _) => of_Z (if negative then - digits_val ds else digits_val ds)
  end.

(** [x || dflt] on a Number. *)
Definition num_or (x dflt : number) : number :=
  if Number.truthy x then x else dflt.

Definition CODEX_DEFAULT_MODEL (env : Env) : jsstring :=
  env_or (OMC_CODEX_DEFAULT_MODEL env) (lit "gpt-5.2").

Definition CODEX_TIMEOUT (env : Env) : number :=
  Number.min
    (Number.max (of_int 5000)
       (num_or (parseInt10 (env_or (OMC_CODEX_TIMEOUT env) (lit "180000")))
               (of_int 180000)))
    (of_int 600000).

Definition CODEX_VALID_ROLES : list jsstring :=
  [lit "architect"; lit "planner"; lit "critic"; lit "code-reviewer";
   lit "security-reviewer"].

Definition MAX_CONTEXT_FILES : Z := 20.
Definition MAX_FILE_SIZE : Z := 5 * 1024 * 1024.

(** *** parseCodexOutput *)

(** The body of the inner loop over the parts of an array content. *)
Definition scan_part (part : Value) : StExc (list Value) unit :=
  ty <- lift (get part (lit "type")) ;;
  if strict_eq_str ty (lit "text") then
    text <- lift (get part (lit "text")) ;;
    if truthy text then update (fun messages => messages ++ [text])
    else ret tt
  else ret tt.

(** The statements inside [try], after [JSON.parse]. *)
Definition scan_event (event : Value) : StExc (list Value) unit :=
  ty <- lift (get event (lit "type")) ;;
  (if strict_eq_str ty (lit "message") then
     content <- lift (get event (lit "content")) ;;
     if truthy content then
       if is_string content then
         update (fun messages => messages ++ [content])
       else
         match content with
         | VArray parts => for_of parts scan_part
         | _ => ret tt
         end
     else ret tt
   else ret tt) ;;;
  ty' <- lift (get event (lit "type")) ;;
  if strict_eq_str ty' (lit "output_text") then
    text <- lift (get event (lit "text")) ;;
    if truthy text then update (fun messages => messages ++ [text])
    else ret tt
  else ret tt.

(** One turn of the outer loop: the [try] block with its empty [catch]. *)
Definition scan_line (line : jsstring) : StExc (list Value) unit :=
  try_ignore (event <- lift (JSON_parse line) ;; scan_event event).

(** [output.trim().split('\n').filter(l => l.trim())] *)
Definition output_lines (output : jsstring) : list jsstring :=
  filter (fun l => nonempty (trim l)) (split_nl (trim output)).

(** The array [messages] when the loop is done. *)
Definition collect (output : jsstring) : list Value :=
  snd (for_of (output_lines output) scan_line []).

(** [messages.join('\n') || output]; the join runs outside every [try]. *)
Definition parseCodexOutput (output : jsstring) : Exc jsstring :=
  exc_map (fun joined => if nonempty joined then joined else output)
          (join_values nl (collect output)).

(** *** Calls that leave the module *)

(** The calls that leave the module, in the order they are made. *)
Inductive Effect : Type :=
| FsStat (path : jsstring)
| FsRead (path : jsstring)
| DetectCli
| ResolvePrompt (role : jsstring)
| Spawn (command : jsstring) (args : list jsstring)
| StdinWrite (text : jsstring).

Definition log (e : Effect) : StExc (list Effect) unit :=
  update (fun done => done ++ [e]).

(** The calls that touch a context file or the engine process. *)
Definition touches_files_or_engine (e : Effect) : bool :=
  match e with
  | FsStat _ | FsRead _ | Spawn _ _ | StdinWrite _ => true
  | DetectCli | ResolvePrompt _ => false
  end.

(** *** executeCodex *)

(** What the run time can deliver to one invocation: the timer callback,
    data on either pipe, and the three events a handler is registered
    for.  [code] is [None] for the [null] of a child ended by a signal.
    [SpawnThrows] is the call of [spawn] itself throwing (an argument that
    holds a NUL character, an error of the operating system that Node does
    not turn into an error event): it can only come first, the executor
    ends there, before the timer is set and before any handler is
    registered, and the promise is rejected with the error thrown. *)
Inductive Event : Type :=
| Timeout
| StdoutData (chunk : jsstring)
| StderrData (chunk : jsstring)
| Close (code : option Z)
| SpawnError (message : jsstring)
| StdinError (message : jsstring)
| SpawnThrows (message : jsstring).

(** A call of [resolve] or of [reject]. *)
Inductive Settlement : Type :=
| Resolved (response : jsstring)
| Rejected (message : jsstring).

(** The variables the closures of one invocation share, and what they did
    so far: calls of [resolve] / [reject] in order (the rejection by the
    promise constructor of an executor that throws included), the number
    of [child.kill('SIGTERM')] calls, whether [clearTimeout] ran, and the
    exceptions that left a handler uncaught. *)
Record State : Type := {
  settled : bool;
  stdout : jsstring;
  stderr : jsstring;
  timer_cleared : bool;
  kills : nat;
  calls : list Settlement;
  uncaught : list exn
}.

Definition initial : State := {|
  settled := false; stdout := []; stderr := [];
  timer_cleared := false; kills := 0; calls := []; uncaught := []
|}.

Definition set_settled (st : State) : State :=
  {| settled := true; stdout := stdout st; stderr := stderr st;
     timer_cleared := timer_cleared st; kills := kills st;
     calls := calls st; uncaught := uncaught st |}.

Definition clearTimeout (st : State) : State :=
  {| settled := settled st; stdout := stdout st; stderr := stderr st;
     timer_cleared := true; kills := kills st;
     calls := calls st; uncaught := uncaught st |}.

Definition kill (st : State) : State :=
  {| settled := settled st; stdout := stdout st; stderr := stderr st;
     timer_cleared := timer_cleared st; kills := S (kills st);
     calls := calls st; uncaught := uncaught st |}.

Definition call (c : Settlement) (st : State) : State :=
  {| settled := settled st; stdout := stdout st; stderr := stderr st;
     timer_cleared := timer_cleared st; kills := kills st;
     calls := calls st ++ [c]; uncaught := uncaught st |}.

Definition escape (e : exn) (st : State) : State :=
  {| settled := settled st; stdout := stdout st; stderr := stderr st;
     timer_cleared := timer_cleared st; kills := kills st;
     calls := calls st; uncaught := uncaught st ++ [e] |}.

Definition append_stdout (chunk : jsstring) (st : State) : State :=
  {| settled := settled st; stdout := stdout st ++ chunk; stderr := stderr st;
     timer_cleared := timer_cleared st; kills := kills st;
     calls := calls st; uncaught := uncaught st |}.

Definition append_stderr (chunk : jsstring) (st : State) : State :=
  {| settled := settled st; stdout := stdout st; stderr := stderr st ++ chunk;
     timer_cleared := timer_cleared st; kills := kills st;
     calls := calls st; uncaught := uncaught st |}.

(** [`${code}`] for the exit code. *)
Definition code_text (code : option Z) : jsstring :=
  match code with
  | Some z => dec z
  | None => lit "null"
  end.

Definition timeout_message (timeout : number) : jsstring :=
  lit "Codex timed out after " ++ Number.to_string timeout ++ lit "ms".

Definition exit_message (code : option Z) (err : jsstring) : jsstring :=
  lit "Codex exited with code " ++ code_text code ++ lit ": "
  ++ (if nonempty err then err else lit "No output").

(** [code === 0 || stdout.trim()] *)
Definition close_ok (code : option Z) (out : jsstring) : bool :=
  match code with
  | Some 0 => true
  | _ => nonempty (trim out)
  end.

(** The handlers, one per event.  [timeout] is [CODEX_TIMEOUT]. *)
Definition step (timeout : number) (st : State) (ev : Event) : State :=
  match ev with
  | Timeout =>
      if settled st then st
      else call (Rejected (timeout_message timeout)) (kill (set_settled st))
  | StdoutData chunk => append_stdout chunk st
  | StderrData chunk => append_stderr chunk st
  | Close code =>
      if settled st then st
      else
        let st1 := clearTimeout (set_settled st) in
        if close_ok code (stdout st1) then
          match parseCodexOutput (stdout st1) with
          | Ok text => call (Resolved text) st1
          | Throw e => escape e st1
          end
        else call (Rejected (exit_message code (stderr st1))) st1
  | SpawnError message =>
      if settled st then st
      else
        call (Rejected (lit "Failed to spawn Codex CLI: " ++ message))
             (kill (clearTimeout (set_settled st)))
  | StdinError message =>
      if settled st then st
      else
        call (Rejected (lit "Stdin write error: " ++ message))
             (kill (clearTimeout (set_settled st)))
  | SpawnThrows message =>
      (* the executor throws: the promise is rejected with the error, and
         with no handler registered nothing that follows is answered *)
      if settled st then st
      else call (Rejected message) (set_settled st)
  end.

(** The state after a sequence of events. *)
Definition run (timeout : number) (st : State) (evs : list Event) : State :=
  fold_left (step timeout) evs st.

(** The promise [executeCodex] returned: settled by the first call of
    [resolve] or [reject], pending while there is none. *)
Definition promise (st : State) : option Settlement := hd_error (calls st).

(** The promise after the events [evs]. *)
Definition settlement (timeout : number) (evs : list Event)
  : option Settlement :=
  promise (run timeout initial evs).

Definition codex_args (model : jsstring) : list jsstring :=
  [lit "exec"; lit "-m"; model; lit "--json"; lit "--full-auto"].

(** [spawn] checks its arguments before it starts anything: a model that
    holds a NUL character makes it throw.  The events of such a call begin
    with [SpawnThrows]. *)
Definition has_nul (s : jsstring) : bool := existsb (N.eqb 0) s.

(** Whether the call of [spawn] returns a child. *)
Definition spawn_returns (evs : list Event) : bool :=
  match evs with
  | SpawnThrows _ :: _ => false
  | _ => true
  end.

(** [executeCodex(prompt, model)]: [spawn] is called; when it returns, the
    handlers above are registered and the prompt is written to the child's
    stdin, and when it throws nothing is written; the run time then
    delivers [evs].  The result is the promise: [None] while it is
    pending. *)
Definition executeCodex (timeout : number) (evs : list Event)
           (prompt model : jsstring)
  : StExc (list Effect) (option Settlement) :=
  log (Spawn (lit "codex") (codex_args model)) ;;;
  (if spawn_returns evs then log (StdinWrite prompt) else ret tt) ;;;
  ret (settlement timeout evs).

(** The events that can end an invocation: the four that the timer or a
    handler answers, and the throw of [spawn]. *)
Definition terminal (ev : Event) : bool :=
  match ev with
  | Timeout | Close _ | SpawnError _ | StdinError _ | SpawnThrows _ => true
  | StdoutData _ | StderrData _ => false
  end.

(** What the data events of a trace have written to either buffer. *)
Definition stdout_of (evs : list Event) : jsstring :=
  flat_map (fun ev => match ev with StdoutData c => c | _ => [] end) evs.

Definition stderr_of (evs : list Event) : jsstring :=
  flat_map (fun ev => match ev with StderrData c => c | _ => [] end) evs.

(** *** The world outside the module *)

(** What [statSync] returns, as far as it is read. *)
Record Stats : Type := {
  isFile : bool;
  size : number
}.

(** [path.resolve], [fs.statSync] and [fs.readFileSync(_, 'utf-8')]; each
    may throw. *)
Record FileSystem : Type := {
  resolve : jsstring -> Exc jsstring;
  statSync : jsstring -> Exc Stats;
  readFileSync : jsstring -> Exc jsstring
}.

(** The result of [detectCodexCli()], with [error] and [installHint] as
    the template literal prints them. *)
Record Detection : Type := {
  available : bool;
  error : jsstring;
  installHint : jsstring
}.

(** The imports whose code is in other modules ([cli-detection.js],
    [prompt-injection.js]), the file system, and the events the child
    process of this request will deliver. *)
Record World : Type := {
  detectCodexCli : Detection;
  resolveSystemPrompt : jsstring -> option jsstring;
  buildPromptWithSystemContext :
    jsstring -> option jsstring -> option jsstring -> jsstring;
  fs : FileSystem;
  child_events : list Event
}.

(** *** validateAndReadFile *)

Definition file_header (shown : jsstring) : jsstring :=
  lit "--- File: " ++ shown ++ lit " ---".

Definition too_large_block (shown : jsstring) (sz : number) : jsstring :=
  file_header shown ++ lit " (File too large: "
  ++ toFixed1 (div_pow2 (div_pow2 sz 10) 10) ++ lit "MB, max 5MB)".

Definition validateAndReadFile (fsys : FileSystem) (filePath : Value)
  : StExc (list Effect) jsstring :=
  match filePath with
  | VString path =>
      try_catch
        (resolved <- lift (resolve fsys path) ;;
         log (FsStat resolved) ;;;
         stats <- lift (statSync fsys resolved) ;;
         if negb (isFile stats) then
           ret (file_header path ++ lit " (Not a regular file)")
         else if gtb (size stats) (of_int MAX_FILE_SIZE) then
           ret (too_large_block path (size stats))
         else
           log (FsRead resolved) ;;;
           content <- lift (readFileSync fsys resolved) ;;
           ret (file_header path ++ nl ++ content))
        (ret (file_header path ++ lit " (Error reading file)"))
  | _ =>
      shown <- lift (to_string filePath) ;;
      ret (file_header shown ++ lit " (Invalid path type)")
  end.

(** *** handleAskCodex *)

Record Args : Type := {
  prompt : jsstring;
  agent_role : jsstring;
  model : option jsstring;
  context_files : option (list Value)
}.

(** [{ content: [{ type: 'text', text }], isError }]; [isError] is [false]
    where the source leaves it out. *)
Record Response : Type := {
  text : jsstring;
  isError : bool
}.

Definition success (t : jsstring) : Response :=
  {| text := t; isError := false |}.
Definition failure (t : jsstring) : Response :=
  {| text := t; isError := true |}.

Definition valid_role (role : jsstring) : bool :=
  nonempty role && existsb (str_eqb role) CODEX_VALID_ROLES.

Definition invalid_role_text (role : jsstring) : jsstring :=
  lit "Invalid agent_role: " ++ dquote ++ role ++ dquote
  ++ lit ". Codex requires one of: " ++ join (lit ", ") CODEX_VALID_ROLES.

Definition unavailable_text (d : Detection) : jsstring :=
  lit "Codex CLI is not available: " ++ error d ++ nl ++ nl ++ installHint d.

Definition too_many_text (count : nat) : jsstring :=
  lit "Too many context files (max " ++ dec MAX_CONTEXT_FILES
  ++ lit ", got " ++ dec (Z.of_nat count) ++ lit ")".

(** The tail of the handler, from [buildPromptWithSystemContext] on.  The
    result is [None] while the promise of [executeCodex] stays pending. *)
Definition ask (env : Env) (w : World) (a : Args)
    (fileContext resolvedSystemPrompt : option jsstring)
  : StExc (list Effect) (option Response) :=
  let fullPrompt :=
    buildPromptWithSystemContext w (prompt a) fileContext resolvedSystemPrompt in
  let m := match model a with
           | Some m => m
           | None => CODEX_DEFAULT_MODEL env
           end in
  outcome <- executeCodex (CODEX_TIMEOUT env) (child_events w) fullPrompt m ;;
  ret (match outcome with
       | Some (Resolved response) => Some (success response)
       | Some (Rejected message) =>
           Some (failure (lit "Codex CLI error: " ++ message))
       | None => None
       end).

(** A thrown exception is the rejection of the returned promise. *)
Definition handleAskCodex (env : Env) (w : World) (a : Args)
  : StExc (list Effect) (option Response) :=
  if negb (valid_role (agent_role a)) then
    ret (Some (failure (invalid_role_text (agent_role a))))
  else
    log DetectCli ;;;
    let detection := detectCodexCli w in
    if negb (available detection) then
      ret (Some (failure (unavailable_text detection)))
    else
      log (ResolvePrompt (agent_role a)) ;;;
      let resolvedSystemPrompt := resolveSystemPrompt w (agent_role a) in
      match context_files a with
      | Some (f :: fl) =>
          let files := f :: fl in
          if (MAX_CONTEXT_FILES <? Z.of_nat (List.length files)) then
            ret (Some (failure (too_many_text (List.length files))))
          else
            blocks <- map_st (validateAndReadFile (fs w)) files ;;
            ask env w a (Some (join (nl ++ nl) blocks)) resolvedSystemPrompt
      | _ => ask env w a None resolvedSystemPrompt
      end.

End Codex.

(* ================================================================== *)
(** ** File sizes in MiB *)
(* ================================================================== *)

Module Sizes.

(** The size of [z] bytes in tenths of a MiB, rounded to the nearest tenth
    (upwards on a tie). *)
Definition tenths_of_MiB (z : Z) : Z := (20 * z + 2 ^ 20) / 2 ^ 21.

(** A number of tenths printed with one decimal place. *)
Definition one_decimal (t : Z) : jsstring :=
  dec_nat (t / 10) ++ lit "." ++ dec_nat (t mod 10).

End Sizes.

(* ================================================================== *)
(** ** The output parser, stated without the loop *)
(* ================================================================== *)

(** What the loops of [parseCodexOutput] leave in [messages], as a function
    of the decoded events.  [Fragments.collect_fragments] below proves that
    this is what the code computes. *)
Module Fragments.
Import Number Json Codex.

(** [v.k], for a [v] that is neither [null] nor [undefined]. *)
Definition prop (v : Value) (k : jsstring) : Value :=
  match get v k with
  | Ok x => x
  | Throw _ => VUndefined
  end.

(** A part contributes its [text] when it is tagged ['text'] and the text
    is truthy. *)
Definition part_fragments (part : Value) : list Value :=
  if strict_eq_str (prop part (lit "type")) (lit "text")
     && truthy (prop part (lit "text"))
  then [prop part (lit "text")] else [].

(** The parts of an array content in order; a [null] part ends the line
    (reading its [type] throws into the [catch]). *)
Fixpoint parts_fragments (parts : list Value) : list Value :=
  match parts with
  | [] => []
  | VNull :: _ | VUndefined :: _ => []
  | part :: rest => part_fragments part ++ parts_fragments rest
  end.

Definition message_fragments (event : Value) : list Value :=
  if strict_eq_str (prop event (lit "type")) (lit "message") then
    match prop event (lit "content") with
    | VString [] => []
    | VString s => [VString s]
    | VArray parts => parts_fragments parts
    | _ => []
    end
  else [].

Definition output_text_fragments (event : Value) : list Value :=
  if strict_eq_str (prop event (lit "type")) (lit "output_text")
     && truthy (prop event (lit "text"))
  then [prop event (lit "text")] else [].

Definition event_fragments (event : Value) : list Value :=
  match event with
  | VNull | VUndefined => []
  | _ => message_fragments event ++ output_text_fragments event
  end.

(** A line contributes the fragments of its event, and nothing when it
    does not decode. *)
Definition line_fragments (line : jsstring) : list Value :=
  match JSON_parse line with
  | Ok event => event_fragments event
  | Throw _ => []
  end.

Definition fragments (output : jsstring) : list Value :=
  flat_map line_fragments (output_lines output).

(** The last line of the function: the fragments joined by line feeds, or
    the raw output when that text is empty. *)
Definition finish (output : jsstring) (frags : list Value) : Exc jsstring :=
  exc_map (fun joined => if nonempty joined then joined else output)
          (join_values nl frags).

(** An object with an own member named toString: the values, among those
    that are no arrays, whose conversion to a string throws. *)
Definition has_own_toString (v : Value) : bool :=
  match v with
  | VObject props =>
      match lookup (lit "toString") props with
      | Some _ => true
      | None => false
      end
  | _ => false
  end.

Definition is_array (v : Value) : bool :=
  match v with VArray _ => true | _ => false end.

End Fragments.

(** The parser as the specification words it (section 4.5): split the text
    on line boundaries, discard blank lines, decode each remaining line and
    discard the ones that do not decode; capture a message event's string
    payload, the text of each part tagged as textual content, and an
    output-text event's text field; join the captured fragments by line
    feeds, and fall back to the raw text when the result is empty.  The
    lines are the ones the code splits ([output_lines]); what is captured
    from an event follows the words. *)
Module Stated.
Import Number Json Codex.

Definition text_of (props : list (jsstring * Value)) (k : jsstring)
  : list jsstring :=
  match lookup k props with
  | Some (VString s) => [s]
  | _ => []
  end.

Definition is_tagged (props : list (jsstring * Value)) (tag : jsstring) : bool :=
  match lookup (lit "type") props with
  | Some v => strict_eq_str v tag
  | None => false
  end.

Definition part_texts (part : Value) : list jsstring :=
  match part with
  | VObject props =>
      if is_tagged props (lit "text") then text_of props (lit "text") else []
  | _ => []
  end.

Definition captured (event : Value) : list jsstring :=
  match event with
  | VObject props =>
      if is_tagged props (lit "message") then
        match lookup (lit "content") props with
        | Some (VString s) => [s]
        | Some (VArray parts) => flat_map part_texts parts
        | _ => []
        end
      else if is_tagged props (lit "output_text") then
        text_of props (lit "text")
      else []
  | _ => []
  end.

Definition decoded_lines (output : jsstring) : list Value :=
  flat_map (fun line => match JSON_parse line with
                        | Ok event => [event]
                        | Throw _ => []
                        end)
           (output_lines output).

Definition parse_as_stated (output : jsstring) : jsstring :=
  let joined := join nl (flat_map captured (decoded_lines output)) in
  if nonempty joined then joined else output.

End Stated.

(* ================================================================== *)
(** ** Concrete inputs used in examples *)
(* ================================================================== *)

Module Samples.
Import Number Json Codex.

(** [{"k1":v1,"k2":v2}] as text. *)
Definition object2 (k1 : string) (v1 : jsstring) (k2 : string) (v2 : jsstring)
  : jsstring :=
  lit "{" ++ quoted k1 ++ lit ":" ++ v1 ++ lit "," ++ quoted k2 ++ lit ":"
  ++ v2 ++ lit "}".

Definition message_line (content : jsstring) : jsstring :=
  object2 "type" (quoted "message") "content" content.

Definition output_text_line (text : jsstring) : jsstring :=
  object2 "type" (quoted "output_text") "text" text.

(** [{"toString":0}]: an object whose conversion to a string throws. *)
Definition unprintable : jsstring := lit "{" ++ quoted "toString" ++ lit ":0}".

Definition unprintable_value : Value :=
  VObject [(lit "toString", VNumber (Fin 0 0))].

Definition no_env : Env :=
  {| OMC_CODEX_DEFAULT_MODEL := None; OMC_CODEX_TIMEOUT := None |}.

(** A file system with one directory, one small file, one readable file of
    6 MiB, one file that cannot be opened, and nothing else. *)
Definition sample_fs : FileSystem := {|
  resolve := fun p => Ok (lit "/work/" ++ p);
  statSync := fun p =>
    if str_eqb p (lit "/work/src") then
      Ok {| isFile := false; size := of_Z 4096 |}
    else if str_eqb p (lit "/work/a.txt") then
      Ok {| isFile := true; size := of_Z 5 |}
    else if str_eqb p (lit "/work/big.bin") then
      Ok {| isFile := true; size := of_Z (6 * 1024 * 1024) |}
    else if str_eqb p (lit "/work/secret") then
      Ok {| isFile := true; size := of_Z 12 |}
    else Throw (SystemError (lit "ENOENT"));
  readFileSync := fun p =>
    if str_eqb p (lit "/work/a.txt") then Ok (lit "hello")
    else if str_eqb p (lit "/work/big.bin") then
      Ok (repeat 120%N (Z.to_nat (6 * 1024 * 1024)))
    else Throw (SystemError (lit "EACCES"))
|}.

(** The same files when the working directory is gone: [path.resolve]
    itself throws. *)
Definition stale_fs : FileSystem := {|
  resolve := fun _ => Throw (SystemError (lit "ENOENT"));
  statSync := statSync sample_fs;
  readFileSync := readFileSync sample_fs
|}.

Definition sample_world (events : list Event) : World := {|
  detectCodexCli :=
    {| available := true; error := lit "undefined";
       installHint := lit "npm install -g @openai/codex" |};
  resolveSystemPrompt := fun role => Some (lit "You are the " ++ role);
  buildPromptWithSystemContext := fun p files sys =>
    match sys with Some s => s ++ nl ++ nl | None => [] end
    ++ match files with Some f => f ++ nl ++ nl | None => [] end
    ++ p;
  fs := sample_fs;
  child_events := events
|}.

(** Twenty-one context file paths. *)
Definition many_files : list Value :=
  repeat (VString (lit "a.txt")) 21.

(** The specification's example of two events. *)
Definition two_events : jsstring :=
  message_line (quoted "hi") ++ nl ++ output_text_line (quoted "there").

(** A message whose first part is [null] and whose second part is text. *)
Definition null_part_line : jsstring :=
  message_line (lit "[null," ++ object2 "type" (quoted "text") "text" (quoted "x")
                ++ lit "]").

(** An event with empty content between two events with text. *)
Definition empty_between : jsstring :=
  output_text_line (quoted "a") ++ nl
  ++ message_line (dquote ++ dquote) ++ nl
  ++ output_text_line (quoted "b").

Definition plain_text : jsstring :=
  lit "Thinking..." ++ nl ++ nl ++ lit "  the answer is { 42 }  " ++ nl.


(** The engine prints one event whose text is an object with a member
    named toString, and exits with code 0. *)
Definition unprintable_run : list Event :=
  [StdoutData (output_text_line unprintable); Close (Some 0)].

(** Lines that decode to something other than a message or output_text
    event. *)
Definition progress_events : jsstring :=
  object2 "type" (quoted "thread.started") "thread_id" (quoted "t1") ++ nl
  ++ lit "42" ++ nl
  ++ lit "null" ++ nl
  ++ object2 "kind" (quoted "message") "content" (quoted "hi").

(** A byte order mark and then one output_text event: the line as it
    stands does not parse, the trimmed line does. *)
Definition bom_event : jsstring :=
  65279%N :: output_text_line (quoted "a").


(** A request with the given role and context files. *)
Definition request (role : string) (files : list Value) : Args :=
  {| prompt := lit "Review this design";
     agent_role := lit role;
     model := None;
     context_files := Some files |}.

End Samples.

(** * An event stream as text

    The engine prints one JSON object per line, and other text between
    them.  [jsonl] writes a list of lines, its message and output_text
    events with every string as a JSON string literal; the parser facts
    below read such a stream back. *)

Module Stream.
Import Number Json Codex Samples.

Definition hex_digit (n : N) : char := (if n <? 10 then 48 + n else 87 + n)%N.

(** One character inside a string literal: a quotation mark or a reverse
    solidus behind a reverse solidus, a control character as a u-escape,
    every other character as it is. *)
Definition escape_char (c : char) : jsstring :=
  (if c =? 34 then [92; 34]
   else if c =? 92 then [92; 92]
   else if c <? 32 then
     [92; 117; 48; 48; hex_digit (c / 16); hex_digit (c mod 16)]
   else [c])%N.

Definition string_literal (s : jsstring) : jsstring :=
  dquote ++ flat_map escape_char s ++ dquote.

Inductive EngineEvent : Type :=
| OutputText (text : jsstring)          (* type output_text, a text *)
| MessageText (content : jsstring)      (* type message, a string content *)
| MessageParts (texts : list jsstring). (* type message, text parts *)

Definition text_part (t : jsstring) : jsstring :=
  object2 "type" (quoted "text") "text" (string_literal t).

Definition encode (e : EngineEvent) : jsstring :=
  match e with
  | OutputText t => output_text_line (string_literal t)
  | MessageText t => message_line (string_literal t)
  | MessageParts ts =>
      message_line (lit "[" ++ join (lit ",") (List.map text_part ts) ++ lit "]")
  end.

(** A line of the stream: an event, or any other text the engine prints
    between events. *)
Inductive Line : Type :=
| Printed (e : EngineEvent)
| Other (text : jsstring).

Definition line_text (l : Line) : jsstring :=
  match l with
  | Printed e => encode e
  | Other text => text
  end.

Definition jsonl (lines : list Line) : jsstring :=
  join nl (List.map line_text lines).

(** The values the lines stand for. *)
Definition part_value (t : jsstring) : Value :=
  VObject [(lit "type", VString (lit "text")); (lit "text", VString t)].

Definition value_of (e : EngineEvent) : Value :=
  match e with
  | OutputText t =>
      VObject [(lit "type", VString (lit "output_text")); (lit "text", VString t)]
  | MessageText t =>
      VObject [(lit "type", VString (lit "message")); (lit "content", VString t)]
  | MessageParts ts =>
      VObject [(lit "type", VString (lit "message"));
               (lit "content", VArray (List.map part_value ts))]
  end.

(** The non-empty texts an event carries. *)
Definition texts_of (e : EngineEvent) : list jsstring :=
  match e with
  | OutputText t | MessageText t => if nonempty t then [t] else []
  | MessageParts ts => filter nonempty ts
  end.

Definition no_nl (s : jsstring) : bool :=
  forallb (fun c => negb (c =? 10)%N) s.

(** The non-empty texts a line carries. *)
Definition line_texts (l : Line) : list jsstring :=
  match l with
  | Printed e => texts_of e
  | Other _ => []
  end.

(** A text that neither starts nor ends with white space (and so is not
    empty). *)
Definition trimmed (s : jsstring) : bool :=
  negb (is_white_space (hd 32%N s)) && negb (is_white_space (last s 32%N)).

End Stream.

(** * What the configuration and the handler are expected to compute *)

Module Expected.
Import Number Json Codex.

(** The timeout for an integer read from the environment: 0 falls through
    to the default, every other integer is clamped. *)
Definition clamp_value (z : Z) : Z :=
  if z =? 0 then 180000 else Z.min (Z.max 5000 z) 600000.

(** An optional sign in front of the digits. *)
Inductive Sign : Type := NoSign | Plus | Minus.

Definition sign_text (sg : Sign) : jsstring :=
  match sg with
  | NoSign => []
  | Plus => lit "+"
  | Minus => lit "-"
  end.

Definition signed (sg : Sign) (z : Z) : Z :=
  match sg with
  | Minus => - z
  | _ => z
  end.

(** The block of one context file and the file system calls made for it,
    from an empty log. *)
Definition block_of (fsys : FileSystem) (path : jsstring) : jsstring :=
  match fst (validateAndReadFile fsys (VString path) []) with
  | Ok block => block
  | Throw _ => []
  end.

Definition calls_of (fsys : FileSystem) (path : jsstring) : list Effect :=
  snd (validateAndReadFile fsys (VString path) []).

(** The file context of a request: absent without files, else the blocks
    with an empty line between them. *)
Definition context_of (fsys : FileSystem) (paths : list jsstring)
  : option jsstring :=
  match paths with
  | [] => None
  | _ => Some (join (nl ++ nl) (List.map (block_of fsys) paths))
  end.

(** The model the engine is asked for. *)
Definition model_of (env : Env) (a : Args) : jsstring :=
  match model a with
  | Some m => m
  | None => CODEX_DEFAULT_MODEL env
  end.

(** The response for an outcome of the promise of [executeCodex]. *)
Definition response_of (outcome : option Settlement) : option Response :=
  match outcome with
  | Some (Resolved response) => Some (success response)
  | Some (Rejected message) =>
      Some (failure (lit "Codex CLI error: " ++ message))
  | None => None
  end.

(** The calls [validateAndReadFile] can make. *)
Definition file_call (e : Effect) : bool :=
  match e with
  | FsStat _ | FsRead _ => true
  | _ => false
  end.

(** The number of context files of a request. *)
Definition file_count (a : Args) : nat :=
  match context_files a with
  | Some files => List.length files
  | None => 0
  end.

End Expected.

(* ================================================================== *)
(** * Properties *)
(* ================================================================== *)

(** ** Numbers *)

Module NumberFacts.
Import Number.

Lemma cmp_fin_int (a b : Z) : cmp_fin a 0 b 0 = (a ?= b).
Proof.
  unfold cmp_fin. rewrite Z.min_id, Z.sub_diag. simpl (2 ^ 0).
  now rewrite !Z.mul_1_r.
Qed.

Lemma pow2_pos (k : Z) : 0 <= k -> 0 < 2 ^ k.
Proof. intros. apply Z.pow_pos_nonneg; lia. Qed.

(** Rounding an integer from [2^53] on gives Infinity or a significand of
    at least [2^52] at an exponent of at least 1. *)
Lemma round_pos_large (z : Z) :
  2 ^ 53 <= z ->
  round_pos z 1 = Inf false \/
  exists m q, round_pos z 1 = Fin m q /\ 1 <= q /\ 2 ^ 52 <= m.
Proof.
  intros Hz.
  assert (Hpos : 0 < z) by (pose proof (pow2_pos 53); lia).
  assert (Hlog : 53 <= Z.log2 z).
  { rewrite <- (Z.log2_pow2 53) by lia. apply Z.log2_le_mono. exact Hz. }
  destruct (Z.log2_spec z Hpos) as [Hlo _].
  unfold round_pos.
  change (Z.log2 1) with 0. rewrite Z.sub_0_r.
  set (b0 := Z.log2 z) in *.
  assert (Hge : ge_pow2 z 1 b0 = true).
  { unfold ge_pow2. replace (0 <=? b0) with true by (symmetry; apply Z.leb_le; lia).
    apply Z.leb_le. lia. }
  rewrite Hge.
  replace (Z.max (b0 - 52) (-1074)) with (b0 - 52) by lia.
  set (q := b0 - 52).
  assert (Hq : 1 <= q) by (unfold q; lia).
  replace (q <? 0) with false by (symmetry; apply Z.ltb_ge; lia).
  rewrite Z.mul_1_l.
  assert (Hd : 0 < 2 ^ q) by (apply pow2_pos; lia).
  assert (Hm : 2 ^ 52 <= z / 2 ^ q).
  { apply Z.div_le_lower_bound; [exact Hd|].
    rewrite <- Z.pow_add_r by lia.
    replace (q + 52) with b0 by (unfold q; lia). exact Hlo. }
  set (lo := z / 2 ^ q) in *.
  set (m := match 2 * (z mod 2 ^ q) ?= 2 ^ q with
            | Eq => if Z.even lo then lo else lo + 1
            | Lt => lo
            | Gt => lo + 1
            end).
  assert (Hm' : 2 ^ 52 <= m).
  { unfold m. destruct (2 * (z mod 2 ^ q) ?= 2 ^ q); [destruct (Z.even lo)| |]; lia. }
  destruct ((971 <? q) || ((q =? 971) && (m =? 2 ^ 53))).
  - now left.
  - right. exists m, q. auto.
Qed.

(** A significand of at least [2^52] at a positive exponent is above every
    integer below [2^53]. *)
Lemma cmp_small_large (a m q : Z) :
  a < 2 ^ 53 -> 1 <= q -> 2 ^ 52 <= m -> cmp_fin a 0 m q = Lt.
Proof.
  intros Ha Hq Hm. unfold cmp_fin.
  replace (Z.min 0 q) with 0 by lia.
  rewrite Z.sub_diag, Z.sub_0_r. simpl (2 ^ 0). rewrite Z.mul_1_r.
  apply Z.compare_lt_iff.
  assert (2 ^ 1 <= 2 ^ q) by (apply Z.pow_le_mono_r; lia).
  assert (0 < 2 ^ 52) by (apply pow2_pos; lia).
  change (2 ^ 1) with 2 in *.
  assert (2 ^ 52 * 2 <= m * 2 ^ q) by (apply Z.mul_le_mono_nonneg; lia).
  change (2 ^ 53) with (2 ^ 52 * 2) in Ha. lia.
Qed.

Lemma cmp_large_small (a m q : Z) :
  - 2 ^ 53 < a -> 1 <= q -> 2 ^ 52 <= m -> cmp_fin a 0 (- m) q = Gt.
Proof.
  intros Ha Hq Hm. unfold cmp_fin.
  replace (Z.min 0 q) with 0 by lia.
  rewrite Z.sub_diag, Z.sub_0_r. simpl (2 ^ 0). rewrite Z.mul_1_r.
  apply Z.compare_gt_iff.
  assert (2 ^ 1 <= 2 ^ q) by (apply Z.pow_le_mono_r; lia).
  assert (0 < 2 ^ 52) by (apply pow2_pos; lia).
  change (2 ^ 1) with 2 in *.
  assert (2 ^ 52 * 2 <= m * 2 ^ q) by (apply Z.mul_le_mono_nonneg; lia).
  change (2 ^ 53) with (2 ^ 52 * 2) in Ha. lia.
Qed.

(** [Math.min(Math.max(5000, x || 180000), 600000)] is an integer between
    5000 and 600000 for the Number value [x] of any integer. *)
Lemma clamp_of_Z (z : Z) :
  exists k,
    min (max (of_int 5000)
             (if truthy (of_Z z) then of_Z z else of_int 180000))
        (of_int 600000) = Fin k 0
    /\ 5000 <= k <= 600000.
Proof.
  unfold of_Z.
  destruct (Z.abs z <? 2 ^ 53) eqn:Hsmall.
  - (* exact integer *)
    cbn [truthy]. destruct (z =? 0) eqn:Hz0; cbn [negb].
    + exists 180000. split; [reflexivity | lia].
    + unfold max, of_int. cbn [compare]. rewrite cmp_fin_int.
      destruct (Z.compare_spec 5000 z) as [C1 | C1 | C1].
      * exists 5000. split; [reflexivity | lia].
      * unfold min. cbn [compare]. rewrite cmp_fin_int.
        destruct (Z.compare_spec z 600000) as [C2 | C2 | C2].
        -- exists z. split; [reflexivity | lia].
        -- exists z. split; [reflexivity | lia].
        -- exists 600000. split; [reflexivity | lia].
      * exists 5000. split; [reflexivity | lia].
  - (* rounded: at least 2^53 in magnitude *)
    apply Z.ltb_ge in Hsmall.
    assert (H53 : 0 < 2 ^ 53) by (apply pow2_pos; lia).
    unfold of_ratio.
    replace (z =? 0) with false by (symmetry; apply Z.eqb_neq; lia).
    destruct (z <? 0) eqn:Hneg.
    + apply Z.ltb_lt in Hneg.
      destruct (round_pos_large (- z)) as [E | (m & q & E & Hq & Hm)];
        [lia | rewrite E .. ].
      * exists 5000. split; [reflexivity | lia].
      * assert (0 < 2 ^ 52) by (apply pow2_pos; lia).
        cbn [neg truthy].
        replace (- m =? 0) with false by (symmetry; apply Z.eqb_neq; lia).
        cbn [negb]. unfold max, of_int. cbn [compare].
        rewrite cmp_large_small by (try assumption; lia).
        exists 5000. split; [reflexivity | lia].
    + apply Z.ltb_ge in Hneg.
      destruct (round_pos_large z) as [E | (m & q & E & Hq & Hm)];
        [lia | rewrite E .. ].
      * exists 600000. split; [reflexivity | lia].
      * assert (0 < 2 ^ 52) by (apply pow2_pos; lia).
        cbn [truthy].
        replace (m =? 0) with false by (symmetry; apply Z.eqb_neq; lia).
        cbn [negb]. unfold max, of_int. cbn [compare].
        rewrite cmp_small_large by (try assumption; lia).
        unfold min. cbn [compare].
        replace (cmp_fin m q 600000 0) with Gt.
        -- exists 600000. split; [reflexivity | lia].
        -- symmetry. unfold cmp_fin.
           replace (Z.min q 0) with 0 by lia.
           rewrite Z.sub_diag, Z.sub_0_r. simpl (2 ^ 0). rewrite Z.mul_1_r.
           apply Z.compare_gt_iff.
           assert (2 ^ 1 <= 2 ^ q) by (apply Z.pow_le_mono_r; lia).
           change (2 ^ 1) with 2 in *.
           assert (2 ^ 52 * 2 <= m * 2 ^ q) by (apply Z.mul_le_mono_nonneg; lia).
           assert (600000 < 2 ^ 52 * 2) by (vm_compute; reflexivity).
           lia.
Qed.

(** The rendering of some Numbers, as a JavaScript engine prints them. *)
Example Number_to_string_examples :
  let show m e := to_string (of_decimal m e) in
  show 1 (-1) = lit "0.1"
  /\ show 100 0 = lit "100"
  /\ show 180000 0 = lit "180000"
  /\ show 15 (-1) = lit "1.5"
  /\ show (-25) (-2) = lit "-0.25"
  /\ show 123456 (-10) = lit "0.0000123456"
  /\ show 1 (-7) = lit "1e-7"
  /\ show 1 21 = lit "1e+21"
  /\ show 1 23 = lit "1e+23"
  /\ show 123456789012345678901 0 = lit "123456789012345680000"
  /\ show 9007199254740993 0 = lit "9007199254740992"
  /\ show 5 (-324) = lit "5e-324"
  /\ show 1 (-400) = lit "0"
  /\ show 17976931348623157 292 = lit "1.7976931348623157e+308"
  /\ show 18 307 = lit "Infinity".
Proof. vm_compute. repeat split. Qed.

Example toFixed1_examples :
  toFixed1 (of_decimal 25 (-2)) = lit "0.3"
  /\ toFixed1 (of_decimal 5 (-2)) = lit "0.1"
  /\ toFixed1 (of_decimal 1 21) = lit "1e+21"
  /\ toFixed1 (div_pow2 (div_pow2 (of_Z 5300000) 10) 10) = lit "5.1".
Proof. vm_compute. repeat split. Qed.

End NumberFacts.

(** ** JSON.parse *)

Module JsonFacts.
Import Number Json.

Lemma skip_ws_length (s : jsstring) :
  (List.length (skip_ws s) <= List.length s)%nat.
Proof.
  induction s as [|c r IH]; simpl; [lia|].
  destruct (is_json_ws c); simpl; lia.
Qed.

Lemma uncons_if_length (p : char -> bool) (s r : jsstring) :
  uncons_if p s = Some r -> List.length s = S (List.length r).
Proof.
  destruct s as [|c s']; simpl; [discriminate|].
  destruct (p c); [|discriminate]. now intros [= ->].
Qed.

Lemma eat_length (c : char) (s r : jsstring) :
  eat c s = Some r -> List.length s = S (List.length r).
Proof. apply uncons_if_length. Qed.

Lemma eat_skip_length (c : char) (s r : jsstring) :
  eat c (skip_ws s) = Some r -> (List.length r < List.length s)%nat.
Proof.
  intros H. apply eat_length in H. pose proof (skip_ws_length s). lia.
Qed.

Lemma strip_prefix_length (p s r : jsstring) :
  strip_prefix p s = Some r -> (List.length r <= List.length s)%nat.
Proof.
  revert s. induction p as [|c p IH]; simpl; intros s.
  - now intros [= ->].
  - destruct (eat c s) as [r'|] eqn:E; [|discriminate].
    intros H. apply IH in H. apply eat_length in E. lia.
Qed.

Lemma pcons_inv (c : char) (k : presult jsstring) (cs r : jsstring) :
  pcons c k = POk cs r -> exists cs', k = POk cs' r.
Proof. destruct k; simpl; [|discriminate ..]. intros [= _ <-]. eauto. Qed.

Lemma pcons_fuel (c : char) (k : presult jsstring) :
  pcons c k = PFuel -> k = PFuel.
Proof. destruct k; simpl; congruence. Qed.

(** A string literal always ends or fails, and consumes its closing
    quote. *)
Lemma parse_chars_spec (n : nat) :
  forall s, (List.length s <= n)%nat ->
    parse_chars s <> PFuel /\
    forall cs r, parse_chars s = POk cs r ->
                 (List.length r < List.length s)%nat.
Proof.
  induction n as [|n IH]; intros s Hn.
  - destruct s; [|simpl in Hn; lia]. simpl. split; [discriminate|discriminate].
  - destruct s as [|c r]; [simpl; split; discriminate|].
    simpl in Hn. simpl parse_chars.
    destruct (c =? 34)%N.
    { split; [discriminate|]. intros cs r0 [= _ <-]. simpl. lia. }
    destruct (c =? 92)%N.
    { destruct r as [|e r']; [split; discriminate|].
      simpl in Hn.
      destruct (e =? 117)%N.
      - destruct r' as [|h1 [|h2 [|h3 [|h4 r'']]]]; try (split; discriminate).
        destruct (hex4 h1 h2 h3 h4); [|split; discriminate].
        destruct (IH r'') as [F L]; [simpl in Hn; lia|].
        split.
        + intros H. apply pcons_fuel in H. contradiction.
        + intros cs r0 H. apply pcons_inv in H as [cs' H].
          apply L in H. simpl. lia.
      - destruct (simple_escape e); [|split; discriminate].
        destruct (IH r') as [F L]; [lia|].
        split.
        + intros H. apply pcons_fuel in H. contradiction.
        + intros cs r0 H. apply pcons_inv in H as [cs' H].
          apply L in H. simpl. lia. }
    destruct (c <? 32)%N; [split; discriminate|].
    destruct (IH r) as [F L]; [lia|].
    split.
    + intros H. apply pcons_fuel in H. contradiction.
    + intros cs r0 H. apply pcons_inv in H as [cs' H].
      apply L in H. simpl. lia.
Qed.

Lemma parse_chars_fuel (s : jsstring) : parse_chars s <> PFuel.
Proof. apply (parse_chars_spec (List.length s) s). lia. Qed.

Lemma parse_chars_length (s cs r : jsstring) :
  parse_chars s = POk cs r -> (List.length r < List.length s)%nat.
Proof. apply (parse_chars_spec (List.length s) s). lia. Qed.

Lemma span_digits_length (s ds r : jsstring) :
  span_digits s = (ds, r) -> (List.length r <= List.length s)%nat.
Proof.
  revert ds r. induction s as [|c s IH]; simpl; intros ds r.
  - intros [= _ <-]. simpl. lia.
  - destruct (is_digit c).
    + destruct (span_digits s) as [ds' r'] eqn:E. intros [= _ <-].
      specialize (IH _ _ eq_refl). lia.
    + intros [= _ <-]. simpl. lia.
Qed.

Lemma digits1_length (s ds r : jsstring) :
  digits1 s = Some (ds, r) -> (List.length r <= List.length s)%nat.
Proof.
  unfold digits1. destruct (span_digits s) as [[|d ds'] r'] eqn:E;
    [discriminate|]. intros [= _ <-]. eapply span_digits_length; eauto.
Qed.

Lemma int_part_length (s ds r : jsstring) :
  int_part s = Some (ds, r) -> (List.length r <= List.length s)%nat.
Proof.
  unfold int_part. destruct (eat 48%N s) as [r'|] eqn:E.
  - intros [= _ <-]. apply eat_length in E. lia.
  - apply digits1_length.
Qed.

Lemma frac_part_length (s ds r : jsstring) :
  frac_part s = Some (ds, r) -> (List.length r <= List.length s)%nat.
Proof.
  unfold frac_part. destruct (eat 46%N s) as [r'|] eqn:E.
  - intros H. apply digits1_length in H. apply eat_length in E. lia.
  - intros [= _ <-]. lia.
Qed.

Lemma exp_part_length (s r : jsstring) (ex : Z) :
  exp_part s = Some (ex, r) -> (List.length r <= List.length s)%nat.
Proof.
  unfold exp_part.
  destruct (uncons_if _ s) as [r0|] eqn:E; [|intros [= _ <-]; lia].
  apply uncons_if_length in E.
  destruct (eat 45%N r0) as [r1|] eqn:E1.
  - apply eat_length in E1.
    destruct (digits1 r1) as [[eds r']|] eqn:D; [|discriminate].
    intros [= _ <-]. apply digits1_length in D. lia.
  - destruct (eat 43%N r0) as [r1|] eqn:E2.
    + apply eat_length in E2.
      destruct (digits1 r1) as [[eds r']|] eqn:D; [|discriminate].
      intros [= _ <-]. apply digits1_length in D. lia.
    + destruct (digits1 r0) as [[eds r']|] eqn:D; [|discriminate].
      intros [= _ <-]. apply digits1_length in D. lia.
Qed.

Lemma parse_number_fuel (s : jsstring) : parse_number s <> PFuel.
Proof.
  unfold parse_number.
  destruct (match eat 45%N s with Some r => (true, r) | None => (false, s) end)
    as [negative s1].
  destruct (int_part s1) as [[ids s2]|]; [|discriminate].
  destruct (frac_part s2) as [[fds s3]|]; [|discriminate].
  destruct (exp_part s3) as [[ex s4]|]; discriminate.
Qed.

Lemma parse_number_length (s r : jsstring) (n : number) :
  parse_number s = POk n r -> (List.length r <= List.length s)%nat.
Proof.
  unfold parse_number.
  assert (H1 : forall b s1,
             match eat 45%N s with Some r => (true, r) | None => (false, s) end
             = (b, s1) -> (List.length s1 <= List.length s)%nat).
  { intros b s1. destruct (eat 45%N s) as [r'|] eqn:E; intros [= _ <-].
    - apply eat_length in E. lia.
    - lia. }
  destruct (match eat 45%N s with Some r => (true, r) | None => (false, s) end)
    as [negative s1].
  specialize (H1 _ _ eq_refl).
  destruct (int_part s1) as [[ids s2]|] eqn:I; [|discriminate].
  destruct (frac_part s2) as [[fds s3]|] eqn:F; [|discriminate].
  destruct (exp_part s3) as [[ex s4]|] eqn:X; [|discriminate].
  intros [= _ <-].
  apply int_part_length in I. apply frac_part_length in F.
  apply exp_part_length in X. lia.
Qed.

(** The three parsers leave no more than they were given. *)
Lemma parse_lengths (fuel : nat) :
  (forall s v r, parse_value fuel s = POk v r ->
                 (List.length r <= List.length s)%nat)
  /\ (forall s vs r, parse_elements fuel s = POk vs r ->
                     (List.length r <= List.length s)%nat)
  /\ (forall s ms r, parse_members fuel s = POk ms r ->
                     (List.length r <= List.length s)%nat).
Proof.
  induction fuel as [|f (IHv & IHe & IHm)].
  - repeat split; intros; discriminate.
  - repeat split.
    + intros s v r. cbn [parse_value parse_elements parse_members].
      pose proof (skip_ws_length s) as Hs.
      destruct (skip_ws s) as [|c r0] eqn:Es; [discriminate|]. simpl in Hs.
      destruct (c =? 123)%N.
      { destruct (eat 125%N (skip_ws r0)) as [r'|] eqn:E.
        - intros [= _ <-]. apply eat_skip_length in E. lia.
        - destruct (parse_members f r0) as [ms r'| |] eqn:M; try discriminate.
          intros [= _ <-]. apply IHm in M. lia. }
      destruct (c =? 91)%N.
      { destruct (eat 93%N (skip_ws r0)) as [r'|] eqn:E.
        - intros [= _ <-]. apply eat_skip_length in E. lia.
        - destruct (parse_elements f r0) as [vs r'| |] eqn:M; try discriminate.
          intros [= _ <-]. apply IHe in M. lia. }
      destruct (c =? 34)%N.
      { destruct (parse_chars r0) as [cs r'| |] eqn:M; try discriminate.
        intros [= _ <-]. apply parse_chars_length in M. lia. }
      destruct (strip_prefix (lit "true") (c :: r0)) as [r'|] eqn:T.
      { intros [= _ <-]. apply strip_prefix_length in T. simpl in T. lia. }
      destruct (strip_prefix (lit "false") (c :: r0)) as [r'|] eqn:F.
      { intros [= _ <-]. apply strip_prefix_length in F. simpl in F. lia. }
      destruct (strip_prefix (lit "null") (c :: r0)) as [r'|] eqn:N.
      { intros [= _ <-]. apply strip_prefix_length in N. simpl in N. lia. }
      destruct (parse_number (c :: r0)) as [n r'| |] eqn:M; try discriminate.
      intros [= _ <-]. apply parse_number_length in M. simpl in M. lia.
    + intros s vs r. cbn [parse_value parse_elements parse_members].
      destruct (parse_value f s) as [v r0| |] eqn:V; try discriminate.
      apply IHv in V.
      destruct (eat 44%N (skip_ws r0)) as [r'|] eqn:E.
      * destruct (parse_elements f r') as [vs' r''| |] eqn:M; try discriminate.
        intros [= _ <-]. apply IHe in M. apply eat_skip_length in E. lia.
      * destruct (eat 93%N (skip_ws r0)) as [r'|] eqn:E'; [|discriminate].
        intros [= _ <-]. apply eat_skip_length in E'. lia.
    + intros s ms r. cbn [parse_value parse_elements parse_members].
      destruct (eat 34%N (skip_ws s)) as [r0|] eqn:Q; [|discriminate].
      apply eat_skip_length in Q.
      destruct (parse_chars r0) as [k r1| |] eqn:K; try discriminate.
      apply parse_chars_length in K.
      destruct (eat 58%N (skip_ws r1)) as [r2|] eqn:C; [|discriminate].
      apply eat_skip_length in C.
      destruct (parse_value f r2) as [v r3| |] eqn:V; try discriminate.
      apply IHv in V.
      destruct (eat 44%N (skip_ws r3)) as [r4|] eqn:E.
      * destruct (parse_members f r4) as [ms' r5| |] eqn:M; try discriminate.
        intros [= _ <-]. apply IHm in M. apply eat_skip_length in E. lia.
      * destruct (eat 125%N (skip_ws r3)) as [r4|] eqn:E'; [|discriminate].
        intros [= _ <-]. apply eat_skip_length in E'. lia.
Qed.

(** Fuel of twice the length of the text (and two more) is never used
    up. *)
Lemma parse_enough_fuel (fuel : nat) :
  (forall s, (2 * List.length s + 1 <= fuel)%nat ->
             parse_value fuel s <> PFuel)
  /\ (forall s, (2 * List.length s + 2 <= fuel)%nat ->
                parse_elements fuel s <> PFuel)
  /\ (forall s, (2 * List.length s + 2 <= fuel)%nat ->
                parse_members fuel s <> PFuel).
Proof.
  induction fuel as [|f (IHv & IHe & IHm)].
  - repeat split; intros s H; lia.
  - destruct (parse_lengths f) as (Lv & Le & Lm).
    repeat split.
    + intros s H. cbn [parse_value parse_elements parse_members].
      pose proof (skip_ws_length s) as Hs.
      destruct (skip_ws s) as [|c r0] eqn:Es; [discriminate|]. simpl in Hs.
      destruct (c =? 123)%N.
      { destruct (eat 125%N (skip_ws r0)); [discriminate|].
        specialize (IHm r0).
        destruct (parse_members f r0); try discriminate.
        exfalso. apply IHm; [lia | reflexivity]. }
      destruct (c =? 91)%N.
      { destruct (eat 93%N (skip_ws r0)); [discriminate|].
        specialize (IHe r0).
        destruct (parse_elements f r0); try discriminate.
        exfalso. apply IHe; [lia | reflexivity]. }
      destruct (c =? 34)%N.
      { pose proof (parse_chars_fuel r0).
        destruct (parse_chars r0); try discriminate. contradiction. }
      destruct (strip_prefix (lit "true") (c :: r0)); [discriminate|].
      destruct (strip_prefix (lit "false") (c :: r0)); [discriminate|].
      destruct (strip_prefix (lit "null") (c :: r0)); [discriminate|].
      pose proof (parse_number_fuel (c :: r0)).
      destruct (parse_number (c :: r0)); try discriminate. contradiction.
    + intros s H. cbn [parse_value parse_elements parse_members].
      specialize (IHv s).
      destruct (parse_value f s) as [v r0| |] eqn:V; try discriminate;
        [|exfalso; apply IHv; [lia | reflexivity]].
      apply Lv in V.
      destruct (eat 44%N (skip_ws r0)) as [r'|] eqn:E.
      * apply eat_skip_length in E. specialize (IHe r').
        destruct (parse_elements f r'); try discriminate.
        exfalso. apply IHe; [lia | reflexivity].
      * destruct (eat 93%N (skip_ws r0)); discriminate.
    + intros s H. cbn [parse_value parse_elements parse_members].
      destruct (eat 34%N (skip_ws s)) as [r0|] eqn:Q; [|discriminate].
      apply eat_skip_length in Q.
      pose proof (parse_chars_fuel r0).
      destruct (parse_chars r0) as [k r1| |] eqn:K; try discriminate;
        [|contradiction].
      apply parse_chars_length in K.
      destruct (eat 58%N (skip_ws r1)) as [r2|] eqn:C; [|discriminate].
      apply eat_skip_length in C.
      specialize (IHv r2).
      destruct (parse_value f r2) as [v r3| |] eqn:V; try discriminate;
        [|exfalso; apply IHv; [lia | reflexivity]].
      apply Lv in V.
      destruct (eat 44%N (skip_ws r3)) as [r4|] eqn:E.
      * apply eat_skip_length in E. specialize (IHm r4).
        destruct (parse_members f r4); try discriminate.
        exfalso. apply IHm; [lia | reflexivity].
      * destruct (eat 125%N (skip_ws r3)); discriminate.
Qed.

Lemma JSON_parse_fuel_aux (text : jsstring) :
  parse_value (parse_fuel text) text <> PFuel.
Proof.
  apply (proj1 (parse_enough_fuel (parse_fuel text))).
  unfold parse_fuel. lia.
Qed.

(** One step of each of the three parsers. *)
Lemma parse_elements_S (f : nat) (s : jsstring) :
  parse_elements (S f) s =
  match parse_value f s with
  | POk v r =>
      match eat 44%N (skip_ws r) with
      | Some r' =>
          match parse_elements f r' with
          | POk vs r'' => POk (v :: vs) r''
          | PErr => PErr
          | PFuel => PFuel
          end
      | None =>
          match eat 93%N (skip_ws r) with
          | Some r' => POk [v] r'
          | None => PErr
          end
      end
  | PErr => PErr
  | PFuel => PFuel
  end.
Proof. reflexivity. Qed.

Lemma parse_members_S (f : nat) (s : jsstring) :
  parse_members (S f) s =
  match eat 34%N (skip_ws s) with
  | None => PErr
  | Some r =>
      match parse_chars r with
      | POk k r1 =>
          match eat 58%N (skip_ws r1) with
          | None => PErr
          | Some r2 =>
              match parse_value f r2 with
              | POk v r3 =>
                  match eat 44%N (skip_ws r3) with
                  | Some r4 =>
                      match parse_members f r4 with
                      | POk ms r5 => POk ((k, v) :: ms) r5
                      | PErr => PErr
                      | PFuel => PFuel
                      end
                  | None =>
                      match eat 125%N (skip_ws r3) with
                      | Some r4 => POk [(k, v)] r4
                      | None => PErr
                      end
                  end
              | PErr => PErr
              | PFuel => PFuel
              end
          end
      | PErr => PErr
      | PFuel => PFuel
      end
  end.
Proof. reflexivity. Qed.

Lemma parse_object_S (f : nat) (r : jsstring) :
  parse_value (S f) (123%N :: r) =
  match eat 125%N (skip_ws r) with
  | Some r' => POk (VObject []) r'
  | None =>
      match parse_members f r with
      | POk ms r' => POk (VObject ms) r'
      | PErr => PErr
      | PFuel => PFuel
      end
  end.
Proof. reflexivity. Qed.

Lemma parse_array_S (f : nat) (r : jsstring) :
  parse_value (S f) (91%N :: r) =
  match eat 93%N (skip_ws r) with
  | Some r' => POk (VArray []) r'
  | None =>
      match parse_elements f r with
      | POk vs r' => POk (VArray vs) r'
      | PErr => PErr
      | PFuel => PFuel
      end
  end.
Proof. reflexivity. Qed.

Lemma parse_string_S (f : nat) (r : jsstring) :
  parse_value (S f) (34%N :: r) =
  match parse_chars r with
  | POk cs r' => POk (VString cs) r'
  | PErr => PErr
  | PFuel => PFuel
  end.
Proof. reflexivity. Qed.

(** More fuel changes no result. *)
Lemma parse_fuel_step (fuel : nat) :
  (forall s, parse_value fuel s <> PFuel ->
             parse_value (S fuel) s = parse_value fuel s)
  /\ (forall s, parse_elements fuel s <> PFuel ->
                parse_elements (S fuel) s = parse_elements fuel s)
  /\ (forall s, parse_members fuel s <> PFuel ->
                parse_members (S fuel) s = parse_members fuel s).
Proof.
  induction fuel as [|f (IHv & IHe & IHm)].
  - repeat split; intros s H; exfalso; apply H; reflexivity.
  - split; [|split].
    + intros s. cbn [parse_value].
      destruct (skip_ws s) as [|c r0]; [reflexivity|].
      destruct (c =? 123)%N.
      { destruct (eat 125%N (skip_ws r0)); [reflexivity|].
        intros H. rewrite IHm; [reflexivity|].
        intros E. rewrite E in H. now apply H. }
      destruct (c =? 91)%N.
      { destruct (eat 93%N (skip_ws r0)); [reflexivity|].
        intros H. rewrite IHe; [reflexivity|].
        intros E. rewrite E in H. now apply H. }
      reflexivity.
    + intros s H. rewrite (parse_elements_S (S f)).
      rewrite (parse_elements_S f) in *.
      assert (V : parse_value f s <> PFuel)
        by (intros E; rewrite E in H; now apply H).
      rewrite (IHv s V).
      destruct (parse_value f s) as [v r0| |]; try reflexivity.
      destruct (eat 44%N (skip_ws r0)) as [r'|]; [|reflexivity].
      rewrite IHe; [reflexivity|].
      intros E. rewrite E in H. now apply H.
    + intros s H. rewrite (parse_members_S (S f)).
      rewrite (parse_members_S f) in *.
      destruct (eat 34%N (skip_ws s)) as [r0|]; [|reflexivity].
      destruct (parse_chars r0) as [k r1| |]; try reflexivity.
      destruct (eat 58%N (skip_ws r1)) as [r2|]; [|reflexivity].
      assert (V : parse_value f r2 <> PFuel)
        by (intros E; rewrite E in H; now apply H).
      rewrite (IHv r2 V).
      destruct (parse_value f r2) as [v r3| |]; try reflexivity.
      destruct (eat 44%N (skip_ws r3)) as [r4|]; [|reflexivity].
      rewrite IHm; [reflexivity|].
      intros E. rewrite E in H. now apply H.
Qed.

Lemma parse_value_more_fuel (fuel more : nat) (s : jsstring) :
  parse_value fuel s <> PFuel ->
  parse_value (more + fuel) s = parse_value fuel s.
Proof.
  intros H. induction more as [|m IH]; [reflexivity|].
  cbn [Nat.add]. rewrite <- IH.
  apply (proj1 (parse_fuel_step (m + fuel))). now rewrite IH.
Qed.

(** A text that parses with some amount of fuel is what [JSON.parse]
    returns. *)
Lemma JSON_parse_by_fuel (fuel : nat) (text : jsstring) (v : Value) :
  parse_value fuel text = POk v [] -> JSON_parse text = Ok v.
Proof.
  intros H. unfold JSON_parse.
  assert (E : parse_value (parse_fuel text) text = POk v []).
  { pose proof (parse_value_more_fuel fuel (parse_fuel text) text) as A.
    pose proof (parse_value_more_fuel (parse_fuel text) fuel text
                  (JSON_parse_fuel_aux text)) as B.
    rewrite H in A. rewrite Nat.add_comm in B.
    rewrite <- B. apply A. discriminate. }
  now rewrite E.
Qed.

(** [JSON_parse] never fails for want of fuel: its SyntaxError is a
    syntax error. *)
Lemma JSON_parse_fuel (text : jsstring) :
  parse_value (parse_fuel text) text <> PFuel.
Proof.
  apply (proj1 (parse_enough_fuel (parse_fuel text))).
  unfold parse_fuel. lia.
Qed.

(** Decimal digits read back as the number they print. *)
Lemma digits_fuel_val (fuel : nat) :
  forall (z : Z) (acc : jsstring),
    0 <= z < 10 ^ Z.of_nat fuel ->
    fold_left (fun a c => a * 10 + (Z.of_N c - 48)) (digits_fuel fuel z acc) 0
    = fold_left (fun a c => a * 10 + (Z.of_N c - 48)) acc z.
Proof.
  induction fuel as [|f IH]; intros z acc Hz.
  - simpl in Hz. replace z with 0 by lia. reflexivity.
  - cbn [digits_fuel].
    assert (D : Z.of_N (Z.to_N (48 + z mod 10)) - 48 = z mod 10).
    { pose proof (Z.mod_pos_bound z 10 ltac:(lia)). rewrite Z2N.id; lia. }
    destruct (z <? 10) eqn:L.
    + apply Z.ltb_lt in L. cbn [fold_left]. rewrite D.
      rewrite Z.mod_small by lia. reflexivity.
    + apply Z.ltb_ge in L. rewrite IH.
      * cbn [fold_left]. rewrite D. f_equal.
        pose proof (Z.div_mod z 10 ltac:(lia)). lia.
      * rewrite Nat2Z.inj_succ, Z.pow_succ_r in Hz by lia.
        split; [apply Z.div_pos; lia|].
        apply Z.div_lt_upper_bound; lia.
Qed.

Lemma dec_nat_val (z : Z) : 0 <= z -> digits_val (dec_nat z) = z.
Proof.
  intros Hz. unfold digits_val, dec_nat. rewrite digits_fuel_val; [reflexivity|].
  split; [exact Hz|].
  rewrite Nat2Z.inj_succ, Z2Nat.id by apply Z.log2_nonneg.
  destruct (Z.eq_dec z 0) as [-> | Hnz]; [reflexivity|].
  destruct (Z.log2_spec z ltac:(lia)) as [_ Hup].
  eapply Z.lt_le_trans; [exact Hup|].
  apply Z.pow_le_mono_l. pose proof (Z.log2_nonneg z). lia.
Qed.

Lemma dec_val (z : Z) : 0 <= z -> digits_val (dec z) = z.
Proof.
  intros Hz. unfold dec.
  replace (z <? 0) with false by (symmetry; apply Z.ltb_ge; lia).
  now apply dec_nat_val.
Qed.

(** Texts [JSON.parse] takes and texts it refuses. *)
Example JSON_parse_examples :
  JSON_parse (lit " [1, true, null, {}, [], " ++ quoted "a\u0041\n" ++ lit "] ")
  = Ok (VArray [VNumber (of_decimal 1 0); VBool true; VNull; VObject [];
                VArray []; VString [97; 65; 10]%N])
  /\ JSON_parse (lit "{" ++ quoted "k" ++ lit ":1," ++ quoted "k" ++ lit ":2}")
     = Ok (VObject [(lit "k", VNumber (of_decimal 1 0));
                    (lit "k", VNumber (of_decimal 2 0))])
  /\ get (VObject [(lit "k", VBool false); (lit "k", VBool true)]) (lit "k")
     = Ok (VBool true)
  /\ JSON_parse [] = Throw SyntaxError
  /\ JSON_parse (lit "[1,]") = Throw SyntaxError
  /\ JSON_parse (lit "01") = Throw SyntaxError
  /\ JSON_parse (lit "1.") = Throw SyntaxError
  /\ JSON_parse (lit "nul") = Throw SyntaxError
  /\ JSON_parse (lit "{} x") = Throw SyntaxError
  /\ JSON_parse (65279%N :: lit "{}") = Throw SyntaxError
  /\ JSON_parse (lit "Thinking...") = Throw SyntaxError.
Proof. vm_compute. repeat split. Qed.

(** String conversion of parsed values, as [Array.prototype.join] and
    template literals apply it. *)
Example Value_to_string_examples :
  exc_bind (JSON_parse (lit "[1,[2,[null,3]],{}," ++ quoted "x" ++ lit ",true]"))
           to_string
  = Ok (lit "1,2,,3,[object Object],x,true")
  /\ to_string (VArray []) = Ok []
  /\ exc_bind (JSON_parse (lit "{" ++ quoted "toString" ++ lit ":0}")) to_string
     = Throw TypeError.
Proof. vm_compute. repeat split. Qed.

End JsonFacts.

(** ** CODEX_TIMEOUT *)

Module TimeoutFacts.
Import Number Json Codex NumberFacts.

Lemma parseInt10_cases (s : jsstring) :
  parseInt10 s = NaN \/ exists z, parseInt10 s = of_Z z.
Proof.
  unfold parseInt10.
  destruct (match eat 45%N (trimStart s) with
            | Some r => (true, r)
            | None => match eat 43%N (trimStart s) with
                      | Some r => (false, r)
                      | None => (false, trimStart s)
                      end
            end) as [negative s1].
  destruct (digits1 s1) as [[ds rest]|].
  - right. eexists. reflexivity.
  - now left.
Qed.

(** C9.  Whatever the environment variable OMC_CODEX_TIMEOUT holds (unset,
    empty, not a number, negative, beyond every double), CODEX_TIMEOUT is an
    integer number of milliseconds in the closed interval from 5000 to
    600000; and with the variable unset it is exactly 180000. *)
Theorem CODEX_TIMEOUT_clamped :
  (forall env : Env,
      exists k, CODEX_TIMEOUT env = Fin k 0 /\ 5000 <= k <= 600000)
  /\ (forall m : option jsstring,
        CODEX_TIMEOUT {| OMC_CODEX_DEFAULT_MODEL := m;
                         OMC_CODEX_TIMEOUT := None |} = Fin 180000 0).
Proof.
  split.
  - intros env. unfold CODEX_TIMEOUT, num_or.
    destruct (parseInt10_cases
                (env_or (OMC_CODEX_TIMEOUT env) (lit "180000")))
      as [E | [z E]]; rewrite E.
    + exists 180000. split; [reflexivity | lia].
    + apply clamp_of_Z.
  - intros m. reflexivity.
Qed.

(** The same value is what the environment's own text says, when that text
    is a plain integer inside the interval. *)
Example CODEX_TIMEOUT_examples :
  let timeout_of (v : string) :=
    CODEX_TIMEOUT {| OMC_CODEX_DEFAULT_MODEL := None;
                     OMC_CODEX_TIMEOUT := Some (lit v) |} in
  timeout_of EmptyString = Fin 180000 0
  /\ timeout_of "30000"%string = Fin 30000 0
  /\ timeout_of "  7000.9"%string = Fin 7000 0
  /\ timeout_of "0"%string = Fin 180000 0
  /\ timeout_of "-7"%string = Fin 5000 0
  /\ timeout_of "soon"%string = Fin 180000 0
  /\ timeout_of "1e9"%string = Fin 5000 0
  /\ timeout_of "99999999999999999999999999"%string = Fin 600000 0.
Proof. vm_compute. repeat split. Qed.

End TimeoutFacts.

(** ** parseCodexOutput *)

Module ParserFacts.
Import Number Json Codex Fragments Samples.

Lemma bind_lift_ok {S A B} (a : A) (f : A -> StExc S B) (st : S) :
  bind (lift (Ok a)) f st = f a st.
Proof. reflexivity. Qed.

Lemma get_prop (v : Value) (k : jsstring) :
  v <> VNull -> v <> VUndefined -> get v k = Ok (prop v k).
Proof.
  unfold prop. destruct v; simpl; try reflexivity; try congruence.
  destruct (lookup k props); reflexivity.
Qed.

Lemma strict_eq_str_inv (v : Value) (s : jsstring) :
  strict_eq_str v s = true -> v = VString s.
Proof.
  destruct v; simpl; try discriminate. unfold str_eqb.
  destruct (list_eq_dec N.eq_dec s0 s); [now subst | discriminate].
Qed.

(** One part: a [null] part throws, any other part pushes its fragment. *)
Lemma scan_part_run (part : Value) (ms : list Value) :
  scan_part part ms =
  match part with
  | VNull | VUndefined => (Throw TypeError, ms)
  | _ => (Ok tt, ms ++ part_fragments part)
  end.
Proof.
  assert (H : part <> VNull -> part <> VUndefined ->
              scan_part part ms = (Ok tt, ms ++ part_fragments part)).
  { intros N U. unfold scan_part, part_fragments.
    rewrite !get_prop by assumption. rewrite bind_lift_ok.
    destruct (strict_eq_str (prop part (lit "type")) (lit "text")).
    - rewrite bind_lift_ok.
      destruct (truthy (prop part (lit "text"))); cbn [andb].
      + reflexivity.
      + unfold ret. now rewrite app_nil_r.
    - cbn [andb]. unfold ret. now rewrite app_nil_r. }
  destruct part; try (apply H; discriminate); reflexivity.
Qed.

Lemma scan_parts_run (parts : list Value) (ms : list Value) :
  snd (for_of parts scan_part ms) = ms ++ parts_fragments parts.
Proof.
  revert ms. induction parts as [|p rest IH]; intros ms.
  - simpl. now rewrite app_nil_r.
  - cbn [for_of]. unfold bind at 1. rewrite scan_part_run.
    destruct p; cbn [parts_fragments]; try (rewrite IH, app_assoc; reflexivity);
      simpl; now rewrite app_nil_r.
Qed.

Lemma message_not_output_text (v : Value) :
  strict_eq_str v (lit "message") = true ->
  strict_eq_str v (lit "output_text") = false.
Proof. intros H. apply strict_eq_str_inv in H. subst. reflexivity. Qed.

(** One event: [messages] grows by the fragments of the event, whether or
    not the statements run to their end. *)
Lemma scan_event_run (event : Value) (ms : list Value) :
  snd (scan_event event ms) = ms ++ event_fragments event.
Proof.
  assert (H : event <> VNull -> event <> VUndefined ->
              snd (scan_event event ms)
              = ms ++ message_fragments event ++ output_text_fragments event).
  { intros N U. unfold scan_event, message_fragments, output_text_fragments.
    rewrite !get_prop by assumption. rewrite bind_lift_ok.
    set (ty := prop event (lit "type")).
    set (content := prop event (lit "content")).
    set (text := prop event (lit "text")).
    assert (Tail : forall ms',
               snd ((ty' <- lift (Ok ty) ;;
                     if strict_eq_str ty' (lit "output_text") then
                       text0 <- lift (Ok text) ;;
                       if truthy text0
                       then update (fun messages => messages ++ [text0])
                       else ret tt
                     else ret tt)%st ms')
               = ms' ++ (if strict_eq_str ty (lit "output_text") && truthy text
                         then [text] else [])).
    { intros ms'. rewrite bind_lift_ok.
      destruct (strict_eq_str ty (lit "output_text")); cbn [andb].
      - rewrite bind_lift_ok. destruct (truthy text); simpl;
          [reflexivity | now rewrite app_nil_r].
      - simpl. now rewrite app_nil_r. }
    destruct (strict_eq_str ty (lit "message")) eqn:M.
    - assert (B : snd ((content0 <- lift (Ok content) ;;
                        if truthy content0 then
                          if is_string content0 then
                            update (fun messages => messages ++ [content0])
                          else
                            match content0 with
                            | VArray parts => for_of parts scan_part
                            | _ => ret tt
                            end
                        else ret tt)%st ms)
                  = ms ++ match content with
                          | VString [] => []
                          | VString s => [VString s]
                          | VArray parts => parts_fragments parts
                          | _ => []
                          end).
      { rewrite bind_lift_ok.
        destruct content as [| |b|n|s|parts|props]; cbn [truthy is_string].
        - simpl. now rewrite app_nil_r.
        - simpl. now rewrite app_nil_r.
        - destruct b; simpl; now rewrite app_nil_r.
        - destruct (Number.truthy n); simpl; now rewrite app_nil_r.
        - destruct s; simpl; [now rewrite app_nil_r | reflexivity].
        - apply scan_parts_run.
        - simpl. now rewrite app_nil_r. }
      rewrite (message_not_output_text _ M). cbn [andb].
      rewrite app_nil_r.
      unfold bind at 1.
      match goal with
      | |- snd (match ?blk with _ => _ end) = _ =>
          destruct blk as [[[]|e] ms'] eqn:R
      end; simpl in B; subst ms'.
      + rewrite Tail. rewrite (message_not_output_text _ M). cbn [andb].
        now rewrite app_nil_r.
      + reflexivity.
    - unfold bind at 1. unfold ret at 1. rewrite Tail. reflexivity. }
  destruct event; try (apply H; discriminate); simpl; now rewrite app_nil_r.
Qed.

(** One line: the [try] never lets an exception out, and [messages] grows
    by the fragments of the line. *)
Lemma scan_line_run (line : jsstring) (ms : list Value) :
  scan_line line ms = (Ok tt, ms ++ line_fragments line).
Proof.
  unfold scan_line, try_ignore, line_fragments.
  destruct (JSON_parse line) as [event|e] eqn:P.
  - rewrite bind_lift_ok.
    pose proof (scan_event_run event ms) as E.
    destruct (scan_event event ms) as [[[]|e] ms']; simpl in E; now subst.
  - simpl. now rewrite app_nil_r.
Qed.

Lemma scan_lines_run (lines : list jsstring) (ms : list Value) :
  for_of lines scan_line ms = (Ok tt, ms ++ flat_map line_fragments lines).
Proof.
  revert ms. induction lines as [|l rest IH]; intros ms.
  - simpl. unfold ret. now rewrite app_nil_r.
  - cbn [for_of flat_map]. unfold bind. rewrite scan_line_run, IH.
    now rewrite app_assoc.
Qed.

(** The loop computes the fragments. *)
Lemma collect_fragments (output : jsstring) :
  collect output = fragments output.
Proof. unfold collect, fragments. now rewrite scan_lines_run. Qed.

Lemma parseCodexOutput_finish (output : jsstring) :
  parseCodexOutput output = finish output (fragments output).
Proof. unfold parseCodexOutput, finish. now rewrite collect_fragments. Qed.

Lemma flat_map_nil {A B} (f : A -> list B) (l : list A) :
  (forall x, In x l -> f x = []) -> flat_map f l = [].
Proof.
  induction l as [|x r IH]; intros H; [reflexivity|].
  simpl. rewrite (H x) by now left. apply IH. intros y Hy. apply H. now right.
Qed.

Lemma finish_nil (output : jsstring) : finish output [] = Ok output.
Proof. reflexivity. Qed.

(** Every captured fragment is truthy: in particular no captured string is
    empty. *)
Lemma part_fragments_truthy (part : Value) :
  Forall (fun v => truthy v = true) (part_fragments part).
Proof.
  unfold part_fragments.
  destruct (strict_eq_str _ _); cbn [andb]; [|constructor].
  destruct (truthy (prop part (lit "text"))) eqn:T; repeat constructor; exact T.
Qed.

Lemma parts_fragments_truthy (parts : list Value) :
  Forall (fun v => truthy v = true) (parts_fragments parts).
Proof.
  induction parts as [|p r IH]; [constructor|].
  destruct p; cbn [parts_fragments]; try constructor;
    apply Forall_app; split; auto using part_fragments_truthy.
Qed.

Lemma event_fragments_truthy (event : Value) :
  Forall (fun v => truthy v = true) (event_fragments event).
Proof.
  assert (M : Forall (fun v => truthy v = true) (message_fragments event)).
  { unfold message_fragments. destruct (strict_eq_str _ _); [|constructor].
    destruct (prop event (lit "content")) as [| |b|n|s|parts|props];
      try constructor.
    - destruct s; repeat constructor.
    - apply parts_fragments_truthy. }
  assert (O : Forall (fun v => truthy v = true) (output_text_fragments event)).
  { unfold output_text_fragments.
    destruct (strict_eq_str _ _); cbn [andb]; [|constructor].
    destruct (truthy (prop event (lit "text"))) eqn:T; repeat constructor.
    exact T. }
  destruct event; cbn [event_fragments]; try constructor;
    apply Forall_app; split; assumption.
Qed.

Lemma fragments_truthy (output : jsstring) :
  Forall (fun v => truthy v = true) (fragments output).
Proof.
  unfold fragments. induction (output_lines output) as [|l r IH];
    [constructor|].
  simpl. apply Forall_app. split; [|exact IH].
  unfold line_fragments. destruct (JSON_parse l); [|constructor].
  apply event_fragments_truthy.
Qed.

Lemma join_values_strings (sep : jsstring) (strs : list jsstring) :
  Forall (fun s => nonempty s = true) strs ->
  join_values sep (List.map VString strs) = Ok (join sep strs).
Proof.
  unfold join_values. intros H.
  assert (E : items_to_strings (List.map VString strs) = Ok strs).
  { induction H as [|s r Hs Hr IH]; [reflexivity|].
    simpl. rewrite IH. reflexivity. }
  now rewrite E.
Qed.

Lemma join_nonempty (sep : jsstring) (strs : list jsstring) :
  strs <> [] -> Forall (fun s => nonempty s = true) strs ->
  nonempty (join sep strs) = true.
Proof.
  intros N H. destruct H as [|s r Hs Hr]; [congruence|].
  destruct s as [|c s]; [discriminate|].
  destruct r; reflexivity.
Qed.

(** When every captured fragment is a string (what the engine's protocol
    sends), the result is those strings joined by line feeds, in
    order. *)
Lemma parseCodexOutput_strings (output : jsstring) (strs : list jsstring) :
  fragments output = List.map VString strs -> strs <> [] ->
  parseCodexOutput output = Ok (join nl strs).
Proof.
  intros F N. rewrite parseCodexOutput_finish, F. unfold finish.
  pose proof (fragments_truthy output) as T. rewrite F in T.
  assert (S : Forall (fun s => nonempty s = true) strs).
  { clear -T. induction strs as [|s r IH]; [constructor|].
    inversion T; subst. constructor; auto. }
  rewrite join_values_strings by exact S. simpl.
  now rewrite join_nonempty.
Qed.

(** The fragments of an event, case by case. *)
Lemma event_fragments_message_string (event : Value) (s : jsstring) :
  prop event (lit "type") = VString (lit "message") ->
  prop event (lit "content") = VString s ->
  event_fragments event = if nonempty s then [VString s] else [].
Proof.
  intros T C.
  destruct event; try discriminate; cbn [event_fragments];
    unfold message_fragments, output_text_fragments; rewrite T, C;
    destruct s; reflexivity.
Qed.

Lemma event_fragments_message_parts (event : Value) (parts : list Value) :
  prop event (lit "type") = VString (lit "message") ->
  prop event (lit "content") = VArray parts ->
  event_fragments event = parts_fragments parts.
Proof.
  intros T C.
  destruct event; try discriminate; cbn [event_fragments];
    unfold message_fragments, output_text_fragments; rewrite T, C;
    cbn [strict_eq_str]; change (str_eqb (lit "message") (lit "message")) with true;
    change (str_eqb (lit "message") (lit "output_text")) with false;
    cbn [andb]; now rewrite app_nil_r.
Qed.

Lemma event_fragments_output_text (event : Value) :
  prop event (lit "type") = VString (lit "output_text") ->
  event_fragments event
  = if truthy (prop event (lit "text")) then [prop event (lit "text")] else [].
Proof.
  intros T.
  destruct event; try discriminate; cbn [event_fragments];
    unfold message_fragments, output_text_fragments; rewrite T;
    reflexivity.
Qed.

Lemma event_fragments_other (event : Value) :
  strict_eq_str (prop event (lit "type")) (lit "message") = false ->
  strict_eq_str (prop event (lit "type")) (lit "output_text") = false ->
  event_fragments event = [].
Proof.
  intros M O.
  destruct event; try reflexivity; cbn [event_fragments];
    unfold message_fragments, output_text_fragments; rewrite M, O;
    reflexivity.
Qed.

(** Among parts that are all objects no part ends the line. *)
Lemma parts_fragments_objects (parts : list Value) :
  Forall (fun p => exists props, p = VObject props) parts ->
  parts_fragments parts = flat_map part_fragments parts.
Proof.
  induction 1 as [|p rest [props ->] _ IH]; [reflexivity|].
  cbn [parts_fragments flat_map]. now rewrite IH.
Qed.

(** C5, as stated, fails.  With a message event of empty string content
    between two output_text events a and b, capturing each event's string
    and joining the captured fragments by line feeds gives a, an empty
    line, b; [parseCodexOutput] skips the empty content and returns a and b
    on two lines.  And a message whose parts are [null] and a text part x
    has a type-'text' part, and yet nothing is captured: reading the type
    of the [null] part throws into the [catch], and the raw input comes
    back. *)
Lemma parseCodexOutput_not_as_stated :
  (parseCodexOutput empty_between = Ok (lit "a" ++ nl ++ lit "b")
   /\ Stated.parse_as_stated empty_between = lit "a" ++ nl ++ nl ++ lit "b")
  /\ (parseCodexOutput null_part_line = Ok null_part_line
      /\ Stated.parse_as_stated null_part_line = lit "x")
  /\ parseCodexOutput empty_between
     <> Ok (Stated.parse_as_stated empty_between).
Proof.
  assert (A : parseCodexOutput empty_between = Ok (lit "a" ++ nl ++ lit "b"))
    by (vm_compute; reflexivity).
  assert (B : Stated.parse_as_stated empty_between
              = lit "a" ++ nl ++ nl ++ lit "b")
    by (vm_compute; reflexivity).
  split; [split; [exact A | exact B]|].
  split; [split; vm_compute; reflexivity|].
  rewrite A, B. vm_compute. discriminate.
Qed.

(** C5, amended.  [parseCodexOutput] splits its trimmed input at line
    feeds, discards blank lines and decodes each remaining line as JSON,
    discarding the lines that do not decode; it captures a message event's
    non-empty string content, the truthy text of each type-'text' part of
    an array content in order (up to a null part, which ends the line), and
    an output_text event's truthy text field; the result is the captured
    fragments joined by line feeds in encounter order, or the raw input
    when that text is empty.  The two-event example yields hi and there on
    two lines. *)
Theorem parseCodexOutput_fragments :
  (forall output : jsstring,
      parseCodexOutput output
      = finish output
          (flat_map line_fragments
             (filter (fun l => nonempty (trim l)) (split_nl (trim output)))))
  /\ parseCodexOutput two_events = Ok (lit "hi" ++ nl ++ lit "there").
Proof.
  split.
  - intros output. apply parseCodexOutput_finish.
  - vm_compute. reflexivity.
Qed.

(** C6, as stated, fails.  The input that is a byte order mark followed
    by one output_text event has a single line, and that line does not
    decode as JSON; yet the function trims the input first, the trimmed
    line decodes, and the result is the text of the event, not the
    input. *)
Lemma parseCodexOutput_plain_text_not_as_stated :
  (forall line, In line (split_nl bom_event) ->
                JSON_parse line = Throw SyntaxError)
  /\ parseCodexOutput bom_event = Ok (lit "a")
  /\ parseCodexOutput bom_event <> Ok bom_event.
Proof.
  split; [|split].
  - intros line Hin. vm_compute in Hin. destruct Hin as [<- | []].
    vm_compute. reflexivity.
  - vm_compute. reflexivity.
  - vm_compute. discriminate.
Qed.

(** C6, amended.  The lines are those of the trimmed input.  When none of
    the non-blank lines of [output.trim()] decodes as JSON, the result is
    the input itself, unchanged and untrimmed, so that an input that is not
    empty never gives the empty string.  For an input without white space
    at either end these are the lines of the input itself. *)
Theorem parseCodexOutput_plain_text (output : jsstring) :
  ((forall line, In line (split_nl (trim output)) ->
                 nonempty (trim line) = true ->
                 JSON_parse line = Throw SyntaxError) ->
   parseCodexOutput output = Ok output
   /\ (output <> [] -> parseCodexOutput output <> Ok []))
  /\ (trim output = output ->
      (forall line, In line (split_nl output) ->
                    nonempty (trim line) = true ->
                    JSON_parse line = Throw SyntaxError) ->
      parseCodexOutput output = Ok output).
Proof.
  assert (P : (forall line, In line (split_nl (trim output)) ->
                            nonempty (trim line) = true ->
                            JSON_parse line = Throw SyntaxError) ->
              parseCodexOutput output = Ok output).
  { intros H. rewrite parseCodexOutput_finish. unfold fragments.
    rewrite flat_map_nil; [reflexivity|].
    intros line Hin. unfold output_lines in Hin.
    apply filter_In in Hin as [Hin Hblank].
    unfold line_fragments. now rewrite (H line Hin Hblank). }
  split.
  - intros H. split; [now apply P|].
    intros N E. rewrite (P H) in E. injection E as E. contradiction.
  - intros T H. apply P. now rewrite T.
Qed.

Lemma parseCodexOutput_plain_text_witness :
  parseCodexOutput plain_text = Ok plain_text
  /\ parseCodexOutput (lit "no {json} here") = Ok (lit "no {json} here").
Proof.
  split.
  - apply (proj1 (parseCodexOutput_plain_text plain_text)).
    intros line Hin _. vm_compute in Hin.
    destruct Hin as [<- | [<- | [<- | []]]]; vm_compute; reflexivity.
  - apply (proj2 (parseCodexOutput_plain_text (lit "no {json} here"))).
    + vm_compute. reflexivity.
    + intros line Hin _. vm_compute in Hin. destruct Hin as [<- | []].
      vm_compute. reflexivity.
Defined.

End ParserFacts.

(** ** executeCodex *)

Module ExecuteFacts.
Import Number Json Codex Fragments Samples.

Lemma run_app (timeout : number) (st : State) (a b : list Event) :
  run timeout st (a ++ b) = run timeout (run timeout st a) b.
Proof. apply fold_left_app. Qed.

Lemma run_cons (timeout : number) (st : State) (ev : Event) (evs : list Event) :
  run timeout st (ev :: evs) = run timeout (step timeout st ev) evs.
Proof. reflexivity. Qed.

(** The calls [executeCodex] itself makes: the spawn and the write to
    stdin. *)
Lemma executeCodex_run (timeout : number) (evs : list Event)
      (prompt model : jsstring) (done : list Effect) :
  executeCodex timeout evs prompt model done
  = (Ok (settlement timeout evs),
     done ++ Spawn (lit "codex") (codex_args model)
          :: (if spawn_returns evs then [StdinWrite prompt] else [])).
Proof.
  unfold executeCodex, bind, log, update, ret.
  destruct (spawn_returns evs); now rewrite <- ?app_assoc.
Qed.

(** After the flag is set, each handler returns at its guard. *)
Lemma step_settled_noop (timeout : number) (st : State) (ev : Event) :
  settled st = true -> terminal ev = true -> step timeout st ev = st.
Proof. intros S T. destruct ev; try discriminate; simpl; now rewrite S. Qed.

(** ... and nothing but the two buffers ever changes again. *)
Lemma step_settled_frozen (timeout : number) (st : State) (ev : Event) :
  settled st = true ->
  let st' := step timeout st ev in
  settled st' = true /\ calls st' = calls st /\ kills st' = kills st
  /\ timer_cleared st' = timer_cleared st /\ uncaught st' = uncaught st.
Proof.
  intros S. destruct ev; simpl; rewrite ?S; repeat split; assumption.
Qed.

Lemma run_settled_frozen (timeout : number) (evs : list Event) :
  forall st, settled st = true ->
    let st' := run timeout st evs in
    settled st' = true /\ calls st' = calls st /\ kills st' = kills st
    /\ timer_cleared st' = timer_cleared st /\ uncaught st' = uncaught st.
Proof.
  induction evs as [|ev evs IH]; intros st S.
  - simpl. repeat split; assumption.
  - rewrite run_cons.
    destruct (step_settled_frozen timeout st ev S) as (S' & C & K & T & U).
    destruct (IH _ S') as (S'' & C' & K' & T' & U').
    cbn zeta. repeat split; congruence.
Qed.

(** Data events alone settle nothing; they fill the buffers. *)
Lemma run_data_only (timeout : number) (pre : list Event) :
  Forall (fun ev => terminal ev = false) pre ->
  forall st,
    run timeout st pre =
    {| settled := settled st;
       stdout := stdout st ++ stdout_of pre;
       stderr := stderr st ++ stderr_of pre;
       timer_cleared := timer_cleared st; kills := kills st;
       calls := calls st; uncaught := uncaught st |}.
Proof.
  induction 1 as [|ev pre Hev Hpre IH]; intros st.
  - simpl. rewrite !app_nil_r. now destruct st.
  - rewrite run_cons, IH.
    destruct ev; try discriminate; simpl; rewrite <- ?app_assoc; reflexivity.
Qed.

(** No trace makes two calls of [resolve] / [reject], nor two kills, and
    there is a call only once the flag is set. *)
Lemma step_invariant (timeout : number) (st : State) (ev : Event) :
  (settled st = false -> calls st = [] /\ kills st = 0%nat) ->
  (List.length (calls st) <= 1)%nat -> (kills st <= 1)%nat ->
  let st' := step timeout st ev in
  (settled st' = false -> calls st' = [] /\ kills st' = 0%nat)
  /\ (List.length (calls st') <= 1)%nat /\ (kills st' <= 1)%nat.
Proof.
  intros I C K.
  destruct (settled st) eqn:S.
  - destruct (step_settled_frozen timeout st ev S) as (S' & C' & K' & _).
    cbn zeta. rewrite S', C', K'. repeat split; try assumption; discriminate.
  - destruct (I eq_refl) as [C0 K0].
    destruct ev; simpl; rewrite ?S; simpl; rewrite ?C0, ?K0; simpl;
      try (repeat split; auto; discriminate).
    destruct (close_ok code (stdout st));
      [destruct (parseCodexOutput (stdout st))|]; simpl; rewrite ?C0, ?K0;
      simpl; repeat split; auto; discriminate.
Qed.

Lemma run_invariant (timeout : number) (evs : list Event) :
  forall st,
    (settled st = false -> calls st = [] /\ kills st = 0%nat) ->
    (List.length (calls st) <= 1)%nat -> (kills st <= 1)%nat ->
    let st' := run timeout st evs in
    (settled st' = false -> calls st' = [] /\ kills st' = 0%nat)
    /\ (List.length (calls st') <= 1)%nat /\ (kills st' <= 1)%nat.
Proof.
  induction evs as [|ev evs IH]; intros st I C K.
  - simpl. auto.
  - rewrite run_cons.
    destruct (step_invariant timeout st ev I C K) as (I' & C' & K').
    apply IH; assumption.
Qed.

(** Never twice: whatever the events and their order, at most one call of
    [resolve] or [reject], and at most one kill. *)
Lemma settles_at_most_once (timeout : number) (evs : list Event) :
  (List.length (calls (run timeout initial evs)) <= 1)%nat
  /\ (kills (run timeout initial evs) <= 1)%nat.
Proof.
  destruct (run_invariant timeout evs initial) as (_ & C & K); simpl; auto.
Qed.

(** The first terminal event decides, alone: what follows it changes
    neither the promise nor the number of kills. *)
Lemma first_terminal_decides (timeout : number)
      (pre post : list Event) (ev : Event) :
  Forall (fun e => terminal e = false) pre -> terminal ev = true ->
  let st := step timeout (run timeout initial pre) ev in
  let st' := run timeout initial (pre ++ ev :: post) in
  settled st = true /\ calls st' = calls st /\ kills st' = kills st.
Proof.
  intros Hpre Hev. cbn zeta. rewrite run_app, run_cons.
  assert (S : settled (step timeout (run timeout initial pre) ev) = true).
  { rewrite (run_data_only timeout pre Hpre). 
    destruct ev; try discriminate; simpl; try reflexivity.
    destruct (close_ok _ _); [destruct (parseCodexOutput _)|]; reflexivity. }
  destruct (run_settled_frozen timeout post _ S) as (_ & C & K & _).
  auto.
Qed.

(** Exactly once, unless the parser throws: when the first terminal
    event is not a close whose call of [parseCodexOutput] throws, the
    whole trace makes exactly one call of [resolve] or [reject]. *)
Lemma first_terminal_settles (timeout : number)
      (pre post : list Event) (ev : Event) :
  Forall (fun e => terminal e = false) pre -> terminal ev = true ->
  (forall code, ev = Close code ->
                close_ok code (stdout_of pre) = true ->
                exists text, parseCodexOutput (stdout_of pre) = Ok text) ->
  List.length (calls (run timeout initial (pre ++ ev :: post))) = 1%nat.
Proof.
  intros Hpre Hev Hparse.
  destruct (first_terminal_decides timeout pre post ev Hpre Hev) as (_ & C & _).
  rewrite C, (run_data_only timeout pre Hpre).
  destruct ev; try discriminate; try reflexivity.
  simpl. specialize (Hparse code eq_refl).
  destruct (close_ok code (stdout_of pre)); [|reflexivity].
  destruct (Hparse eq_refl) as [text ->]. reflexivity.
Qed.

(** The close handler, fired first: it resolves with the parsed output
    when the exit code is zero or the output is not blank, and rejects
    otherwise; when [parseCodexOutput] throws, the exception leaves the
    handler and nothing is called. *)
Lemma close_first (timeout : number) (pre : list Event) (code : option Z) :
  Forall (fun e => terminal e = false) pre ->
  calls (step timeout (run timeout initial pre) (Close code)) =
  if close_ok code (stdout_of pre) then
    match parseCodexOutput (stdout_of pre) with
    | Ok text => [Resolved text]
    | Throw _ => []
    end
  else [Rejected (exit_message code (stderr_of pre))].
Proof.
  intros Hpre. rewrite (run_data_only timeout pre Hpre). simpl.
  destruct (close_ok code (stdout_of pre));
    [destruct (parseCodexOutput (stdout_of pre))|]; reflexivity.
Qed.

Lemma close_ok_iff (code : option Z) (out : jsstring) :
  close_ok code out = true <-> code = Some 0 \/ trim out <> [].
Proof.
  unfold close_ok. split.
  - destruct code as [[| |]|]; auto; destruct (trim out); try discriminate;
      right; discriminate.
  - intros [-> | H]; [reflexivity|].
    destruct code as [[| |]|]; try reflexivity; now destruct (trim out).
Qed.

Lemma unprintable_output_throws :
  parseCodexOutput (output_text_line unprintable) = Throw TypeError.
Proof. vm_compute. reflexivity. Qed.

(** The state the two events leave, whatever the timeout. *)
Lemma unprintable_state (timeout : number) :
  run timeout initial unprintable_run =
  {| settled := true; stdout := output_text_line unprintable;
     stderr := []; timer_cleared := true; kills := 0;
     calls := []; uncaught := [TypeError] |}.
Proof. vm_compute. reflexivity. Qed.

(** C1, at the failing input.  The event is decoded and its text, an
    object, is pushed; [messages.join] then converts it to a string outside
    every [try] and throws.  The close handler has already set [settled]
    and cleared the timer, so it calls neither [resolve] nor [reject], and
    every later event (the timeout too) returns at its guard: the promise
    stays pending, whatever follows. *)
Theorem close_throw_never_settles :
  forall (timeout : number) (later : list Event)
         (prompt model : jsstring) (done : list Effect),
    let st := run timeout initial (unprintable_run ++ later) in
    executeCodex timeout (unprintable_run ++ later) prompt model done
    = (Ok None,
       done ++ [Spawn (lit "codex") (codex_args model); StdinWrite prompt])
    /\ settled st = true /\ timer_cleared st = true
    /\ calls st = [] /\ uncaught st = [TypeError].
Proof.
  intros timeout later prompt model done. cbn zeta.
  rewrite executeCodex_run. unfold settlement, promise.
  rewrite run_app, unprintable_state.
  match goal with
  | |- context [run timeout ?st0 later] =>
      destruct (run_settled_frozen timeout later st0 eq_refl)
        as (S & C & _ & T & U)
  end.
  cbn [calls uncaught timer_cleared settled] in *.
  rewrite C. auto.
Qed.

(** C2, at the same input.  The process closes first, with exit code 0 and
    a non-blank output, and the promise is not resolved: the call of
    [parseCodexOutput] inside the handler throws. *)
Theorem close_zero_exit_unresolved :
  forall timeout : number,
    let st := run timeout initial unprintable_run in
    close_ok (Some 0) (stdout_of [StdoutData (output_text_line unprintable)])
    = true
    /\ trim (output_text_line unprintable) <> []
    /\ parseCodexOutput (output_text_line unprintable) = Throw TypeError
    /\ promise st = None
    /\ uncaught st = [TypeError].
Proof.
  intros timeout. cbn zeta.
  split; [reflexivity|]. split; [vm_compute; discriminate|].
  split; [apply unprintable_output_throws|].
  rewrite unprintable_state. split; reflexivity.
Qed.

(** C3.  When the timer fires before any close, spawn error or stdin
    error, the promise is rejected with the message that names
    [CODEX_TIMEOUT], and over the whole invocation, whatever events follow,
    the child is sent SIGTERM exactly once. *)
Theorem timeout_first (timeout : number) (pre post : list Event)
        (prompt model : jsstring) (done : list Effect) :
  Forall (fun ev => terminal ev = false) pre ->
  let st := run timeout initial (pre ++ Timeout :: post) in
  fst (executeCodex timeout (pre ++ Timeout :: post) prompt model done)
  = Ok (Some (Rejected (lit "Codex timed out after "
                        ++ Number.to_string timeout ++ lit "ms")))
  /\ calls st = [Rejected (lit "Codex timed out after "
                           ++ Number.to_string timeout ++ lit "ms")]
  /\ kills st = 1%nat.
Proof.
  intros Hpre. cbn zeta.
  destruct (first_terminal_decides timeout pre post Timeout Hpre eq_refl)
    as (_ & C & K).
  rewrite executeCodex_run. unfold settlement, promise. rewrite C, K.
  rewrite (run_data_only timeout pre Hpre). simpl. auto.
Qed.

Lemma timeout_first_witness :
  let timeout := CODEX_TIMEOUT no_env in
  let evs := [StdoutData (lit "working"); Timeout; Close None;
              StdinError (lit "EPIPE"); Timeout] in
  fst (executeCodex timeout evs (lit "Review this design") (lit "gpt-5.2") [])
  = Ok (Some (Rejected (lit "Codex timed out after 180000ms")))
  /\ kills (run timeout initial evs) = 1%nat.
Proof.
  cbn zeta.
  destruct (timeout_first (CODEX_TIMEOUT no_env)
              [StdoutData (lit "working")]
              [Close None; StdinError (lit "EPIPE"); Timeout]
              (lit "Review this design") (lit "gpt-5.2") [])
    as (P & _ & K).
  - repeat constructor.
  - split; [exact P | exact K].
Defined.

End ExecuteFacts.

(** ** The fallback of parseCodexOutput, and what the caller gets *)

Module FallbackFacts.
Import Number Json Codex Fragments Samples ParserFacts ExecuteFacts.




End FallbackFacts.

(** ** validateAndReadFile *)

Module FileFacts.
Import Number Json Codex Sizes Samples NumberFacts.

Lemma tenths_of_MiB_nearest (z : Z) :
  let t := tenths_of_MiB z in
  - 2 ^ 20 <= 2 * (10 * z - t * 2 ^ 20) < 2 ^ 20.
Proof.
  unfold tenths_of_MiB. cbn zeta.
  change (2 ^ 21) with 2097152. change (2 ^ 20) with 1048576.
  pose proof (Z.div_mod (20 * z + 1048576) 2097152 ltac:(discriminate)) as D.
  pose proof (Z.mod_pos_bound (20 * z + 1048576) 2097152 ltac:(reflexivity))
    as B.
  lia.
Qed.

Lemma ge_pow2_small (n k : Z) : 1 <= n -> k <= 0 -> ge_pow2 n 1 k = true.
Proof.
  intros Hn Hk. unfold ge_pow2.
  destruct (0 <=? k) eqn:E.
  - apply Z.leb_le in E. replace k with 0 by lia. apply Z.leb_le. simpl. lia.
  - apply Z.leb_le.
    assert (0 < 2 ^ (- k)) by (apply pow2_pos; lia). nia.
Qed.

(** Dividing a byte count below [2^53] by 1024 twice is exact, and
    [toFixed(1)] prints the nearest tenth of a MiB. *)
Lemma toFixed1_MiB (z : Z) :
  0 < z < 2 ^ 53 ->
  toFixed1 (div_pow2 (div_pow2 (of_Z z) 10) 10)
  = one_decimal (tenths_of_MiB z).
Proof.
  intros [Hlo Hhi]. unfold of_Z.
  replace (Z.abs z <? 2 ^ 53) with true by (symmetry; apply Z.ltb_lt; lia).
  unfold div_pow2 at 2. rewrite ge_pow2_small by lia.
  unfold div_pow2. rewrite ge_pow2_small by lia.
  change (0 - 10 - 10) with (-20).
  unfold toFixed1.
  replace (z <? 0) with false by (symmetry; apply Z.ltb_ge; lia).
  unfold toFixed1_pos, tenths, num_of, den_of.
  change (0 <=? -20) with false. cbn iota.
  change (- -20) with 20.
  assert (G : ge_pow2 z (2 ^ 20 * 5 ^ 21) 21 = false).
  { unfold ge_pow2. change (0 <=? 21) with true. cbn iota.
    apply Z.leb_gt.
    assert (2 ^ 53 < 2 ^ 20 * 5 ^ 21 * 2 ^ 21) by (vm_compute; reflexivity).
    lia. }
  rewrite G. unfold one_decimal, tenths_of_MiB.
  replace (2 * (10 * z) + 2 ^ 20) with (20 * z + 2 ^ 20) by lia.
  change (2 * 2 ^ 20) with (2 ^ 21). reflexivity.
Qed.

Lemma gtb_int (a b : Z) : gtb (Fin a 0) (of_int b) = (b <? a).
Proof.
  unfold gtb, ltb, of_int. cbn [compare]. rewrite cmp_fin_int.
  unfold Z.ltb. destruct (b ?= a); reflexivity.
Qed.

(** The size test alone decides that a regular file is not read. *)
Lemma oversized_block (fsys : FileSystem) (path resolved : jsstring)
      (st : Stats) (done : list Effect) :
  resolve fsys path = Ok resolved ->
  statSync fsys resolved = Ok st ->
  isFile st = true ->
  gtb (size st) (of_int MAX_FILE_SIZE) = true ->
  validateAndReadFile fsys (VString path) done
  = (Ok (too_large_block path (size st)), done ++ [FsStat resolved]).
Proof.
  intros R S F G. unfold validateAndReadFile, try_catch, bind, lift, log, update.
  rewrite R, S, F, G. reflexivity.
Qed.

(** C8.  A regular file whose size is above the cap of 5 MiB yields the
    block that reports the size in MiB as [toFixed(1)] prints it, together
    with the cap, and the only file system call made is the one
    [statSync]: the content is not read.  For a size of [z] bytes below
    [2^53] (where a byte count is an exact Number) the size printed is the
    tenth of a MiB nearest to [z], with one decimal place. *)
Theorem oversized_file_not_read (fsys : FileSystem) (path resolved : jsstring)
        (st : Stats) (done : list Effect) :
  resolve fsys path = Ok resolved ->
  statSync fsys resolved = Ok st ->
  isFile st = true ->
  gtb (size st) (of_int MAX_FILE_SIZE) = true ->
  validateAndReadFile fsys (VString path) done
  = (Ok (lit "--- File: " ++ path ++ lit " --- (File too large: "
         ++ toFixed1 (div_pow2 (div_pow2 (size st) 10) 10)
         ++ lit "MB, max 5MB)"),
     done ++ [FsStat resolved])
  /\ (forall z : Z,
        size st = of_Z z -> z < 2 ^ 53 ->
        5 * 1024 * 1024 < z
        /\ toFixed1 (div_pow2 (div_pow2 (size st) 10) 10)
           = one_decimal (tenths_of_MiB z)
        /\ - 2 ^ 20 <= 2 * (10 * z - tenths_of_MiB z * 2 ^ 20) < 2 ^ 20).
Proof.
  intros R S F G. split.
  - rewrite (oversized_block fsys path resolved st done R S F G).
    unfold too_large_block, file_header. now rewrite <- !app_assoc.
  - intros z Z Hhi.
    assert (Hlo : 5 * 1024 * 1024 < z).
    { rewrite Z in G. unfold of_Z in G.
      destruct (Z.abs z <? 2 ^ 53) eqn:A.
      - rewrite gtb_int in G. now apply Z.ltb_lt in G.
      - apply Z.ltb_ge in A. unfold of_ratio in G.
        destruct (z =? 0) eqn:Z0; [apply Z.eqb_eq in Z0; lia|].
        destruct (z <? 0) eqn:N; [|apply Z.ltb_ge in N; lia].
        exfalso. apply Z.ltb_lt in N.
        destruct (round_pos_large (- z)) as [E | (m & q & E & Hq & Hm)];
          [lia | rewrite E in G; discriminate |].
        rewrite E in G. unfold gtb, ltb, of_int in G. cbn [neg compare] in G.
        rewrite cmp_large_small in G; [discriminate | | assumption ..].
        unfold MAX_FILE_SIZE. assert (0 < 2 ^ 53) by (apply pow2_pos; lia).
        lia. }
    split; [exact Hlo|]. split.
    + rewrite Z. apply toFixed1_MiB. lia.
    + apply tenths_of_MiB_nearest.
Qed.

Lemma oversized_file_not_read_witness :
  validateAndReadFile sample_fs (VString (lit "big.bin")) []
  = (Ok (lit "--- File: big.bin --- (File too large: 6.0MB, max 5MB)"),
     [FsStat (lit "/work/big.bin")])
  /\ one_decimal (tenths_of_MiB (6 * 1024 * 1024)) = lit "6.0".
Proof.
  destruct (oversized_file_not_read sample_fs (lit "big.bin")
              (lit "/work/big.bin")
              {| isFile := true; size := of_Z (6 * 1024 * 1024) |} [])
    as [Block Size]; try reflexivity.
  split.
  - exact Block.
  - destruct (Size (6 * 1024 * 1024)) as (_ & Printed & _);
      [reflexivity | reflexivity |].
    rewrite <- Printed. reflexivity.
Defined.

(** C7, as stated, fails twice.  A regular, readable file of 6 MiB is none
    of the listed failures, and the result is not its header and contents
    but the too-large placeholder.  And a path that is not a string but an
    object with a member named toString makes the template literal of the
    first [return], which is outside the [try], throw a TypeError. *)
Lemma validateAndReadFile_not_as_stated :
  (statSync sample_fs (lit "/work/big.bin")
   = Ok {| isFile := true; size := of_Z (6 * 1024 * 1024) |}
   /\ (exists content, readFileSync sample_fs (lit "/work/big.bin") = Ok content)
   /\ fst (validateAndReadFile sample_fs (VString (lit "big.bin")) [])
      = Ok (lit "--- File: big.bin --- (File too large: 6.0MB, max 5MB)"))
  /\ fst (validateAndReadFile sample_fs unprintable_value []) = Throw TypeError.
Proof.
  split; [split; [|split]|].
  - reflexivity.
  - eexists. reflexivity.
  - vm_compute. reflexivity.
  - vm_compute. reflexivity.
Qed.

(** C7, amended.  For a path that is a string the function never throws:
    it returns the not-a-regular-file block when [statSync] says so, the
    too-large block for a regular file above the cap, the error block when
    [path.resolve], [statSync] or [readFileSync] throws, and otherwise the
    header naming the original path, a line feed and the contents.  A list
    of string paths therefore always maps to one block per path.  A path
    that is not a string yields the invalid-path-type block whenever it
    converts to a string. *)
Theorem validateAndReadFile_contained (fsys : FileSystem) :
  (forall path done,
      exists block effects,
        validateAndReadFile fsys (VString path) done
        = (Ok block, done ++ effects))
  /\ (forall path done e,
        resolve fsys path = Throw e ->
        fst (validateAndReadFile fsys (VString path) done)
        = Ok (file_header path ++ lit " (Error reading file)"))
  /\ (forall path done resolved e,
        resolve fsys path = Ok resolved ->
        statSync fsys resolved = Throw e ->
        fst (validateAndReadFile fsys (VString path) done)
        = Ok (file_header path ++ lit " (Error reading file)"))
  /\ (forall path done resolved st,
        resolve fsys path = Ok resolved ->
        statSync fsys resolved = Ok st ->
        isFile st = false ->
        fst (validateAndReadFile fsys (VString path) done)
        = Ok (file_header path ++ lit " (Not a regular file)"))
  /\ (forall path done resolved st,
        resolve fsys path = Ok resolved ->
        statSync fsys resolved = Ok st ->
        isFile st = true ->
        gtb (size st) (of_int MAX_FILE_SIZE) = true ->
        fst (validateAndReadFile fsys (VString path) done)
        = Ok (too_large_block path (size st)))
  /\ (forall path done resolved st e,
        resolve fsys path = Ok resolved ->
        statSync fsys resolved = Ok st ->
        isFile st = true ->
        gtb (size st) (of_int MAX_FILE_SIZE) = false ->
        readFileSync fsys resolved = Throw e ->
        fst (validateAndReadFile fsys (VString path) done)
        = Ok (file_header path ++ lit " (Error reading file)"))
  /\ (forall path done resolved st content,
        resolve fsys path = Ok resolved ->
        statSync fsys resolved = Ok st ->
        isFile st = true ->
        gtb (size st) (of_int MAX_FILE_SIZE) = false ->
        readFileSync fsys resolved = Ok content ->
        fst (validateAndReadFile fsys (VString path) done)
        = Ok (file_header path ++ nl ++ content))
  /\ (forall paths done,
        exists blocks,
          fst (map_st (validateAndReadFile fsys) (List.map VString paths) done)
          = Ok blocks
          /\ List.length blocks = List.length paths)
  /\ (forall v shown done,
        is_string v = false ->
        to_string v = Ok shown ->
        validateAndReadFile fsys v done
        = (Ok (file_header shown ++ lit " (Invalid path type)"), done)).
Proof.
  assert (Total : forall path done,
             exists block effects,
               validateAndReadFile fsys (VString path) done
               = (Ok block, done ++ effects)).
  { intros path done.
    unfold validateAndReadFile, try_catch, bind, lift, log, update, ret.
    destruct (resolve fsys path) as [resolved|e].
    - destruct (statSync fsys resolved) as [st|e].
      + destruct (isFile st); cbn [negb].
        * destruct (gtb (size st) (of_int MAX_FILE_SIZE)).
          -- do 2 eexists. reflexivity.
          -- destruct (readFileSync fsys resolved) as [content|e].
             ++ do 2 eexists. rewrite <- app_assoc. reflexivity.
             ++ do 2 eexists. rewrite <- app_assoc. reflexivity.
        * do 2 eexists. reflexivity.
      + do 2 eexists. reflexivity.
    - exists (file_header path ++ lit " (Error reading file)"), [].
      now rewrite app_nil_r. }
  split; [exact Total|].
  repeat match goal with |- _ /\ _ => split end.
  - intros path done e R.
    unfold validateAndReadFile, try_catch, bind, lift. now rewrite R.
  - intros path done resolved e R S.
    unfold validateAndReadFile, try_catch, bind, lift, log, update.
    now rewrite R, S.
  - intros path done resolved st R S F.
    unfold validateAndReadFile, try_catch, bind, lift, log, update.
    now rewrite R, S, F.
  - intros path done resolved st R S F G.
    now rewrite (oversized_block fsys path resolved st done R S F G).
  - intros path done resolved st e R S F G D.
    unfold validateAndReadFile, try_catch, bind, lift, log, update.
    now rewrite R, S, F, G, D.
  - intros path done resolved st content R S F G D.
    unfold validateAndReadFile, try_catch, bind, lift, log, update.
    now rewrite R, S, F, G, D.
  - intros paths. induction paths as [|p r IH]; intros done.
    + exists []. split; reflexivity.
    + destruct (Total p done) as (block & effects & E).
      destruct (IH (done ++ effects)) as (blocks & B & L).
      exists (block :: blocks). cbn [List.map map_st]. unfold bind at 1.
      rewrite E. unfold bind at 1.
      destruct (map_st (validateAndReadFile fsys) (List.map VString r)
                       (done ++ effects)) as [[bs|e] st'];
        simpl in B; [|discriminate].
      injection B as ->. split; [reflexivity | simpl; now rewrite L].
  - intros v shown done N T.
    destruct v; try discriminate; unfold validateAndReadFile, bind, lift;
      rewrite T; reflexivity.
Qed.

Lemma validateAndReadFile_contained_witness :
  let block v := fst (validateAndReadFile sample_fs v []) in
  block (VString (lit "src")) = Ok (lit "--- File: src --- (Not a regular file)")
  /\ block (VString (lit "gone"))
     = Ok (lit "--- File: gone --- (Error reading file)")
  /\ block (VString (lit "secret"))
     = Ok (lit "--- File: secret --- (Error reading file)")
  /\ block (VString (lit "a.txt")) = Ok (lit "--- File: a.txt ---" ++ nl ++ lit "hello")
  /\ block (VString (lit "big.bin"))
     = Ok (too_large_block (lit "big.bin") (of_Z (6 * 1024 * 1024)))
  /\ fst (validateAndReadFile stale_fs (VString (lit "a.txt")) [])
     = Ok (lit "--- File: a.txt --- (Error reading file)")
  /\ validateAndReadFile sample_fs (VNumber (of_Z 7)) []
     = (Ok (lit "--- File: 7 --- (Invalid path type)"), []).
Proof.
  cbn zeta.
  destruct (validateAndReadFile_contained sample_fs)
    as (_ & _ & StatThrows & NotFile & TooLarge & ReadThrows & Contents & _
        & NotString).
  destruct (validateAndReadFile_contained stale_fs)
    as (_ & ResolveThrows & _).
  repeat match goal with |- _ /\ _ => split end.
  - apply (NotFile (lit "src") [] (lit "/work/src")
                   {| isFile := false; size := of_Z 4096 |}); reflexivity.
  - apply (StatThrows (lit "gone") [] (lit "/work/gone")
                      (SystemError (lit "ENOENT"))); reflexivity.
  - apply (ReadThrows (lit "secret") [] (lit "/work/secret")
                      {| isFile := true; size := of_Z 12 |}
                      (SystemError (lit "EACCES"))); reflexivity.
  - apply (Contents (lit "a.txt") [] (lit "/work/a.txt")
                    {| isFile := true; size := of_Z 5 |} (lit "hello"));
      reflexivity.
  - apply (TooLarge (lit "big.bin") [] (lit "/work/big.bin")
                    {| isFile := true; size := of_Z (6 * 1024 * 1024) |});
      reflexivity.
  - apply (ResolveThrows (lit "a.txt") [] (SystemError (lit "ENOENT")));
      reflexivity.
  - apply (NotString (VNumber (of_Z 7)) (lit "7") []); reflexivity.
Defined.

End FileFacts.

(** ** handleAskCodex *)

Module HandlerFacts.
Import Number Json Codex Samples JsonFacts.

(** C4, as stated, fails.  With 21 context files and a role outside the
    allow-list the response is the invalid-role message, which names
    neither the maximum nor the count: the role is checked first.  With a
    valid role the count is rejected only after [detectCodexCli()] and
    [resolveSystemPrompt()] have been called. *)
Lemma too_many_files_not_as_stated :
  List.length many_files = 21%nat
  /\ handleAskCodex no_env (sample_world []) (request "intern" many_files) []
     = (Ok (Some (failure (invalid_role_text (lit "intern")))), [])
  /\ invalid_role_text (lit "intern") <> too_many_text 21
  /\ handleAskCodex no_env (sample_world []) (request "architect" many_files) []
     = (Ok (Some (failure
                    (lit "Too many context files (max 20, got 21)"))),
        [DetectCli; ResolvePrompt (lit "architect")]).
Proof.
  split; [reflexivity|]. split; [vm_compute; reflexivity|].
  split; [vm_compute; discriminate|]. vm_compute. reflexivity.
Qed.

(** C4, amended.  A request with more than 20 context files always gets a
    failure response, and no context file is touched and no engine process
    is started for it.  When the role is in the allow-list and the CLI is
    detected, the message names the maximum and the count, and the calls
    made before it are [detectCodexCli()] and [resolveSystemPrompt()], in
    this order; otherwise the role check or the CLI detection answers
    first, with its own message. *)
Theorem too_many_files_rejected (env : Env) (w : World) (a : Args)
        (files : list Value) (done : list Effect) :
  context_files a = Some files ->
  (20 < List.length files)%nat ->
  exists response effects,
    handleAskCodex env w a done = (Ok (Some response), done ++ effects)
    /\ isError response = true
    /\ existsb touches_files_or_engine effects = false
    /\ (valid_role (agent_role a) = true ->
        available (detectCodexCli w) = true ->
        text response
        = lit "Too many context files (max 20, got "
          ++ dec (Z.of_nat (List.length files)) ++ lit ")"
        /\ digits_val (dec (Z.of_nat (List.length files)))
           = Z.of_nat (List.length files)
        /\ effects = [DetectCli; ResolvePrompt (agent_role a)]).
Proof.
  intros F L. unfold handleAskCodex.
  destruct (valid_role (agent_role a)) eqn:R; cbn [negb].
  - unfold bind at 1. unfold log at 1. unfold update.
    destruct (available (detectCodexCli w)) eqn:A; cbn [negb].
    + unfold bind at 1. unfold log at 1. unfold update.
      rewrite F. destruct files as [|f fl]; [simpl in L; lia|].
      replace (MAX_CONTEXT_FILES <? Z.of_nat (List.length (f :: fl)))
        with true by (symmetry; apply Z.ltb_lt; unfold MAX_CONTEXT_FILES; lia).
      exists (failure (too_many_text (List.length (f :: fl)))),
             [DetectCli; ResolvePrompt (agent_role a)].
      unfold ret. rewrite <- app_assoc.
      split; [reflexivity|]. split; [reflexivity|]. split; [reflexivity|].
      intros _ _. split; [reflexivity|]. split; [|reflexivity].
      apply dec_val. lia.
    + exists (failure (unavailable_text (detectCodexCli w))), [DetectCli].
      split; [reflexivity|]. split; [reflexivity|]. split; [reflexivity|].
      discriminate.
  - exists (failure (invalid_role_text (agent_role a))), [].
    unfold ret. rewrite app_nil_r.
    split; [reflexivity|]. split; [reflexivity|]. split; [reflexivity|].
    discriminate.
Qed.

Lemma too_many_files_rejected_witness :
  handleAskCodex no_env (sample_world []) (request "architect" many_files) []
  = (Ok (Some {| text := lit "Too many context files (max 20, got 21)";
                 isError := true |}),
     [DetectCli; ResolvePrompt (lit "architect")]).
Proof.
  destruct (too_many_files_rejected no_env (sample_world [])
              (request "architect" many_files) many_files [])
    as (response & effects & Run & Failed & _ & Named).
  - reflexivity.
  - simpl. lia.
  - destruct Named as (Text & _ & Calls); [reflexivity | reflexivity |].
    rewrite Run. destruct response as [t e]. simpl in Failed, Text.
    rewrite Failed, Text, Calls. reflexivity.
Defined.

(** A whole request, end to end: two context files (one of them a
    directory), the engine prints two events and exits with code 0. *)
Example handleAskCodex_example :
  handleAskCodex no_env
    (sample_world [StdoutData two_events; Close (Some 0); Timeout])
    (request "architect" [VString (lit "a.txt"); VString (lit "src")]) []
  = (Ok (Some {| text := lit "hi" ++ nl ++ lit "there"; isError := false |}),
     [DetectCli; ResolvePrompt (lit "architect");
      FsStat (lit "/work/a.txt"); FsRead (lit "/work/a.txt");
      FsStat (lit "/work/src");
      Spawn (lit "codex")
            [lit "exec"; lit "-m"; lit "gpt-5.2"; lit "--json";
             lit "--full-auto"];
      StdinWrite
        (lit "You are the architect" ++ nl ++ nl
         ++ lit "--- File: a.txt ---" ++ nl ++ lit "hello" ++ nl ++ nl
         ++ lit "--- File: src --- (Not a regular file)" ++ nl ++ nl
         ++ lit "Review this design")]).
Proof. vm_compute. reflexivity. Qed.

End HandlerFacts.

(* ================================================================== *)
(** * Further properties *)
(* ================================================================== *)

(** ** executeCodex: the other handlers, and what every trace keeps *)

Module ExecuteMore.
Import Number Json Codex Fragments Samples JsonFacts ParserFacts ExecuteFacts.

Lemma run_buffers (timeout : number) (evs : list Event) :
  forall st,
    stdout (run timeout st evs) = stdout st ++ stdout_of evs
    /\ stderr (run timeout st evs) = stderr st ++ stderr_of evs.
Proof.
  induction evs as [|ev evs IH]; intros st.
  - simpl. now rewrite !app_nil_r.
  - rewrite run_cons. destruct (IH (step timeout st ev)) as [O E].
    rewrite O, E. clear IH O E.
    destruct ev; simpl; try (destruct (settled st); simpl);
      rewrite <- ?app_assoc; try (split; reflexivity).
    destruct (close_ok code (stdout st));
      [destruct (parseCodexOutput (stdout st))|]; split; reflexivity.
Qed.

(** X1.  When a spawn error or a stdin write error is the first of the
    four events, the promise is rejected with the message that wraps the
    error's own text, the timer is cleared and the child is sent SIGTERM;
    whatever follows (a close, the timeout, a second error) changes
    nothing: one call of [reject], one kill. *)
Theorem error_first (timeout : number) (pre post : list Event)
        (message : jsstring) (prompt model : jsstring) (done : list Effect) :
  Forall (fun ev => terminal ev = false) pre ->
  (let evs := pre ++ SpawnError message :: post in
   fst (executeCodex timeout evs prompt model done)
   = Ok (Some (Rejected (lit "Failed to spawn Codex CLI: " ++ message)))
   /\ List.length (calls (run timeout initial evs)) = 1%nat
   /\ kills (run timeout initial evs) = 1%nat
   /\ timer_cleared (run timeout initial evs) = true)
  /\ (let evs := pre ++ StdinError message :: post in
      fst (executeCodex timeout evs prompt model done)
      = Ok (Some (Rejected (lit "Stdin write error: " ++ message)))
      /\ List.length (calls (run timeout initial evs)) = 1%nat
      /\ kills (run timeout initial evs) = 1%nat
      /\ timer_cleared (run timeout initial evs) = true).
Proof.
  intros Hpre. cbn zeta. split.
  - destruct (first_terminal_decides timeout pre post (SpawnError message)
                Hpre eq_refl) as (S & C & K).
    rewrite executeCodex_run. unfold settlement, promise. rewrite C, K.
    rewrite run_app, run_cons.
    destruct (run_settled_frozen timeout post _ S) as (_ & _ & _ & T & _).
    rewrite T. rewrite (run_data_only timeout pre Hpre). simpl. auto.
  - destruct (first_terminal_decides timeout pre post (StdinError message)
                Hpre eq_refl) as (S & C & K).
    rewrite executeCodex_run. unfold settlement, promise. rewrite C, K.
    rewrite run_app, run_cons.
    destruct (run_settled_frozen timeout post _ S) as (_ & _ & _ & T & _).
    rewrite T. rewrite (run_data_only timeout pre Hpre). simpl. auto.
Qed.

Lemma error_first_witness :
  fst (executeCodex (CODEX_TIMEOUT no_env)
         [StderrData (lit "sh: codex: not found");
          SpawnError (lit "spawn codex ENOENT");
          StdinError (lit "write EPIPE"); Close (Some 127); Timeout]
         (lit "Review this design") (lit "gpt-5.2") [])
  = Ok (Some (Rejected (lit "Failed to spawn Codex CLI: spawn codex ENOENT"))).
Proof.
  destruct (error_first (CODEX_TIMEOUT no_env)
              [StderrData (lit "sh: codex: not found")]
              [StdinError (lit "write EPIPE"); Close (Some 127); Timeout]
              (lit "spawn codex ENOENT")
              (lit "Review this design") (lit "gpt-5.2") [])
    as [(P & _) _].
  - repeat constructor.
  - exact P.
Defined.

(** X2.  When the close event is the first of the four and the process
    failed without output (exit code not zero, or none, and a blank
    stdout), the promise is rejected with the message that carries the exit
    code and everything written to stderr, in arrival order, or the words
    No output; the timer is cleared and the child, already gone, is never
    sent a signal, whatever follows.  A numeric exit code is printed in
    decimal digits that read back as the code. *)
Theorem close_first_failure (timeout : number) (pre post : list Event)
        (code : option Z) (prompt model : jsstring) (done : list Effect) :
  Forall (fun ev => terminal ev = false) pre ->
  code <> Some 0 ->
  trim (stdout_of pre) = [] ->
  let evs := pre ++ Close code :: post in
  fst (executeCodex timeout evs prompt model done)
  = Ok (Some (Rejected
                (lit "Codex exited with code " ++ code_text code ++ lit ": "
                 ++ match stderr_of pre with
                    | [] => lit "No output"
                    | err => err
                    end)))
  /\ kills (run timeout initial evs) = 0%nat
  /\ timer_cleared (run timeout initial evs) = true
  /\ (forall z, code = Some z -> 0 <= z -> digits_val (code_text code) = z).
Proof.
  intros Hpre Hcode Hblank. cbn zeta.
  destruct (first_terminal_decides timeout pre post (Close code) Hpre eq_refl)
    as (S & C & K).
  assert (Hok : close_ok code (stdout_of pre) = false).
  { unfold close_ok. rewrite Hblank.
    destruct code as [[| |]|]; try reflexivity. congruence. }
  rewrite executeCodex_run. unfold settlement, promise. rewrite C, K.
  rewrite run_app, run_cons.
  destruct (run_settled_frozen timeout post _ S) as (_ & _ & _ & T & _).
  rewrite T. rewrite (run_data_only timeout pre Hpre). simpl.
  rewrite Hok. simpl. unfold exit_message.
  repeat split.
  - destruct (stderr_of pre); reflexivity.
  - intros z -> Hz. apply dec_val. exact Hz.
Qed.

Lemma close_first_failure_witness :
  fst (executeCodex (CODEX_TIMEOUT no_env)
         [StderrData (lit "error: "); StdoutData (lit "  ");
          StderrData (lit "not logged in"); Close (Some 2); Timeout]
         (lit "Review this design") (lit "gpt-5.2") [])
  = Ok (Some (Rejected
                (lit "Codex exited with code 2: error: not logged in"))).
Proof.
  destruct (close_first_failure (CODEX_TIMEOUT no_env)
              [StderrData (lit "error: "); StdoutData (lit "  ");
               StderrData (lit "not logged in")]
              [Timeout] (Some 2)
              (lit "Review this design") (lit "gpt-5.2") [])
    as (P & _).
  - repeat constructor.
  - discriminate.
  - reflexivity.
  - exact P.
Defined.

(** X3.  When the close event is the first of the four, and the exit code
    is zero or stdout is not blank, and [parseCodexOutput] returns a text
    for what stdout received (all chunks, in arrival order), the promise is
    resolved with that text; the timer is cleared and the child is never
    sent a signal, whatever follows. *)
Theorem close_first_success (timeout : number) (pre post : list Event)
        (code : option Z) (text : jsstring)
        (prompt model : jsstring) (done : list Effect) :
  Forall (fun ev => terminal ev = false) pre ->
  code = Some 0 \/ trim (stdout_of pre) <> [] ->
  parseCodexOutput (stdout_of pre) = Ok text ->
  let evs := pre ++ Close code :: post in
  fst (executeCodex timeout evs prompt model done) = Ok (Some (Resolved text))
  /\ List.length (calls (run timeout initial evs)) = 1%nat
  /\ kills (run timeout initial evs) = 0%nat
  /\ timer_cleared (run timeout initial evs) = true.
Proof.
  intros Hpre Hcond Hparse. cbn zeta.
  destruct (first_terminal_decides timeout pre post (Close code) Hpre eq_refl)
    as (S & C & K).
  apply close_ok_iff in Hcond.
  rewrite executeCodex_run. unfold settlement, promise. rewrite C, K.
  rewrite run_app, run_cons.
  destruct (run_settled_frozen timeout post _ S) as (_ & _ & _ & T & _).
  rewrite T. rewrite (run_data_only timeout pre Hpre). simpl.
  rewrite Hcond, Hparse. simpl. auto.
Qed.

Lemma close_first_success_witness :
  fst (executeCodex (CODEX_TIMEOUT no_env)
         [StdoutData (message_line (quoted "hi")); StdoutData nl;
          StderrData (lit "warning"); StdoutData (output_text_line (quoted "there"));
          Close (Some 0); Timeout]
         (lit "Review this design") (lit "gpt-5.2") [])
  = Ok (Some (Resolved (lit "hi" ++ nl ++ lit "there"))).
Proof.
  destruct (close_first_success (CODEX_TIMEOUT no_env)
              [StdoutData (message_line (quoted "hi")); StdoutData nl;
               StderrData (lit "warning");
               StdoutData (output_text_line (quoted "there"))]
              [Timeout] (Some 0) (lit "hi" ++ nl ++ lit "there")
              (lit "Review this design") (lit "gpt-5.2") [])
    as (P & _).
  - repeat constructor.
  - now left.
  - vm_compute. reflexivity.
  - exact P.
Defined.

(** X4.  Output that is plain text is passed through whatever the exit
    code.  The lines are those of the trimmed output: when the close event
    comes first, stdout is not blank and none of the non-blank lines of
    [stdout.trim()] decodes as JSON, the promise is resolved with exactly
    what stdout received, untrimmed, also for an exit code that is not
    zero. *)
Theorem close_first_plain_text (timeout : number) (pre post : list Event)
        (code : option Z) (prompt model : jsstring) (done : list Effect) :
  Forall (fun ev => terminal ev = false) pre ->
  trim (stdout_of pre) <> [] ->
  (forall line, In line (split_nl (trim (stdout_of pre))) ->
                nonempty (trim line) = true ->
                JSON_parse line = Throw SyntaxError) ->
  fst (executeCodex timeout (pre ++ Close code :: post) prompt model done)
  = Ok (Some (Resolved (stdout_of pre))).
Proof.
  intros Hpre Hblank Hlines.
  assert (Hparse : parseCodexOutput (stdout_of pre) = Ok (stdout_of pre)).
  { rewrite parseCodexOutput_finish. unfold fragments.
    rewrite flat_map_nil; [reflexivity|].
    intros line Hin. unfold output_lines in Hin.
    apply filter_In in Hin as [Hin Hnb].
    unfold line_fragments. now rewrite (Hlines line Hin Hnb). }
  destruct (first_terminal_decides timeout pre post (Close code) Hpre eq_refl)
    as (S & C & K).
  assert (Hcond : close_ok code (stdout_of pre) = true)
    by (apply close_ok_iff; now right).
  rewrite executeCodex_run. unfold settlement, promise. rewrite C.
  rewrite (run_data_only timeout pre Hpre). simpl.
  rewrite Hcond, Hparse. reflexivity.
Qed.

Lemma close_first_plain_text_witness :
  fst (executeCodex (CODEX_TIMEOUT no_env)
         [StdoutData (lit " partial "); StdoutData (lit "answer"); StdoutData nl;
          Close (Some 1)]
         (lit "Review this design") (lit "gpt-5.2") [])
  = Ok (Some (Resolved (lit " partial answer" ++ nl))).
Proof.
  apply (close_first_plain_text (CODEX_TIMEOUT no_env)
           [StdoutData (lit " partial "); StdoutData (lit "answer");
            StdoutData nl] []
           (Some 1) (lit "Review this design") (lit "gpt-5.2") []).
  - repeat constructor.
  - vm_compute. discriminate.
  - intros line Hin _. vm_compute in Hin. destruct Hin as [<- | []].
    vm_compute. reflexivity.
Defined.

(** X5.  A settled promise is final: if the promise is settled after some
    events, it has the same outcome after any further events; and on every
    trace, in whatever order the events come, there is at most one call of
    [resolve] or [reject] and at most one kill. *)
Theorem promise_is_final (timeout : number) (evs more : list Event)
        (outcome : Settlement) :
  settlement timeout evs = Some outcome ->
  settlement timeout (evs ++ more) = Some outcome
  /\ (List.length (calls (run timeout initial (evs ++ more))) <= 1)%nat
  /\ (kills (run timeout initial (evs ++ more)) <= 1)%nat.
Proof.
  intros H. unfold settlement, promise in *.
  destruct (run_invariant timeout evs initial) as (I & _ & _);
    [simpl; auto | simpl; lia | simpl; lia |].
  assert (S : settled (run timeout initial evs) = true).
  { destruct (settled (run timeout initial evs)) eqn:E; [reflexivity|].
    destruct (I eq_refl) as [C _]. rewrite C in H. discriminate. }
  rewrite run_app.
  destruct (run_settled_frozen timeout more _ S) as (_ & C & K & _).
  rewrite C. split; [exact H|].
  rewrite K.
  destruct (run_invariant timeout evs initial) as (_ & L & Kl);
    simpl; auto.
Qed.

Lemma promise_is_final_witness :
  settlement (CODEX_TIMEOUT no_env)
    ([StdoutData (lit "done"); Close (Some 0)]
     ++ [Timeout; SpawnError (lit "late"); StdoutData (lit "more");
         Close (Some 1)])
  = Some (Resolved (lit "done")).
Proof.
  apply (promise_is_final (CODEX_TIMEOUT no_env)
           [StdoutData (lit "done"); Close (Some 0)]
           [Timeout; SpawnError (lit "late"); StdoutData (lit "more");
            Close (Some 1)]
           (Resolved (lit "done"))).
  vm_compute. reflexivity.
Defined.

(** X6.  Exactly once, short of a throwing parser: when the first of the
    four events is the timeout, a spawn error, a stdin error, or a close
    for which [parseCodexOutput] returns, the whole trace makes exactly one
    call of [resolve] or [reject], and the promise has the outcome it had
    right after that first event. *)
Theorem settles_exactly_once (timeout : number)
        (pre post : list Event) (ev : Event) :
  Forall (fun e => terminal e = false) pre -> terminal ev = true ->
  (forall code, ev = Close code ->
                close_ok code (stdout_of pre) = true ->
                exists text, parseCodexOutput (stdout_of pre) = Ok text) ->
  List.length (calls (run timeout initial (pre ++ ev :: post))) = 1%nat
  /\ exists outcome,
       settlement timeout (pre ++ [ev]) = Some outcome
       /\ settlement timeout (pre ++ ev :: post) = Some outcome.
Proof.
  intros Hpre Hev Hparse.
  pose proof (first_terminal_settles timeout pre post ev Hpre Hev Hparse) as L.
  pose proof (first_terminal_settles timeout pre [] ev Hpre Hev Hparse) as L0.
  split; [exact L|].
  destruct (first_terminal_decides timeout pre post ev Hpre Hev) as (_ & C & _).
  destruct (first_terminal_decides timeout pre [] ev Hpre Hev) as (_ & C0 & _).
  unfold settlement, promise. rewrite C, <- C0.
  destruct (calls (run timeout initial (pre ++ [ev]))) as [|o r];
    [discriminate|]. exists o. auto.
Qed.

Lemma settles_exactly_once_witness :
  List.length
    (calls (run (CODEX_TIMEOUT no_env) initial
              ([StdoutData (lit "x")]
               ++ Close None :: [Timeout; StdinError (lit "EPIPE")])))
  = 1%nat.
Proof.
  apply (settles_exactly_once (CODEX_TIMEOUT no_env) [StdoutData (lit "x")]
           [Timeout; StdinError (lit "EPIPE")] (Close None)).
  - repeat constructor.
  - reflexivity.
  - intros code _ _. exists (lit "x"). vm_compute. reflexivity.
Defined.

End ExecuteMore.

(** ** parseCodexOutput: what it returns and when it throws *)

Module ParserMore.
Import Number Json Codex Fragments Samples JsonFacts ParserFacts ExecuteFacts.

(** What [join] makes of an item that is no array. *)
Lemma item_to_string_flat (x : Value) :
  is_array x = false ->
  if has_own_toString x
  then item_to_string x = Throw TypeError
  else exists s, item_to_string x = Ok s.
Proof.
  intros A. destruct x as [| |b|n|s|items|props]; try discriminate;
    cbn [has_own_toString item_to_string to_string];
    try (eexists; reflexivity).
  - destruct b; eexists; reflexivity.
  - destruct (lookup (lit "toString") props);
      [reflexivity | eexists; reflexivity].
Qed.

Lemma items_to_strings_flat (items : list Value) :
  existsb is_array items = false ->
  if existsb has_own_toString items
  then items_to_strings items = Throw TypeError
  else exists l, items_to_strings items = Ok l.
Proof.
  induction items as [|x r IH]; intros A; [eexists; reflexivity|].
  cbn [existsb] in A. apply Bool.orb_false_iff in A as [Ax Ar].
  specialize (IH Ar). pose proof (item_to_string_flat x Ax) as Hx.
  cbn [existsb items_to_strings].
  destruct (has_own_toString x); cbn [orb].
  - rewrite Hx. reflexivity.
  - destruct Hx as [sx ->]. cbn [exc_bind].
    destruct (existsb has_own_toString r).
    + rewrite IH. reflexivity.
    + destruct IH as [l ->]. eexists. reflexivity.
Qed.

(** X7.  When none of the captured fragments is an array,
    [parseCodexOutput] throws exactly when one of them is an object with a
    member named toString, and what it throws is a TypeError; on every
    other such output, in particular whenever the captured fragments are
    strings, it returns. *)
Theorem parseCodexOutput_throws_iff (output : jsstring) :
  existsb is_array (collect output) = false ->
  (parseCodexOutput output = Throw TypeError
   <-> existsb has_own_toString (collect output) = true)
  /\ ((exists text, parseCodexOutput output = Ok text)
      <-> existsb has_own_toString (collect output) = false)
  /\ (forall e, parseCodexOutput output = Throw e -> e = TypeError).
Proof.
  intros A. unfold parseCodexOutput, join_values.
  pose proof (items_to_strings_flat (collect output) A) as F.
  destruct (existsb has_own_toString (collect output)).
  - rewrite F. cbn. split; [split; reflexivity|]. split.
    + split; [intros [text H]|]; discriminate.
    + intros e [= <-]. reflexivity.
  - destruct F as [l ->]. cbn. split; [split; discriminate|]. split.
    + split; [reflexivity | intros _; eexists; reflexivity].
    + discriminate.
Qed.

Lemma parseCodexOutput_throws_iff_witness :
  parseCodexOutput (output_text_line unprintable) = Throw TypeError
  /\ exists text, parseCodexOutput two_events = Ok text.
Proof.
  split.
  - apply (proj1 (parseCodexOutput_throws_iff (output_text_line unprintable)
                    eq_refl)).
    vm_compute. reflexivity.
  - apply (proj1 (proj2 (parseCodexOutput_throws_iff two_events eq_refl))).
    vm_compute. reflexivity.
Defined.

(** X8.  The result is empty only for the empty input: an output that is
    not empty never parses to the empty string.  So a promise resolved by a
    close event with the empty string means the engine printed nothing at
    all and exited with code 0. *)
Theorem parseCodexOutput_nonempty :
  (forall output text,
      parseCodexOutput output = Ok text -> output <> [] -> text <> [])
  /\ (forall timeout pre post code prompt model done,
        Forall (fun ev => terminal ev = false) pre ->
        fst (executeCodex timeout (pre ++ Close code :: post) prompt model done)
        = Ok (Some (Resolved [])) ->
        stdout_of pre = [] /\ code = Some 0).
Proof.
  assert (P : forall output text,
             parseCodexOutput output = Ok text -> text = [] -> output = []).
  { intros output text H E. unfold parseCodexOutput, exc_map, exc_bind in H.
    destruct (join_values nl (collect output)) as [joined|e]; [|discriminate].
    injection H as H. rewrite E in H.
    destruct joined as [|c j]; [exact H | discriminate]. }
  split.
  - intros output text H N E. apply N. eapply P; eauto.
  - intros timeout pre post code prompt model done Hpre H.
    rewrite executeCodex_run in H. cbn [fst] in H.
    unfold settlement, promise in H.
    destruct (first_terminal_decides timeout pre post (Close code) Hpre eq_refl)
      as (_ & C & _).
    rewrite C, close_first in H by exact Hpre.
    destruct (close_ok code (stdout_of pre)) eqn:K; [|discriminate].
    destruct (parseCodexOutput (stdout_of pre)) as [text|e] eqn:Q;
      [|discriminate].
    injection H as H.
    assert (O : stdout_of pre = []) by (eapply P; eauto).
    split; [exact O|].
    rewrite O in K. unfold close_ok in K.
    destruct code as [[| |]|]; try reflexivity; discriminate.
Qed.

Lemma parseCodexOutput_nonempty_witness :
  parseCodexOutput (message_line (dquote ++ dquote)) <> Ok []
  /\ fst (executeCodex (of_int 5000) [Close (Some 0)] (lit "p") (lit "m") [])
     = Ok (Some (Resolved []))
  /\ stdout_of [] = [] /\ Some 0%Z = Some 0%Z.
Proof.
  split; [|split].
  - intros H.
    apply (proj1 parseCodexOutput_nonempty
             (message_line (dquote ++ dquote)) [] H).
    + vm_compute. discriminate.
    + reflexivity.
  - vm_compute. reflexivity.
  - apply (proj2 parseCodexOutput_nonempty (of_int 5000) [] []
             (Some 0%Z) (lit "p") (lit "m") []).
    + constructor.
    + vm_compute. reflexivity.
Defined.

(** X9.  Events of any other kind are ignored.  The lines are those of
    the trimmed output: when every line of [output.trim()] that decodes is
    an event whose type is neither message nor output_text (or is no object
    at all), nothing is captured and the raw output is returned. *)
Theorem other_events_ignored (output : jsstring) :
  (forall line event,
      In line (split_nl (trim output)) -> JSON_parse line = Ok event ->
      strict_eq_str (prop event (lit "type")) (lit "message") = false
      /\ strict_eq_str (prop event (lit "type")) (lit "output_text") = false) ->
  collect output = [] /\ parseCodexOutput output = Ok output.
Proof.
  intros H.
  assert (F : fragments output = []).
  { unfold fragments. apply flat_map_nil. intros line Hin.
    unfold output_lines in Hin. apply filter_In in Hin as [Hin _].
    unfold line_fragments. destruct (JSON_parse line) as [event|e] eqn:P;
      [|reflexivity].
    destruct (H line event Hin P) as [M O].
    now apply event_fragments_other. }
  split.
  - now rewrite collect_fragments.
  - now rewrite parseCodexOutput_finish, F.
Qed.

Lemma other_events_ignored_witness :
  parseCodexOutput progress_events = Ok progress_events.
Proof.
  apply (other_events_ignored progress_events).
  intros line event Hin P. vm_compute in Hin.
  destruct Hin as [<- | [<- | [<- | [<- | []]]]];
    vm_compute in P; injection P as <-; split; reflexivity.
Defined.

End ParserMore.

(** ** parseCodexOutput on a well-formed event stream *)

Module StreamFacts.
Import Number Json Codex Fragments Samples Stream JsonFacts ParserFacts.

Lemma hex4_low (c : char) :
  (c < 32)%N ->
  hex4 48%N 48%N (hex_digit (c / 16)) (hex_digit (c mod 16)) = Some c.
Proof.
  intros H. destruct c as [|p]; [reflexivity|].
  do 5 (destruct p as [p|p|]; [| |reflexivity]); lia.
Qed.

Lemma parse_chars_escape (c : char) (tail : jsstring) :
  parse_chars (escape_char c ++ tail) = pcons c (parse_chars tail).
Proof.
  unfold escape_char.
  destruct (c =? 34)%N eqn:Q; [apply N.eqb_eq in Q; subst; reflexivity|].
  destruct (c =? 92)%N eqn:B; [apply N.eqb_eq in B; subst; reflexivity|].
  destruct (c <? 32)%N eqn:L.
  - apply N.ltb_lt in L.
    change (parse_chars ([92; 117; 48; 48; hex_digit (c / 16);
                          hex_digit (c mod 16)]%N ++ tail))
      with (match hex4 48%N 48%N (hex_digit (c / 16)) (hex_digit (c mod 16))
            with
            | Some u => pcons u (parse_chars tail)
            | None => PErr
            end).
    now rewrite hex4_low.
  - cbn [app parse_chars]. now rewrite Q, B, L.
Qed.

Lemma parse_chars_literal (s rest : jsstring) :
  parse_chars (flat_map escape_char s ++ 34%N :: rest) = POk s rest.
Proof.
  induction s as [|c s IH]; [reflexivity|].
  cbn [flat_map]. rewrite <- app_assoc, parse_chars_escape, IH. reflexivity.
Qed.

Lemma parse_string_literal (f : nat) (t rest : jsstring) :
  parse_value (S f) (string_literal t ++ rest) = POk (VString t) rest.
Proof.
  unfold string_literal, dquote. rewrite <- !app_assoc. cbn [app].
  rewrite parse_string_S, parse_chars_literal. reflexivity.
Qed.

Lemma eat_here (c : char) (r : jsstring) :
  is_json_ws c = false -> eat c (skip_ws (c :: r)) = Some r.
Proof.
  intros W. cbn [skip_ws]. rewrite W. unfold eat, uncons_if.
  now rewrite N.eqb_refl.
Qed.

Lemma eat_other (c d : char) (r : jsstring) :
  is_json_ws d = false -> (c =? d)%N = false ->
  eat c (skip_ws (d :: r)) = None.
Proof.
  intros W E. cbn [skip_ws]. rewrite W. unfold eat, uncons_if. now rewrite E.
Qed.

(** An object of two members, given how its keys and values parse. *)
Lemma parse_object2 (f : nat) (k1 k2 : string) (v1 v2 : jsstring)
      (x1 x2 : Value) (rest : jsstring) :
  (forall r, parse_chars (lit k1 ++ 34%N :: r) = POk (lit k1) r) ->
  (forall r, parse_chars (lit k2 ++ 34%N :: r) = POk (lit k2) r) ->
  (forall r, parse_value (S f) (v1 ++ r) = POk x1 r) ->
  (forall r, parse_value f (v2 ++ r) = POk x2 r) ->
  parse_value (S (S (S f))) (object2 k1 v1 k2 v2 ++ rest)
  = POk (VObject [(lit k1, x1); (lit k2, x2)]) rest.
Proof.
  intros K1 K2 V1 V2. unfold object2, quoted, dquote.
  change (lit "{") with [123%N]. change (lit ":") with [58%N].
  change (lit ",") with [44%N]. change (lit "}") with [125%N].
  repeat rewrite <- app_assoc. cbn [app].
  rewrite parse_object_S, eat_other by reflexivity.
  rewrite parse_members_S, eat_here, K1, eat_here, V1 by reflexivity.
  rewrite eat_here by reflexivity.
  rewrite parse_members_S, eat_here, K2, eat_here, V2 by reflexivity.
  rewrite eat_other, eat_here by reflexivity.
  reflexivity.
Qed.

Lemma parse_text_part (f : nat) (t rest : jsstring) :
  (4 <= f)%nat ->
  parse_value f (text_part t ++ rest) = POk (part_value t) rest.
Proof.
  intros H. destruct f as [|[|[|[|f]]]]; try lia.
  unfold text_part, part_value.
  apply parse_object2; intros r; try reflexivity.
  apply parse_string_literal.
Qed.

Lemma parse_parts (ts : list jsstring) (f : nat) (rest : jsstring) :
  ts <> [] ->
  parse_elements (List.length ts + (4 + f))%nat
                 (join (lit ",") (List.map text_part ts) ++ 93%N :: rest)
  = POk (List.map part_value ts) rest.
Proof.
  induction ts as [|t r IH]; [congruence|]. intros _.
  destruct r as [|t2 r].
  - cbn [List.map join List.length Nat.add].
    rewrite parse_elements_S, parse_text_part by lia.
    rewrite eat_other, eat_here by reflexivity. reflexivity.
  - change (join (lit ",") (List.map text_part (t :: t2 :: r)))
      with (text_part t ++ [44%N]
            ++ join (lit ",") (List.map text_part (t2 :: r))).
    repeat rewrite <- app_assoc. cbn [app].
    change (List.length (t :: t2 :: r) + (4 + f))%nat
      with (S (List.length (t2 :: r) + (4 + f))%nat).
    rewrite parse_elements_S, parse_text_part by lia.
    rewrite eat_here by reflexivity.
    specialize (IH ltac:(discriminate)).
    match goal with
    | |- match ?x with _ => _ end = _ =>
        replace x with (POk (List.map part_value (t2 :: r)) rest)
          by (symmetry; exact IH)
    end.
    reflexivity.
Qed.

(** Every line of the stream decodes to the event it stands for. *)
Lemma JSON_parse_encode (e : EngineEvent) :
  JSON_parse (encode e) = Ok (value_of e).
Proof.
  destruct e as [t|t|ts].
  - apply (JSON_parse_by_fuel 4). rewrite <- (app_nil_r (encode _)).
    apply parse_object2; intros r; try reflexivity.
    apply parse_string_literal.
  - apply (JSON_parse_by_fuel 4). rewrite <- (app_nil_r (encode _)).
    apply parse_object2; intros r; try reflexivity.
    apply parse_string_literal.
  - apply (JSON_parse_by_fuel (S (S (S (S (List.length ts + (4 + 0))%nat))))).
    rewrite <- (app_nil_r (encode _)).
    apply parse_object2; intros r; try reflexivity.
    change (lit "[") with [91%N]. change (lit "]") with [93%N].
    repeat rewrite <- app_assoc. cbn [app].
    rewrite parse_array_S.
    destruct ts as [|t ts]; [reflexivity|].
    rewrite parse_parts by discriminate.
    replace (eat 93%N _) with (@None jsstring); [reflexivity|].
    destruct ts; reflexivity.
Qed.

Lemma parts_fragments_texts (ts : list jsstring) :
  parts_fragments (List.map part_value ts)
  = List.map VString (filter nonempty ts).
Proof.
  induction ts as [|t r IH]; [reflexivity|].
  cbn [List.map parts_fragments part_value filter].
  change (parts_fragments (List.map part_value r))
    with (parts_fragments (List.map part_value r)).
  fold (part_value t). rewrite IH.
  destruct t; reflexivity.
Qed.

Lemma line_fragments_encode (e : EngineEvent) :
  line_fragments (encode e) = List.map VString (texts_of e).
Proof.
  unfold line_fragments. rewrite JSON_parse_encode.
  destruct e as [t|t|ts]; cbn [value_of texts_of].
  - rewrite event_fragments_output_text by reflexivity.
    destruct t; reflexivity.
  - rewrite (event_fragments_message_string _ t) by reflexivity.
    destruct t; reflexivity.
  - rewrite (event_fragments_message_parts _ (List.map part_value ts))
      by reflexivity.
    apply parts_fragments_texts.
Qed.

(** *** The lines of the stream *)

Lemma no_nl_app (a b : jsstring) : no_nl (a ++ b) = no_nl a && no_nl b.
Proof. apply forallb_app. Qed.

Lemma no_nl_escape (c : char) : no_nl (escape_char c) = true.
Proof.
  unfold escape_char.
  destruct (c =? 34)%N; [reflexivity|].
  destruct (c =? 92)%N; [reflexivity|].
  destruct (c <? 32)%N eqn:L.
  - assert (H : forall n, negb (hex_digit n =? 10)%N = true).
    { intros n. unfold hex_digit. apply Bool.negb_true_iff, N.eqb_neq.
      destruct (n <? 10)%N; lia. }
    cbn [no_nl forallb]. rewrite !H. reflexivity.
  - cbn [no_nl forallb]. rewrite Bool.andb_true_r.
    apply Bool.negb_true_iff, N.eqb_neq. apply N.ltb_ge in L. lia.
Qed.

Lemma no_nl_literal (t : jsstring) : no_nl (string_literal t) = true.
Proof.
  unfold string_literal. rewrite !no_nl_app.
  assert (H : no_nl (flat_map escape_char t) = true).
  { induction t as [|c t IH]; [reflexivity|].
    cbn [flat_map]. now rewrite no_nl_app, no_nl_escape, IH. }
  now rewrite H.
Qed.

Lemma no_nl_object2 (k1 k2 : string) (v1 v2 : jsstring) :
  no_nl (lit k1) = true -> no_nl (lit k2) = true ->
  no_nl v1 = true -> no_nl v2 = true ->
  no_nl (object2 k1 v1 k2 v2) = true.
Proof.
  intros K1 K2 V1 V2. unfold object2, quoted.
  rewrite !no_nl_app, K1, K2, V1, V2. reflexivity.
Qed.

Lemma no_nl_parts (ts : list jsstring) :
  no_nl (join (lit ",") (List.map text_part ts)) = true.
Proof.
  assert (P : forall t, no_nl (text_part t) = true).
  { intros t. apply no_nl_object2; try reflexivity. apply no_nl_literal. }
  induction ts as [|t r IH]; [reflexivity|].
  destruct r as [|t2 r]; [apply P|].
  change (join (lit ",") (List.map text_part (t :: t2 :: r)))
    with (text_part t ++ lit ","
          ++ join (lit ",") (List.map text_part (t2 :: r))).
  now rewrite !no_nl_app, P, IH.
Qed.

Lemma no_nl_encode (e : EngineEvent) : no_nl (encode e) = true.
Proof.
  destruct e as [t|t|ts]; apply no_nl_object2; try reflexivity;
    try apply no_nl_literal.
  rewrite !no_nl_app, no_nl_parts. reflexivity.
Qed.

Lemma trimmed_object2 (k1 k2 : string) (v1 v2 : jsstring) :
  trimmed (object2 k1 v1 k2 v2) = true.
Proof.
  assert (E : object2 k1 v1 k2 v2
              = 123%N :: (quoted k1 ++ lit ":" ++ v1 ++ lit "," ++ quoted k2
                          ++ lit ":" ++ v2) ++ [125%N]).
  { unfold object2. change (lit "{") with [123%N].
    change (lit "}") with [125%N].
    cbn [app]. f_equal. repeat rewrite <- app_assoc. reflexivity. }
  rewrite E. unfold trimmed. cbn [hd].
  rewrite app_comm_cons, last_last. reflexivity.
Qed.

Lemma trimmed_encode (e : EngineEvent) : trimmed (encode e) = true.
Proof. destruct e; apply trimmed_object2. Qed.

Lemma trimmed_nonempty (s : jsstring) : trimmed s = true -> s <> [].
Proof. intros H ->. discriminate. Qed.

Lemma trimEnd_snoc (s : jsstring) (c : char) :
  is_white_space c = false -> trimEnd (s ++ [c]) = s ++ [c].
Proof.
  intros H. unfold trimEnd. rewrite rev_app_distr.
  cbn [rev app trimStart]. rewrite H. cbn [rev].
  now rewrite rev_involutive.
Qed.

Lemma trim_trimmed (s : jsstring) : trimmed s = true -> trim s = s.
Proof.
  intros H. pose proof (trimmed_nonempty s H) as N.
  unfold trimmed in H. apply Bool.andb_true_iff in H as [A B].
  apply Bool.negb_true_iff in A, B.
  unfold trim.
  assert (S : trimStart s = s).
  { destruct s as [|c r]; [congruence|]. cbn [hd] in A. cbn [trimStart].
    now rewrite A. }
  rewrite S.
  destruct (exists_last N) as (body & d & E). rewrite E in B |- *.
  rewrite last_last in B. now apply trimEnd_snoc.
Qed.

Lemma last_app_nonempty (a b : jsstring) (d : char) :
  b <> [] -> last (a ++ b) d = last b d.
Proof.
  intros N. induction a as [|c a IH]; [reflexivity|].
  cbn [app]. destruct (a ++ b) eqn:E.
  - destruct a; [cbn in E; congruence | discriminate].
  - rewrite <- IH. reflexivity.
Qed.

Lemma trimmed_join (lines : list jsstring) :
  lines <> [] -> Forall (fun l => trimmed l = true) lines ->
  trimmed (join nl lines) = true.
Proof.
  intros N F. induction F as [|x r Hx Fr IH]; [congruence|].
  destruct r as [|y r]; [exact Hx|].
  specialize (IH ltac:(discriminate)).
  change (join nl (x :: y :: r)) with (x ++ nl ++ join nl (y :: r)).
  pose proof (trimmed_nonempty _ IH) as NJ.
  pose proof (trimmed_nonempty _ Hx) as NX.
  unfold trimmed in *.
  apply Bool.andb_true_iff in Hx as [A _].
  apply Bool.andb_true_iff in IH as [_ B].
  rewrite app_assoc, last_app_nonempty by exact NJ. rewrite B.
  destruct x as [|c x]; [congruence|]. cbn [app hd] in *. now rewrite A.
Qed.

Lemma split_nl_line (s r : jsstring) :
  no_nl s = true -> split_nl (s ++ 10%N :: r) = s :: split_nl r.
Proof.
  induction s as [|c s IH]; intros H; [reflexivity|].
  cbn [no_nl forallb] in H. apply Bool.andb_true_iff in H as [C H].
  apply Bool.negb_true_iff in C.
  cbn [app split_nl]. rewrite C, (IH H). reflexivity.
Qed.

Lemma split_nl_last (s : jsstring) : no_nl s = true -> split_nl s = [s].
Proof.
  induction s as [|c s IH]; intros H; [reflexivity|].
  cbn [no_nl forallb] in H. apply Bool.andb_true_iff in H as [C H].
  apply Bool.negb_true_iff in C.
  cbn [split_nl]. rewrite C, (IH H). reflexivity.
Qed.

Lemma split_nl_join (lines : list jsstring) :
  lines <> [] -> Forall (fun l => no_nl l = true) lines ->
  split_nl (join nl lines) = lines.
Proof.
  intros N F. induction F as [|x r Hx Fr IH]; [congruence|].
  destruct r as [|y r]; [now apply split_nl_last|].
  change (join nl (x :: y :: r)) with (x ++ 10%N :: join nl (y :: r)).
  rewrite split_nl_line by exact Hx. rewrite IH by discriminate. reflexivity.
Qed.

(** Texts without line feeds and without white space at either end,
    written one a line, are the lines the parser sees. *)
Lemma output_lines_join (texts : list jsstring) :
  Forall (fun l => trimmed l = true) texts ->
  Forall (fun l => no_nl l = true) texts ->
  output_lines (join nl texts) = texts.
Proof.
  intros T L. destruct texts as [|t texts]; [reflexivity|].
  unfold output_lines.
  rewrite trim_trimmed by (apply trimmed_join; [discriminate | exact T]).
  rewrite split_nl_join by (discriminate || exact L).
  clear L. induction T as [|x r Hx Fr IH]; [reflexivity|].
  cbn [filter]. rewrite (trim_trimmed x Hx).
  pose proof (trimmed_nonempty x Hx).
  destruct x; [congruence|]. cbn [nonempty]. now rewrite IH.
Qed.

Lemma fragments_jsonl (lines : list Line) :
  (forall text, In (Other text) lines ->
                trimmed text = true /\ no_nl text = true
                /\ line_fragments text = []) ->
  fragments (jsonl lines) = List.map VString (flat_map line_texts lines).
Proof.
  intros H. unfold fragments, jsonl. rewrite output_lines_join.
  - induction lines as [|l r IH]; [reflexivity|].
    cbn [List.map flat_map]. rewrite IH, map_app
      by (intros text Hin; apply H; now right).
    f_equal. destruct l as [e|text]; cbn [line_text line_texts].
    + apply line_fragments_encode.
    + now apply H; left.
  - apply Forall_forall. intros t Ht. apply in_map_iff in Ht as (l & <- & Hl).
    destruct l as [e|text]; [apply trimmed_encode | now apply H].
  - apply Forall_forall. intros t Ht. apply in_map_iff in Ht as (l & <- & Hl).
    destruct l as [e|text]; [apply no_nl_encode | now apply H].
Qed.

(** X10.  Reading back an event stream.  Take any list of lines, each an
    event (a message with a string content, a message with text parts, or
    an output_text) printed as one JSON object with every string as a JSON
    string literal, or some other text: one without a line feed and
    without white space at either end, from which nothing is captured
    (it does not decode, or decodes to something that is no such event).
    Then [parseCodexOutput] returns the non-empty texts of the events, in
    order, joined by line feeds: the other lines are skipped wherever they
    stand, and line feeds, quotation marks and control characters inside a
    text come back unchanged.  When no event carries a non-empty text it
    returns the stream itself. *)
Theorem parseCodexOutput_jsonl (lines : list Line) :
  (forall text, In (Other text) lines ->
                trimmed text = true /\ no_nl text = true
                /\ line_fragments text = []) ->
  parseCodexOutput (jsonl lines)
  = Ok (match flat_map line_texts lines with
        | [] => jsonl lines
        | texts => join nl texts
        end).
Proof.
  intros H. pose proof (fragments_jsonl lines H) as F.
  destruct (flat_map line_texts lines) as [|t texts] eqn:E.
  - rewrite parseCodexOutput_finish, F. reflexivity.
  - apply parseCodexOutput_strings; [exact F | discriminate].
Qed.

Lemma parseCodexOutput_jsonl_witness :
  parseCodexOutput
    (jsonl [Other (lit "Thinking {hard}...");
            Printed (MessageParts [lit "a"; []; [34; 10; 7; 92]%N]);
            Other (lit "[1,2]");
            Printed (MessageText []);
            Printed (OutputText (lit "b"))])
  = Ok (lit "a" ++ nl ++ [34; 10; 7; 92]%N ++ nl ++ lit "b").
Proof.
  apply (parseCodexOutput_jsonl
           [Other (lit "Thinking {hard}...");
            Printed (MessageParts [lit "a"; []; [34; 10; 7; 92]%N]);
            Other (lit "[1,2]");
            Printed (MessageText []);
            Printed (OutputText (lit "b"))]).
  intros text [H | [H | [H | [H | [H | []]]]]]; try discriminate;
    injection H as <-; vm_compute; repeat split; reflexivity.
Defined.

End StreamFacts.

(** ** CODEX_TIMEOUT: the value an override gives *)

Module TimeoutMore.
Import Number Json Codex Expected NumberFacts.

Lemma clamp_exact (z : Z) :
  Number.min
    (Number.max (of_int 5000)
       (if Number.truthy (of_Z z) then of_Z z else of_int 180000))
    (of_int 600000)
  = Fin (clamp_value z) 0.
Proof.
  unfold of_Z, clamp_value.
  destruct (Z.abs z <? 2 ^ 53) eqn:Hsmall.
  - cbn [Number.truthy]. destruct (z =? 0) eqn:Hz0; cbn [negb];
      [reflexivity|].
    unfold Number.max, of_int. cbn [Number.compare]. rewrite cmp_fin_int.
    destruct (Z.compare_spec 5000 z) as [C1 | C1 | C1].
    + subst z. reflexivity.
    + unfold Number.min. cbn [Number.compare]. rewrite cmp_fin_int.
      destruct (Z.compare_spec z 600000) as [C2 | C2 | C2]; f_equal; lia.
    + unfold Number.min. cbn [Number.compare]. rewrite cmp_fin_int.
      change (5000 ?= 600000) with Lt. cbv iota. f_equal. lia.
  - apply Z.ltb_ge in Hsmall.
    assert (H53 : 0 < 2 ^ 53) by (apply pow2_pos; lia).
    assert (H52 : 0 < 2 ^ 52) by (apply pow2_pos; lia).
    assert (B : 600000 < 2 ^ 53) by (vm_compute; reflexivity).
    unfold of_ratio.
    replace (z =? 0) with false by (symmetry; apply Z.eqb_neq; lia).
    destruct (z <? 0) eqn:Hneg.
    + apply Z.ltb_lt in Hneg.
      replace (Z.min (Z.max 5000 z) 600000) with 5000 by lia.
      destruct (round_pos_large (- z)) as [E | (m & q & E & Hq & Hm)];
        [lia | rewrite E .. ].
      * reflexivity.
      * cbn [neg Number.truthy].
        replace (- m =? 0) with false by (symmetry; apply Z.eqb_neq; lia).
        cbn [negb]. unfold Number.max, of_int. cbn [Number.compare].
        rewrite cmp_large_small by (try assumption; lia).
        reflexivity.
    + apply Z.ltb_ge in Hneg.
      replace (Z.min (Z.max 5000 z) 600000) with 600000 by lia.
      destruct (round_pos_large z) as [E | (m & q & E & Hq & Hm)];
        [lia | rewrite E .. ].
      * reflexivity.
      * cbn [Number.truthy].
        replace (m =? 0) with false by (symmetry; apply Z.eqb_neq; lia).
        cbn [negb]. unfold Number.max, of_int. cbn [Number.compare].
        rewrite cmp_small_large by (try assumption; lia).
        unfold Number.min. cbn [Number.compare].
        replace (cmp_fin m q 600000 0) with Gt; [reflexivity|].
        symmetry. unfold cmp_fin.
        replace (Z.min q 0) with 0 by lia.
        rewrite Z.sub_diag, Z.sub_0_r. simpl (2 ^ 0). rewrite Z.mul_1_r.
        apply Z.compare_gt_iff.
        assert (2 ^ 1 <= 2 ^ q) by (apply Z.pow_le_mono_r; lia).
        change (2 ^ 1) with 2 in *.
        assert (2 ^ 52 * 2 <= m * 2 ^ q)
          by (apply Z.mul_le_mono_nonneg; lia).
        change (2 ^ 53) with (2 ^ 52 * 2) in B. lia.
Qed.

Lemma digit_not_white_space (c : char) :
  is_digit c = true -> is_white_space c = false.
Proof.
  unfold is_digit. intros H. apply Bool.andb_true_iff in H as [L U].
  apply N.leb_le in L, U. unfold is_white_space.
  repeat match goal with
         | |- context [(c =? ?b)%N] =>
             replace (c =? b)%N with false by (symmetry; apply N.eqb_neq; lia)
         end.
  replace (c <=? 13)%N with false by (symmetry; apply N.leb_gt; lia).
  replace (8192 <=? c)%N with false by (symmetry; apply N.leb_gt; lia).
  now rewrite Bool.andb_false_r.
Qed.

Lemma trimStart_white_space (ws s : jsstring) :
  forallb is_white_space ws = true -> trimStart (ws ++ s) = trimStart s.
Proof.
  induction ws as [|c ws IH]; intros H; [reflexivity|].
  cbn [forallb] in H. apply Bool.andb_true_iff in H as [C H].
  cbn [app trimStart]. rewrite C. now apply IH.
Qed.

Lemma span_digits_app (ds rest : jsstring) :
  forallb is_digit ds = true -> uncons_if is_digit rest = None ->
  span_digits (ds ++ rest) = (ds, rest).
Proof.
  intros D R. induction ds as [|c ds IH].
  - destruct rest as [|c r]; [reflexivity|].
    cbn [app span_digits]. cbn [uncons_if] in R.
    destruct (is_digit c); [discriminate | reflexivity].
  - cbn [forallb] in D. apply Bool.andb_true_iff in D as [C D].
    cbn [app span_digits]. rewrite C, (IH D). reflexivity.
Qed.

(** [parseInt] of white space, an optional sign, digits and anything that
    does not go on with a digit. *)
Lemma parseInt10_digits (ws : jsstring) (sg : Sign) (ds rest : jsstring) :
  forallb is_white_space ws = true ->
  ds <> [] -> forallb is_digit ds = true ->
  uncons_if is_digit rest = None ->
  parseInt10 (ws ++ sign_text sg ++ ds ++ rest)
  = of_Z (signed sg (digits_val ds)).
Proof.
  intros W N D R. unfold parseInt10.
  rewrite trimStart_white_space by exact W.
  destruct ds as [|c ds]; [congruence|].
  assert (C : is_digit c = true)
    by (cbn [forallb] in D; now apply Bool.andb_true_iff in D as [C _]).
  pose proof (digit_not_white_space c C) as NW.
  assert (E45 : (45 =? c)%N = false).
  { apply N.eqb_neq. unfold is_digit in C.
    apply Bool.andb_true_iff in C as [L U]. apply N.leb_le in L. lia. }
  assert (E43 : (43 =? c)%N = false).
  { apply N.eqb_neq. unfold is_digit in C.
    apply Bool.andb_true_iff in C as [L U]. apply N.leb_le in L. lia. }
  pose proof (span_digits_app (c :: ds) rest D R) as SP. cbn [app] in SP.
  destruct sg; cbn [sign_text signed app].
  - cbn [trimStart]. rewrite NW. unfold eat, uncons_if. rewrite E45, E43.
    unfold digits1. rewrite SP. reflexivity.
  - change (lit "+") with [43%N]. cbn [app trimStart].
    change (is_white_space 43%N) with false. cbv beta iota.
    change (eat 45%N (43%N :: c :: ds ++ rest)) with (@None jsstring).
    change (eat 43%N (43%N :: c :: ds ++ rest))
      with (Some (c :: ds ++ rest)).
    cbv beta iota. unfold digits1. rewrite SP. reflexivity.
  - change (lit "-") with [45%N]. cbn [app trimStart].
    change (is_white_space 45%N) with false. cbv beta iota.
    change (eat 45%N (45%N :: c :: ds ++ rest))
      with (Some (c :: ds ++ rest)).
    cbv beta iota. unfold digits1. rewrite SP. reflexivity.
Qed.

(** X11.  The override is read as [parseInt] reads it and then clamped.
    When OMC_CODEX_TIMEOUT holds optional white space, an optional sign, one
    or more decimal digits and then anything that does not go on with a
    digit (a fraction, a unit, nothing), CODEX_TIMEOUT is the integer the
    digits spell with that sign, raised to 5000 or lowered to 600000 when it
    is outside the interval, however many digits there are; except that 0
    gives the default 180000. *)
Theorem CODEX_TIMEOUT_of_digits (m : option jsstring) (ws : jsstring)
        (sg : Sign) (ds rest : jsstring) :
  forallb is_white_space ws = true ->
  ds <> [] -> forallb is_digit ds = true ->
  uncons_if is_digit rest = None ->
  CODEX_TIMEOUT {| OMC_CODEX_DEFAULT_MODEL := m;
                   OMC_CODEX_TIMEOUT := Some (ws ++ sign_text sg ++ ds ++ rest) |}
  = Fin (clamp_value (signed sg (digits_val ds))) 0.
Proof.
  intros W N D R. unfold CODEX_TIMEOUT, num_or.
  cbn [OMC_CODEX_TIMEOUT env_or].
  assert (NE : nonempty (ws ++ sign_text sg ++ ds ++ rest) = true).
  { destruct ws; [|reflexivity]. destruct sg; cbn [sign_text app];
      try reflexivity; destruct ds; congruence || reflexivity. }
  rewrite NE, parseInt10_digits by assumption.
  apply clamp_exact.
Qed.

Lemma CODEX_TIMEOUT_of_digits_witness :
  CODEX_TIMEOUT {| OMC_CODEX_DEFAULT_MODEL := None;
                   OMC_CODEX_TIMEOUT := Some (lit " 7000.9") |} = Fin 7000 0
  /\ CODEX_TIMEOUT {| OMC_CODEX_DEFAULT_MODEL := None;
                      OMC_CODEX_TIMEOUT := Some (lit "-1ms") |} = Fin 5000 0.
Proof.
  split.
  - apply (CODEX_TIMEOUT_of_digits None (lit " ") NoSign (lit "7000") (lit ".9"));
      try reflexivity.
    discriminate.
  - apply (CODEX_TIMEOUT_of_digits None [] Minus (lit "1") (lit "ms"));
      try reflexivity.
    discriminate.
Defined.

End TimeoutMore.

(** ** validateAndReadFile: the file system calls and the size cap *)

Module FileMore.
Import Number Json Codex Expected NumberFacts FileFacts.

(** What the function does, case by case, from any log. *)
Lemma validateAndReadFile_cases (fsys : FileSystem) (path : jsstring)
      (done : list Effect) :
  validateAndReadFile fsys (VString path) done
  = match resolve fsys path with
    | Throw _ => (Ok (file_header path ++ lit " (Error reading file)"), done)
    | Ok resolved =>
        match statSync fsys resolved with
        | Throw _ =>
            (Ok (file_header path ++ lit " (Error reading file)"),
             done ++ [FsStat resolved])
        | Ok st =>
            if negb (isFile st) then
              (Ok (file_header path ++ lit " (Not a regular file)"),
               done ++ [FsStat resolved])
            else if gtb (size st) (of_int MAX_FILE_SIZE) then
              (Ok (too_large_block path (size st)), done ++ [FsStat resolved])
            else
              match readFileSync fsys resolved with
              | Ok content =>
                  (Ok (file_header path ++ nl ++ content),
                   done ++ [FsStat resolved; FsRead resolved])
              | Throw _ =>
                  (Ok (file_header path ++ lit " (Error reading file)"),
                   done ++ [FsStat resolved; FsRead resolved])
              end
        end
    end.
Proof.
  unfold validateAndReadFile, try_catch, bind, lift, log, update, ret.
  destruct (resolve fsys path) as [resolved|e]; [|reflexivity].
  destruct (statSync fsys resolved) as [st|e]; [|reflexivity].
  destruct (isFile st); cbn [negb]; [|reflexivity].
  destruct (gtb (size st) (of_int MAX_FILE_SIZE)); [reflexivity|].
  destruct (readFileSync fsys resolved) as [content|e];
    rewrite <- app_assoc; reflexivity.
Qed.

(** The log a call starts from changes neither its result nor the calls it
    makes. *)
Lemma validateAndReadFile_frame (fsys : FileSystem) (v : Value)
      (done : list Effect) :
  validateAndReadFile fsys v done
  = (fst (validateAndReadFile fsys v []),
     done ++ snd (validateAndReadFile fsys v [])).
Proof.
  destruct v as [| |b|n|path|items|props];
    try (unfold validateAndReadFile, bind, lift, ret;
         match goal with
         | |- context [to_string ?x] => destruct (to_string x)
         end; cbn [fst snd]; now rewrite app_nil_r).
  rewrite (validateAndReadFile_cases fsys path done).
  rewrite (validateAndReadFile_cases fsys path []).
  destruct (resolve fsys path) as [resolved|e];
    [|cbn [fst snd]; now rewrite app_nil_r].
  destruct (statSync fsys resolved) as [st|e]; [|reflexivity].
  destruct (negb (isFile st)); [reflexivity|].
  destruct (gtb (size st) (of_int MAX_FILE_SIZE)); [reflexivity|].
  destruct (readFileSync fsys resolved); reflexivity.
Qed.

Lemma non_string_calls (fsys : FileSystem) (v : Value) (done : list Effect) :
  is_string v = false -> snd (validateAndReadFile fsys v done) = done.
Proof.
  intros N. rewrite validateAndReadFile_frame. cbn [snd].
  destruct v; try discriminate;
    unfold validateAndReadFile, bind, lift, ret;
    match goal with
    | |- context [to_string ?x] => destruct (to_string x)
    end; cbn [snd]; apply app_nil_r.
Qed.

(** X12.  The file system calls of one context file.  Whatever the path
    and whatever the file system answers, the function makes no call at
    all, or one [statSync], or one [statSync] followed by one
    [readFileSync] of the same resolved path; calls already logged are kept.
    It reads only a path that is a string, that [path.resolve] mapped to
    the path read, and that [statSync] reported as a regular file whose
    size is not above the cap. *)
Theorem file_system_calls (fsys : FileSystem) (v : Value)
        (done : list Effect) :
  exists effects,
    snd (validateAndReadFile fsys v done) = done ++ effects
    /\ (effects = []
        \/ (exists r, effects = [FsStat r])
        \/ (exists r, effects = [FsStat r; FsRead r]))
    /\ (forall r,
          In (FsRead r) effects ->
          exists path st,
            v = VString path
            /\ resolve fsys path = Ok r
            /\ statSync fsys r = Ok st
            /\ isFile st = true
            /\ gtb (size st) (of_int MAX_FILE_SIZE) = false).
Proof.
  exists (snd (validateAndReadFile fsys v [])).
  split; [now rewrite validateAndReadFile_frame|].
  destruct v as [| |b|n|path|items|props];
    try (rewrite non_string_calls by reflexivity;
         split; [now left | intros r []]).
  rewrite (validateAndReadFile_cases fsys path []).
  destruct (resolve fsys path) as [resolved|e] eqn:R;
    [|cbn [snd]; split; [now left | intros r []]].
  assert (One : forall r : jsstring,
             In (FsRead r) [FsStat resolved] -> False).
  { intros r [H | []]. discriminate. }
  destruct (statSync fsys resolved) as [st|e] eqn:S;
    [|cbn [snd app]; split;
      [right; left; now exists resolved | intros r H; destruct (One r H)]].
  destruct (isFile st) eqn:F; cbn [negb];
    [|cbn [snd app]; split;
      [right; left; now exists resolved | intros r H; destruct (One r H)]].
  destruct (gtb (size st) (of_int MAX_FILE_SIZE)) eqn:G;
    [cbn [snd app]; split;
     [right; left; now exists resolved | intros r H; destruct (One r H)]|].
  assert (Two : forall r : jsstring,
             In (FsRead r) [FsStat resolved; FsRead resolved] ->
             exists path0 st0,
               VString path = VString path0
               /\ resolve fsys path0 = Ok r
               /\ statSync fsys r = Ok st0
               /\ isFile st0 = true
               /\ gtb (size st0) (of_int MAX_FILE_SIZE) = false).
  { intros r [H | [H | []]]; [discriminate|].
    injection H as <-. exists path, st. auto. }
  destruct (readFileSync fsys resolved); cbn [snd app]; split;
    try (right; right; now exists resolved); exact Two.
Qed.

Lemma gtb_cap (z : Z) :
  0 <= z -> gtb (of_Z z) (of_int MAX_FILE_SIZE) = (MAX_FILE_SIZE <? z).
Proof.
  intros Hz. unfold of_Z.
  destruct (Z.abs z <? 2 ^ 53) eqn:Hsmall; [apply gtb_int|].
  apply Z.ltb_ge in Hsmall.
  assert (H53 : 0 < 2 ^ 53) by (apply pow2_pos; lia).
  assert (B : MAX_FILE_SIZE < 2 ^ 53) by (vm_compute; reflexivity).
  replace (MAX_FILE_SIZE <? z) with true by (symmetry; apply Z.ltb_lt; lia).
  unfold of_ratio.
  replace (z =? 0) with false by (symmetry; apply Z.eqb_neq; lia).
  replace (z <? 0) with false by (symmetry; apply Z.ltb_ge; lia).
  destruct (round_pos_large z) as [E | (m & q & E & Hq & Hm)];
    [lia | rewrite E .. ].
  - reflexivity.
  - unfold gtb, ltb, of_int. cbn [Number.compare].
    now rewrite cmp_small_large.
Qed.

(** X13.  The cap is inclusive and counted in bytes.  For a regular file
    of [z] bytes the content is read exactly when [z] is at most 5242880:
    a file of exactly 5 MiB is included in full (or gets the error block
    when reading it throws), and one byte more gives the too-large block
    after the one [statSync]. *)
Theorem size_cap_inclusive (fsys : FileSystem) (path resolved : jsstring)
        (st : Stats) (z : Z) (done : list Effect) :
  resolve fsys path = Ok resolved ->
  statSync fsys resolved = Ok st ->
  isFile st = true ->
  size st = of_Z z -> 0 <= z ->
  validateAndReadFile fsys (VString path) done
  = if z <=? 5242880 then
      (Ok (match readFileSync fsys resolved with
           | Ok content => file_header path ++ nl ++ content
           | Throw _ => file_header path ++ lit " (Error reading file)"
           end),
       done ++ [FsStat resolved; FsRead resolved])
    else
      (Ok (too_large_block path (size st)), done ++ [FsStat resolved]).
Proof.
  intros R S F Z Hz.
  rewrite validateAndReadFile_cases, R, S, F, Z, gtb_cap by exact Hz.
  cbn [negb]. change MAX_FILE_SIZE with 5242880.
  rewrite Z.leb_antisym.
  destruct (5242880 <? z); cbn [negb]; [reflexivity|].
  destruct (readFileSync fsys resolved); reflexivity.
Qed.

Lemma size_cap_inclusive_witness :
  validateAndReadFile
    {| resolve := fun p => Ok (lit "/work/" ++ p);
       statSync := fun _ => Ok {| isFile := true; size := of_Z 5242880 |};
       readFileSync := fun _ => Ok (lit "data") |}
    (VString (lit "a.bin")) []
  = (Ok (lit "--- File: a.bin ---" ++ nl ++ lit "data"),
     [FsStat (lit "/work/a.bin"); FsRead (lit "/work/a.bin")]).
Proof.
  apply (size_cap_inclusive
           {| resolve := fun p => Ok (lit "/work/" ++ p);
              statSync := fun _ => Ok {| isFile := true; size := of_Z 5242880 |};
              readFileSync := fun _ => Ok (lit "data") |}
           (lit "a.bin") (lit "/work/a.bin")
           {| isFile := true; size := of_Z 5242880 |} 5242880 []);
    try reflexivity.
  lia.
Defined.

End FileMore.

(** ** handleAskCodex: rejections, and the run of an accepted request *)

Module HandlerMore.
Import Number Json Codex Expected Samples ExecuteFacts FileMore.

Lemma str_eqb_eq (a b : jsstring) : str_eqb a b = true <-> a = b.
Proof.
  unfold str_eqb. destruct (list_eq_dec N.eq_dec a b); split; congruence.
Qed.

(** The role check is membership in the allow-list. *)
Lemma valid_role_iff (role : jsstring) :
  valid_role role = true <-> In role CODEX_VALID_ROLES.
Proof.
  unfold valid_role. rewrite Bool.andb_true_iff, existsb_exists. split.
  - intros [_ (x & Hx & E)]. apply str_eqb_eq in E. now subst.
  - intros H. split.
    + cbn in H. destruct H as [<- | [<- | [<- | [<- | [<- | []]]]]];
        reflexivity.
    + exists role. split; [exact H | now apply str_eqb_eq].
Qed.

(** X14.  A role outside the allow-list (the empty role included) is
    answered by the failure response that quotes the role and lists the five
    roles, before anything else is done: no CLI detection, no prompt
    lookup, no file system call and no process. *)
Theorem invalid_role_rejected (env : Env) (w : World) (a : Args)
        (done : list Effect) :
  ~ In (agent_role a) CODEX_VALID_ROLES ->
  handleAskCodex env w a done
  = (Ok (Some {| text :=
                   lit "Invalid agent_role: " ++ dquote ++ agent_role a
                   ++ dquote
                   ++ lit ". Codex requires one of: architect, planner, critic, code-reviewer, security-reviewer";
                 isError := true |}),
     done).
Proof.
  intros H. unfold handleAskCodex.
  destruct (valid_role (agent_role a)) eqn:V.
  - apply valid_role_iff in V. contradiction.
  - reflexivity.
Qed.

Lemma invalid_role_rejected_witness :
  handleAskCodex no_env (sample_world [Close (Some 0)])
                 (request "executor" [VString (lit "a.txt")]) []
  = (Ok (Some (failure
                 (lit "Invalid agent_role: " ++ quoted "executor"
                  ++ lit ". Codex requires one of: architect, planner, critic, code-reviewer, security-reviewer"))),
     []).
Proof.
  apply (invalid_role_rejected no_env (sample_world [Close (Some 0)])
           (request "executor" [VString (lit "a.txt")]) []).
  cbn. intros [H | [H | [H | [H | [H | []]]]]]; discriminate.
Defined.

(** A path that is a string always gets a block. *)
Lemma string_path_block (fsys : FileSystem) (path : jsstring) :
  fst (validateAndReadFile fsys (VString path) []) = Ok (block_of fsys path).
Proof.
  unfold block_of. rewrite validateAndReadFile_cases.
  destruct (resolve fsys path) as [resolved|e]; [|reflexivity].
  destruct (statSync fsys resolved) as [st|e]; [|reflexivity].
  destruct (negb (isFile st)); [reflexivity|].
  destruct (gtb (size st) (of_int MAX_FILE_SIZE)); [reflexivity|].
  destruct (readFileSync fsys resolved); reflexivity.
Qed.

(** The files are handled one by one in the order given; each block and
    each file's calls are what the file alone would give. *)
Lemma map_string_paths (fsys : FileSystem) (paths : list jsstring)
      (done : list Effect) :
  map_st (validateAndReadFile fsys) (List.map VString paths) done
  = (Ok (List.map (block_of fsys) paths),
     done ++ flat_map (calls_of fsys) paths).
Proof.
  revert done. induction paths as [|p r IH]; intros done.
  - cbn. now rewrite app_nil_r.
  - cbn [List.map map_st flat_map]. unfold bind at 1.
    rewrite validateAndReadFile_frame, string_path_block.
    unfold bind at 1. rewrite IH. unfold ret, calls_of.
    now rewrite <- app_assoc.
Qed.

Lemma calls_are_file_calls (fsys : FileSystem) (v : Value) :
  forallb file_call (snd (validateAndReadFile fsys v [])) = true.
Proof.
  destruct v as [| |b|n|path|items|props];
    try (rewrite non_string_calls by reflexivity; reflexivity).
  rewrite validateAndReadFile_cases.
  destruct (resolve fsys path) as [resolved|e]; [|reflexivity].
  destruct (statSync fsys resolved) as [st|e]; [|reflexivity].
  destruct (negb (isFile st)); [reflexivity|].
  destruct (gtb (size st) (of_int MAX_FILE_SIZE)); [reflexivity|].
  destruct (readFileSync fsys resolved); reflexivity.
Qed.

(** Mapping over any list of values, strings or not, makes file system
    calls only, and extends the log. *)
Lemma map_files_calls (fsys : FileSystem) (files : list Value)
      (done : list Effect) :
  exists effects,
    snd (map_st (validateAndReadFile fsys) files done) = done ++ effects
    /\ forallb file_call effects = true.
Proof.
  revert done. induction files as [|f r IH]; intros done.
  - exists []. cbn. now rewrite app_nil_r.
  - cbn [map_st]. unfold bind at 1. rewrite validateAndReadFile_frame.
    pose proof (calls_are_file_calls fsys f) as C.
    destruct (fst (validateAndReadFile fsys f [])) as [block|e].
    + destruct (IH (done ++ snd (validateAndReadFile fsys f [])))
        as (effects & E & F).
      exists (snd (validateAndReadFile fsys f []) ++ effects).
      unfold bind at 1.
      destruct (map_st (validateAndReadFile fsys) r
                       (done ++ snd (validateAndReadFile fsys f [])))
        as [[blocks|e] st']; cbn [snd] in E |- *; subst st';
        rewrite <- app_assoc, forallb_app, C, F; split; reflexivity.
    + exists (snd (validateAndReadFile fsys f [])). cbn [snd].
      split; [reflexivity | exact C].
Qed.

(** X15.  The run of an accepted request.  With a role of the allow-list,
    the CLI detected and at most 20 context files, all given as strings
    (or none given), the handler never throws and does, in this order:
    [detectCodexCli()], [resolveSystemPrompt()] for the role, for each file
    in the order given the file system calls that file alone needs, then
    one call of spawn for codex with the arguments exec, -m, the model,
    --json, --full-auto, and, when that call returns a child, one write of
    the prompt that [buildPromptWithSystemContext] builds from the user
    prompt, the blocks joined by an empty line (no file context at all
    without files) and the system prompt.  The model is the one of the
    request, or else the default.  The response is the resolved text as a
    success, the rejection message behind the prefix Codex CLI error as a
    failure, and none while the promise is pending.  When the call of spawn
    throws, as it does for a model that holds a NUL character, nothing is
    written to stdin and the response is, whatever the events that follow,
    the failure that carries the message of the error thrown. *)
Theorem accepted_request (env : Env) (w : World) (a : Args)
        (paths : list jsstring) (done : list Effect) :
  valid_role (agent_role a) = true ->
  available (detectCodexCli w) = true ->
  context_files a = Some (List.map VString paths)
  \/ (context_files a = None /\ paths = []) ->
  (List.length paths <= 20)%nat ->
  (has_nul (model_of env a) = true ->
   spawn_returns (child_events w) = false) ->
  handleAskCodex env w a done
  = (Ok (response_of (settlement (CODEX_TIMEOUT env) (child_events w))),
     done
     ++ [DetectCli; ResolvePrompt (agent_role a)]
     ++ flat_map (calls_of (fs w)) paths
     ++ Spawn (lit "codex")
              [lit "exec"; lit "-m"; model_of env a; lit "--json";
               lit "--full-auto"]
        :: (if spawn_returns (child_events w) then
              [StdinWrite
                 (buildPromptWithSystemContext w (prompt a)
                    (context_of (fs w) paths)
                    (resolveSystemPrompt w (agent_role a)))]
            else []))
  /\ (forall message rest,
        child_events w = SpawnThrows message :: rest ->
        spawn_returns (child_events w) = false
        /\ response_of (settlement (CODEX_TIMEOUT env) (child_events w))
           = Some (failure (lit "Codex CLI error: " ++ message))).
Proof.
  intros V A F L _. split.
  2:{ intros message rest E. rewrite E. split; [reflexivity|].
      unfold settlement, promise.
      destruct (first_terminal_decides (CODEX_TIMEOUT env) [] rest
                  (SpawnThrows message) (Forall_nil _) eq_refl)
        as (_ & C & _).
      cbn [app] in C. rewrite C. reflexivity. }
  unfold handleAskCodex. rewrite V, A. cbn [negb].
  unfold bind at 1. unfold log at 1. unfold update.
  unfold bind at 1. unfold log at 1. unfold update.
  assert (Ask : forall ctx st,
             ask env w a ctx (resolveSystemPrompt w (agent_role a)) st
             = (Ok (response_of (settlement (CODEX_TIMEOUT env) (child_events w))),
                st ++ Spawn (lit "codex") (codex_args (model_of env a))
                   :: (if spawn_returns (child_events w) then
                         [StdinWrite
                            (buildPromptWithSystemContext w (prompt a) ctx
                               (resolveSystemPrompt w (agent_role a)))]
                       else []))).
  { intros ctx st. unfold ask, bind. rewrite executeCodex_run. reflexivity. }
  destruct F as [F | [F ->]]; rewrite F.
  - destruct paths as [|p r].
    + cbn [List.map flat_map context_of app]. rewrite Ask.
      now rewrite <- !app_assoc.
    + cbn [List.map].
      replace (MAX_CONTEXT_FILES <? Z.of_nat (List.length (VString p :: List.map VString r)))
        with false.
      2:{ symmetry. apply Z.ltb_ge. unfold MAX_CONTEXT_FILES.
          cbn [List.length] in *. rewrite length_map. lia. }
      unfold bind at 1.
      change (VString p :: List.map VString r)
        with (List.map VString (p :: r)).
      rewrite map_string_paths, Ask. unfold context_of, codex_args.
      now rewrite <- !app_assoc.
  - cbn [flat_map context_of app]. rewrite Ask.
    now rewrite <- !app_assoc.
Qed.

Lemma accepted_request_witness :
  handleAskCodex no_env
    (sample_world [StdoutData (output_text_line (quoted "fine")); Close (Some 0)])
    (request "critic" [VString (lit "a.txt"); VString (lit "src")]) []
  = (Ok (Some (success (lit "fine"))),
     [DetectCli; ResolvePrompt (lit "critic");
      FsStat (lit "/work/a.txt"); FsRead (lit "/work/a.txt");
      FsStat (lit "/work/src");
      Spawn (lit "codex")
            [lit "exec"; lit "-m"; lit "gpt-5.2"; lit "--json";
             lit "--full-auto"];
      StdinWrite
        (lit "You are the critic" ++ nl ++ nl
         ++ lit "--- File: a.txt ---" ++ nl ++ lit "hello" ++ nl ++ nl
         ++ lit "--- File: src --- (Not a regular file)" ++ nl ++ nl
         ++ lit "Review this design")])
  /\ handleAskCodex no_env
       (sample_world [SpawnThrows (lit "spawn E2BIG"); Close (Some 0)])
       (request "critic" []) []
     = (Ok (Some (failure (lit "Codex CLI error: spawn E2BIG"))),
        [DetectCli; ResolvePrompt (lit "critic");
         Spawn (lit "codex")
               [lit "exec"; lit "-m"; lit "gpt-5.2"; lit "--json";
                lit "--full-auto"]])
  /\ handleAskCodex no_env
       (sample_world
          [SpawnThrows
             (lit "The argument 'args[2]' must be a string without null bytes")])
       {| prompt := lit "Review this design"; agent_role := lit "critic";
          model := Some (lit "gpt" ++ [0%N] ++ lit "x");
          context_files := None |} []
     = (Ok (Some (failure
                    (lit "Codex CLI error: The argument 'args[2]' must be a string without null bytes"))),
        [DetectCli; ResolvePrompt (lit "critic");
         Spawn (lit "codex")
               [lit "exec"; lit "-m"; lit "gpt" ++ [0%N] ++ lit "x";
                lit "--json"; lit "--full-auto"]]).
Proof.
  split; [|split].
  - refine (proj1 (accepted_request no_env
             (sample_world
                [StdoutData (output_text_line (quoted "fine")); Close (Some 0)])
             (request "critic" [VString (lit "a.txt"); VString (lit "src")])
             [lit "a.txt"; lit "src"] [] _ _ _ _ _)).
    + reflexivity.
    + reflexivity.
    + left. reflexivity.
    + cbn. lia.
    + intros H. vm_compute in H. discriminate H.
  - refine (proj1 (accepted_request no_env
             (sample_world [SpawnThrows (lit "spawn E2BIG"); Close (Some 0)])
             (request "critic" []) [] [] _ _ _ _ _)).
    + reflexivity.
    + reflexivity.
    + left. reflexivity.
    + cbn. lia.
    + intros _. reflexivity.
  - refine (proj1 (accepted_request no_env
             (sample_world
                [SpawnThrows
                   (lit "The argument 'args[2]' must be a string without null bytes")])
             {| prompt := lit "Review this design"; agent_role := lit "critic";
                model := Some (lit "gpt" ++ [0%N] ++ lit "x");
                context_files := None |} [] [] _ _ _ _ _)).
    + reflexivity.
    + reflexivity.
    + right. split; reflexivity.
    + cbn. lia.
    + intros _. reflexivity.
Defined.

(** X16.  Nothing is touched for a rejected request.  Whatever the
    request, the log is only extended; a call that touches a context file
    or the engine process is made only when the role is in the allow-list,
    the CLI is detected and there are at most 20 context files; and a
    process is spawned at most once, as codex with the five arguments. *)
Theorem files_and_engine_only_when_accepted (env : Env) (w : World)
        (a : Args) (done : list Effect) :
  exists effects,
    snd (handleAskCodex env w a done) = done ++ effects
    /\ (existsb touches_files_or_engine effects = true ->
        In (agent_role a) CODEX_VALID_ROLES
        /\ available (detectCodexCli w) = true
        /\ (file_count a <= 20)%nat)
    /\ (forall command args,
          In (Spawn command args) effects ->
          command = lit "codex" /\ args = codex_args (model_of env a))
    /\ (List.length (filter (fun e => match e with
                                      | Spawn _ _ => true
                                      | _ => false
                                      end) effects) <= 1)%nat.
Proof.
  unfold handleAskCodex.
  destruct (valid_role (agent_role a)) eqn:V; cbn [negb].
  2:{ exists []. cbn. rewrite app_nil_r. split; [reflexivity|].
      split; [discriminate|]. split; [intros c x []|lia]. }
  apply valid_role_iff in V.
  unfold bind at 1. unfold log at 1. unfold update.
  destruct (available (detectCodexCli w)) eqn:A; cbn [negb].
  2:{ exists [DetectCli]. cbn. split; [reflexivity|].
      split; [discriminate|].
      split; [intros c x [H | []]; discriminate | lia]. }
  unfold bind at 1. unfold log at 1. unfold update.
  set (written := fun ctx : option jsstring =>
         if spawn_returns (child_events w) then
           [StdinWrite
              (buildPromptWithSystemContext w (prompt a) ctx
                 (resolveSystemPrompt w (agent_role a)))]
         else []).
  assert (Ask : forall ctx st,
             snd (ask env w a ctx (resolveSystemPrompt w (agent_role a)) st)
             = st ++ Spawn (lit "codex") (codex_args (model_of env a))
                  :: written ctx).
  { intros ctx st. unfold ask, bind. rewrite executeCodex_run. reflexivity. }
  assert (WS : forall ctx c x, ~ In (Spawn c x) (written ctx)).
  { intros ctx c x. unfold written.
    destruct (spawn_returns (child_events w)); [|intros []].
    intros [H | []]. discriminate. }
  assert (WC : forall ctx,
             filter (fun e => match e with
                              | Spawn _ _ => true
                              | _ => false
                              end) (written ctx) = []).
  { intros ctx. unfold written.
    destruct (spawn_returns (child_events w)); reflexivity. }
  assert (NoSpawn : forall effects c x,
             forallb file_call effects = true ->
             ~ In (Spawn c x) effects).
  { intros effects c x F H. rewrite forallb_forall in F.
    specialize (F _ H). discriminate. }
  assert (Count : forall effects,
             forallb file_call effects = true ->
             filter (fun e => match e with
                              | Spawn _ _ => true
                              | _ => false
                              end) effects = []).
  { induction effects as [|e r IH]; [reflexivity|].
    cbn [forallb filter]. intros H. apply Bool.andb_true_iff in H as [E R].
    destruct e; try discriminate; now apply IH. }
  unfold file_count.
  destruct (context_files a) as [[|f fl]|] eqn:F.
  - eexists. rewrite Ask, <- !app_assoc. split; [reflexivity|].
    split; [intros _; cbn; repeat split; auto; lia|].
    split.
    + intros c x [H | [H | [H | H]]]; try discriminate.
      * injection H as <- <-. split; reflexivity.
      * destruct (WS _ _ _ H).
    + cbn [app filter]. rewrite WC. cbn. lia.
  - destruct (MAX_CONTEXT_FILES <? Z.of_nat (List.length (f :: fl))) eqn:M.
    + exists [DetectCli; ResolvePrompt (agent_role a)].
      unfold ret. cbn [snd]. rewrite <- app_assoc.
      split; [reflexivity|]. split; [discriminate|].
      split; [intros c x [H | [H | []]]; discriminate | cbn; lia].
    + apply Z.ltb_ge in M. unfold MAX_CONTEXT_FILES in M.
      destruct (map_files_calls (fs w) (f :: fl)
                  ((done ++ [DetectCli]) ++ [ResolvePrompt (agent_role a)]))
        as (effects & E & FC).
      unfold bind at 1.
      destruct (map_st (validateAndReadFile (fs w)) (f :: fl)
                       ((done ++ [DetectCli]) ++ [ResolvePrompt (agent_role a)]))
        as [[blocks|e] st'] eqn:Q; cbn [snd] in E; subst st'.
      * eexists. rewrite Ask, <- !app_assoc. split; [reflexivity|].
        split; [intros _; repeat split; auto; lia|].
        split.
        -- intros c x H. cbn [app] in H.
           destruct H as [H | [H | H]]; try discriminate.
           apply in_app_or in H as [H | H];
             [destruct (NoSpawn _ _ _ FC H)|].
           destruct H as [H | H]; [|destruct (WS _ _ _ H)].
           injection H as <- <-. split; reflexivity.
        -- cbn [app filter]. rewrite filter_app, (Count _ FC).
           cbn [app filter]. rewrite WC. cbn. lia.
      * exists ([DetectCli; ResolvePrompt (agent_role a)] ++ effects).
        cbn [snd]. rewrite <- !app_assoc. split; [reflexivity|].
        split; [intros _; repeat split; auto; lia|].
        split.
        -- intros c x H. cbn [app] in H.
           destruct H as [H | [H | H]]; try discriminate.
           destruct (NoSpawn _ _ _ FC H).
        -- cbn [app filter]. rewrite (Count _ FC). cbn. lia.
  - eexists. rewrite Ask, <- !app_assoc. split; [reflexivity|].
    split; [intros _; cbn; repeat split; auto; lia|].
    split.
    + intros c x [H | [H | [H | H]]]; try discriminate.
      * injection H as <- <-. split; reflexivity.
      * destruct (WS _ _ _ H).
    + cbn [app filter]. rewrite WC. cbn. lia.
Qed.

End HandlerMore.
